(** * zenolib [FileImpl]: header and index loading, directory lookup

    A shallow embedding of [src/zenolib/fileimpl.cpp].  The object state of
    [FileImpl] (the file stream with its cursor and fail bit, the offset
    table, the cached namespace string) is passed explicitly; a thrown
    [ZenoFileFormatError] is a result of its own.  Integers of the source
    are [Z] with the wrap-around of their width written out. *)

From Stdlib Require Import ZArith Bool Lia.
From Stdlib Require Import Ascii String DecimalString DecimalPos DecimalN.
From Stdlib Require Import Strings.Byte.
From Stdlib Require Import List Sorted.
Import ListNotations.

Local Open Scope Z_scope.

(** ** Machine integers *)

(** [size_type] is a 32-bit and [offset_type] a 64-bit unsigned integer;
    [IndexOffsetsType::size_type] is the 64-bit [size_t]. *)
Definition size_type_mod : Z := 2 ^ 32.
Definition offset_type_mod : Z := 2 ^ 64.

Definition to_size_type (z : Z) : Z := z mod size_type_mod.
Definition to_offset_type (z : Z) : Z := z mod offset_type_mod.
Definition to_size_t (z : Z) : Z := z mod offset_type_mod.

(** ** Binary decoder *)

Definition byte_value (b : byte) : Z := Z.of_N (Byte.to_N b).

(** Value of a byte sequence read least significant byte first. *)
Fixpoint le_value (bs : list byte) : Z :=
  match bs with
  | [] => 0
  | b :: rest => byte_value b + 256 * le_value rest
  end.

(** Modelled from the spec: [fromLittleEndian<T>(ptr)] is declared in a
    header that is not part of the translated file; it interprets the
    [sizeof(T)] bytes at [ptr] as a little-endian unsigned integer.  A
    pointer into a buffer is the list of the bytes from that position on. *)
Definition fromLittleEndian (width : nat) (ptr : list byte) : Z :=
  le_value (firstn width ptr).

(** ** The file stream *)

(** [std::ifstream] as far as the code uses it: the bytes of the file, the
    get position, the fail state tested by [!zenoFile], and [gcount()]. *)
Record ifstream : Type := mkStream {
  content : list byte;
  gpos : Z;
  failbit : bool;
  gcount : Z
}.

(** The files that can be opened, by name. *)
Definition filesystem : Type := string -> option (list byte).

Definition ifstream_open (fs : filesystem) (fname : string) : ifstream :=
  match fs fname with
  | Some bytes => mkStream bytes 0 false 0
  | None => mkStream [] 0 true 0
  end.

(** [zenoFile.read(buf, n)]: on a failed stream nothing is extracted; else
    up to [n] bytes are extracted from the get position, and extracting
    fewer than [n] sets the fail state. *)
Definition read (n : Z) (s : ifstream) : list byte * ifstream :=
  if failbit s then ([], mkStream (content s) (gpos s) true 0)
  else
    let got := firstn (Z.to_nat n) (skipn (Z.to_nat (gpos s)) (content s)) in
    let k := Z.of_nat (length got) in
    (got, mkStream (content s) (gpos s + k) (k <? n) k).

(** [zenoFile.seekg(pos)]: no effect on a failed stream; a position that
    is not a non-negative signed stream offset fails the stream; a
    position past the end of the file is accepted.  A file system may
    refuse a position far past the end of the file as well, and the seek
    then fails; the stream is concluded to be good after a seek only for
    positions within the file. *)
Definition seekg (pos : Z) (s : ifstream) : ifstream :=
  if failbit s then s
  else if (0 <=? pos) && (pos <? 2 ^ 63)
       then mkStream (content s) pos false (gcount s)
       else mkStream (content s) (gpos s) true (gcount s).

(** ** Errors *)

Inductive error : Type :=
| ZenoFileFormatError (what : string).

Inductive result (A : Type) : Type :=
| Ok (a : A)
| Raise (e : error).
Arguments Ok {A} a.
Arguments Raise {A} e.

(** [msg << n] for an unsigned integer. *)
Definition decimal (n : Z) : string :=
  NilZero.string_of_uint (N.to_uint (Z.to_N n)).

Definition dquote : string := String (ascii_of_nat 34) EmptyString.

(** ** The object *)

Record FileImpl : Type := mkFileImpl {
  zenoFile : ifstream;
  filename : string;
  indexOffsets : list Z;
  namespaces : list Z
}.

(** Modelled from the spec: [getCountArticles()] is defined in the class
    declaration, which is not part of the translated file; the article
    count is the length of the offset table. *)
Definition getCountArticles (f : FileImpl) : Z :=
  Z.of_nat (length (indexOffsets f)).

(** ** The constructor *)

Definition headerSize : Z := 0x3c.
Definition expectedMagic : Z := 1439867043.
Definition expectedVersion : Z := 3.

(** The memory of [std::vector<size_type> buffer(rCount)] after
    [zenoFile.read(&buffer[0], rIndexPtrLen)] delivered [got]: the vector is
    zero-initialised and the bytes read overwrite it from its start.  Bytes
    stored past the vector's end are not part of the vector.  The code does
    not compare [rIndexPtrLen] with the size of the vector: a read that
    delivers more bytes than the vector holds writes past its end, which
    is undefined behaviour, and that an open returns is concluded only for
    files whose read fits the vector ([buffer_holds_read] below).  The
    allocation of the vector is taken to succeed. *)
Definition fill_buffer (rCount : Z) (got : list byte) : list byte :=
  let zeroed := repeat x00 (4 * Z.to_nat rCount) in
  firstn (length zeroed) (got ++ skipn (length got) zeroed).

(** The address of the [i]-th element of the vector. *)
Definition element_ptr (buffer : list byte) (i : nat) : list byte :=
  skipn (4 * i) buffer.

Definition header_too_short : error :=
  ZenoFileFormatError "format-error: header too short in zeno-file".

Definition invalid_magic_msg (rMagic : Z) : string :=
  "invalid magic number " ++ decimal rMagic ++ " found - 1439867043 expected".

Definition invalid_version_msg (rVersion : Z) : string :=
  "invalid zenofile version " ++ decimal rVersion ++ " found - 3 expected".

Definition FileImpl_new (fs : filesystem) (fname : string) : result FileImpl :=
  let zenoFile0 := ifstream_open fs fname in
  if failbit zenoFile0 then
    Raise (ZenoFileFormatError ("can't open zeno-file " ++ dquote ++ fname ++ dquote))
  else
    let '(header, zenoFile1) := read headerSize zenoFile0 in
    if failbit zenoFile1 || negb (gcount zenoFile1 =? headerSize) then
      Raise header_too_short
    else
      let rMagic := fromLittleEndian 4 (skipn 0x0 header) in
      if negb (rMagic =? expectedMagic) then
        Raise (ZenoFileFormatError (invalid_magic_msg rMagic))
      else
        let rVersion := fromLittleEndian 4 (skipn 0x4 header) in
        if negb (rVersion =? expectedVersion) then
          Raise (ZenoFileFormatError (invalid_version_msg rVersion))
        else
          let rCount := fromLittleEndian 4 (skipn 0x8 header) in
          let rIndexPos := fromLittleEndian 8 (skipn 0x10 header) in
          let rIndexLen := fromLittleEndian 4 (skipn 0x18 header) in
          let rIndexPtrPos := fromLittleEndian 8 (skipn 0x20 header) in
          let rIndexPtrLen := fromLittleEndian 4 (skipn 0x28 header) in
          let zenoFile2 := seekg rIndexPtrPos zenoFile1 in
          let '(got, zenoFile3) := read rIndexPtrLen zenoFile2 in
          let buffer := fill_buffer rCount got in
          let offsets :=
            fold_left
              (fun indexOffsets it =>
                 indexOffsets ++
                 [to_offset_type
                    (rIndexPos + fromLittleEndian 4 (element_ptr buffer it))])
              (seq 0 (Z.to_nat rCount)) [] in
          Ok (mkFileImpl zenoFile3 fname offsets []).

(** ** Declarations the file relies on *)

(** The classes [Dirent] and [QUnicodeString] are declared in
    [zeno/dirent.h] and [zeno/qunicode.h], which are not part of the
    translated file.  The code below uses them only through the members
    listed here, so they are taken as an interface. *)
Class ZenoDecls : Type := {
  (** [zeno::Dirent] *)
  Dirent : Type;
  (** [Dirent(header)], from the 26 bytes of the fixed part *)
  Dirent_new : list byte -> Dirent;
  getExtraLen : Dirent -> Z;
  setExtra : list byte -> Dirent -> Dirent;
  (** [getNamespace()], a [char], as its integer value *)
  getNamespace : Dirent -> Z;
  (** [zeno::QUnicodeString] *)
  QUnicodeString : Type;
  (** [QUnicodeString(d.getTitle())] *)
  getTitle : Dirent -> QUnicodeString;
  (** three-way comparisons, an [int] *)
  compare : QUnicodeString -> QUnicodeString -> Z;
  compareCollate : QUnicodeString -> QUnicodeString -> Z
}.

(** ** Member functions: state and exceptions *)

(** The outcome of a member function: a value or an exception, each with
    the state the object is left in.  The loops are given a number of
    iterations (fuel); [NoFuel] is a loop running out of them, which is the
    outcome of no call on an object whose count fits [size_type] (theorem
    [lookups_end]), whatever the file holds. *)
Inductive outcome (A : Type) : Type :=
| Ret (a : A) (f : FileImpl)
| Throw (e : error) (f : FileImpl)
| NoFuel.
Arguments Ret {A} a f.
Arguments Throw {A} e f.
Arguments NoFuel {A}.

Definition M (A : Type) : Type := FileImpl -> outcome A.

Definition ret {A} (a : A) : M A := fun f => Ret a f.

Definition bind {A B} (c : M A) (k : A -> M B) : M B :=
  fun f =>
    match c f with
    | Ret a f' => k a f'
    | Throw e f' => Throw e f'
    | NoFuel => NoFuel
    end.

Definition throw {A} (e : error) : M A := fun f => Throw e f.
Definition out_of_fuel {A} : M A := fun _ => NoFuel.
Definition get {A} (field : FileImpl -> A) : M A := fun f => Ret (field f) f.

Notation "x <- c ;; k" := (bind c (fun x => k))
  (at level 61, c at next level, right associativity).
Notation "c ;;; k" := (bind c (fun _ => k))
  (at level 61, right associativity).

Definition returned {A} (o : outcome A) : option A :=
  match o with Ret a _ => Some a | _ => None end.

Definition thrown {A} (o : outcome A) : option error :=
  match o with Throw e _ => Some e | _ => None end.

Definition set_zenoFile (s : ifstream) (f : FileImpl) : FileImpl :=
  mkFileImpl s (filename f) (indexOffsets f) (namespaces f).

Definition set_namespaces (ns : list Z) (f : FileImpl) : FileImpl :=
  mkFileImpl (zenoFile f) (filename f) (indexOffsets f) ns.

Definition zenoFile_read (n : Z) : M (list byte) :=
  fun f => let '(got, s) := read n (zenoFile f) in Ret got (set_zenoFile s f).

Definition zenoFile_seekg (pos : Z) : M unit :=
  fun f => Ret tt (set_zenoFile (seekg pos (zenoFile f)) f).

Definition assign_namespaces (ns : list Z) : M unit :=
  fun f => Ret tt (set_namespaces ns f).

(** [v[i]] of a [std::vector]; the functions below evaluate it only after
    the index has been checked or bounded by the size. *)
Definition vector_at (v : list Z) (i : Z) : Z := nth (Z.to_nat i) v 0.

(** [s.find(c)] of a [std::string]: the first position of [c], or [npos]. *)
Fixpoint string_find (s : list Z) (c : Z) : option Z :=
  match s with
  | [] => None
  | x :: rest =>
      if x =? c then Some 0 else option_map Z.succ (string_find rest c)
  end.

Definition out_of_range : error :=
  ZenoFileFormatError "article index out of range".

Section Members.
Context {decls : ZenoDecls}.

(** An [Article]: empty, or an index with its directory entry (the handle
    on the owning file is this object). *)
Inductive Article : Type :=
| Article_empty
| Article_of (idx : Z) (d : Dirent).

(** *** Reading data and directory entries *)

Fixpoint readDataNolock_loop (fuel : nat) (count : Z) (data : list byte)
  : M (list byte) :=
  if count >? 0 then
    match fuel with
    | O => out_of_fuel
    | S fuel' =>
        buffer <- zenoFile_read (Z.min 256 count) ;;
        failed <- get (fun f => failbit (zenoFile f)) ;;
        if (failed : bool) then
          throw (ZenoFileFormatError "format-error: error reading data")
        else
          n <- get (fun f => gcount (zenoFile f)) ;;
          readDataNolock_loop fuel' (to_size_type (count - n))
            (data ++ firstn (Z.to_nat n) buffer)
    end
  else ret data.

(** [readDataNolock(size_type count)]; every iteration that does not throw
    lowers [count], so [count] iterations are enough. *)
Definition readDataNolock (count : Z) : M (list byte) :=
  readDataNolock_loop (Z.to_nat count) count [].

(** [readDataNolock(offset_type off, size_type count)] *)
Definition readDataNolock_at (off count : Z) : M (list byte) :=
  zenoFile_seekg off ;;; readDataNolock count.

(** [readData], which takes the lock and nothing more. *)
Definition readData (off count : Z) : M (list byte) :=
  readDataNolock_at off count.

Definition index_header_msg (fname : string) : string :=
  "format-error: can't read index-header in " ++ dquote ++ fname ++ dquote.

(** [readDirentNolock()] *)
Definition readDirentNolock_here : M Dirent :=
  header <- zenoFile_read 26 ;;
  failed <- get (fun f => failbit (zenoFile f)) ;;
  n <- get (fun f => gcount (zenoFile f)) ;;
  if (failed : bool) || negb (n =? 26) then
    fname <- get filename ;;
    throw (ZenoFileFormatError (index_header_msg fname))
  else
    let dirent := Dirent_new header in
    extra <- (if getExtraLen dirent >? 0
              then readDataNolock (to_size_type (getExtraLen dirent))
              else ret []) ;;
    ret (setExtra extra dirent).

(** [readDirentNolock(offset_type off)] *)
Definition readDirentNolock (off : Z) : M Dirent :=
  zenoFile_seekg off ;;; readDirentNolock_here.

(** *** Access by index *)

Definition getDirent (idx : Z) : M Dirent :=
  count <- get getCountArticles ;;
  if idx >=? count then throw out_of_range
  else
    offsets <- get indexOffsets ;;
    readDirentNolock (vector_at offsets idx).

Definition getArticle (idx : Z) : M Article :=
  count <- get getCountArticles ;;
  if idx >=? count then throw out_of_range
  else
    offsets <- get indexOffsets ;;
    d <- readDirentNolock (vector_at offsets idx) ;;
    ret (Article_of idx d).

(** *** Namespace runs *)

Fixpoint getNamespaceBeginOffset_loop (fuel : nat) (ch lower upper : Z)
  : M (Z * Z) :=
  if to_size_type (upper - lower) >? 1 then
    match fuel with
    | O => out_of_fuel
    | S fuel' =>
        let m := to_size_type (lower + to_size_type (upper - lower) / 2) in
        d <- getDirent m ;;
        if getNamespace d >=? ch
        then getNamespaceBeginOffset_loop fuel' ch lower m
        else getNamespaceBeginOffset_loop fuel' ch m upper
    end
  else ret (lower, upper).

(** [upper - lower] shrinks with every iteration of the loop, so [upper]
    iterations are enough; the same holds for the two other searches. *)
Definition getNamespaceBeginOffset (ch : Z) : M Z :=
  let lower := 0 in
  upper <- get getCountArticles ;;
  d <- getDirent 0 ;;
  bounds <- getNamespaceBeginOffset_loop (Z.to_nat upper) ch lower upper ;;
  let '(lower, upper) := bounds in
  ret (if getNamespace d <? ch then upper else lower).

Fixpoint getNamespaceEndOffset_loop (fuel : nat) (ch lower upper : Z)
  : M (Z * Z) :=
  if to_size_type (upper - lower) >? 1 then
    match fuel with
    | O => out_of_fuel
    | S fuel' =>
        let m := to_size_type (lower + to_size_type (upper - lower) / 2) in
        d <- getDirent m ;;
        if getNamespace d >? ch
        then getNamespaceEndOffset_loop fuel' ch lower m
        else getNamespaceEndOffset_loop fuel' ch m upper
    end
  else ret (lower, upper).

Definition getNamespaceEndOffset (ch : Z) : M Z :=
  let lower := 0 in
  upper <- get getCountArticles ;;
  bounds <- getNamespaceEndOffset_loop (Z.to_nat upper) ch lower upper ;;
  let '(_, upper) := bounds in
  ret upper.

(** The loop of [getNamespaces]: the condition is evaluated first, the
    body appends to the member [namespaces].  Every iteration goes on with
    an entry of a greater namespace, so there are fewer iterations than
    entries. *)
Fixpoint getNamespaces_loop (fuel : nat) (d : Dirent) : M unit :=
  idx <- getNamespaceEndOffset (getNamespace d) ;;
  count <- get getCountArticles ;;
  if idx <? count then
    match fuel with
    | O => out_of_fuel
    | S fuel' =>
        d' <- getDirent idx ;;
        cached <- get namespaces ;;
        assign_namespaces (cached ++ [getNamespace d']) ;;;
        getNamespaces_loop fuel' d'
    end
  else ret tt.

Definition getNamespaces : M (list Z) :=
  cached <- get namespaces ;;
  (match cached with
   | [] =>
       d <- getDirent 0 ;;
       assign_namespaces [getNamespace d] ;;;
       count <- get getCountArticles ;;
       getNamespaces_loop (Z.to_nat count) d
   | _ :: _ => ret tt
   end) ;;;
  get namespaces.

(** *** Lookup by namespace and title *)

Definition compare_title (collate : bool) (title : QUnicodeString)
  (d : Dirent) : Z :=
  if collate then compareCollate title (getTitle d)
  else compare title (getTitle d).

(** The loop of [findArticle]: [inl] is the [return] inside the loop, [inr]
    the bounds the loop ends with. *)
Fixpoint findArticle_loop (fuel : nat) (ns : Z) (title : QUnicodeString)
  (collate : bool) (l u : Z) : M ((bool * Z) + (Z * Z)) :=
  if to_size_t (u - l) >? 1 then
    match fuel with
    | O => out_of_fuel
    | S fuel' =>
        let p := to_size_t (l + to_size_t (u - l) / 2) in
        offsets <- get indexOffsets ;;
        d <- readDirentNolock (vector_at offsets p) ;;
        let c := if ns <? getNamespace d then -1
                 else if ns >? getNamespace d then 1
                 else compare_title collate title d in
        if c <? 0 then findArticle_loop fuel' ns title collate l p
        else if c >? 0 then findArticle_loop fuel' ns title collate p u
        else ret (inl (true, to_size_type p))
    end
  else ret (inr (l, u)).

Definition findArticle (ns : Z) (title : QUnicodeString) (collate : bool)
  : M (bool * Z) :=
  nss <- getNamespaces ;;
  match string_find nss ns with
  | None => ret (false, 0)
  | Some _ =>
      let l := 0 in
      u <- get getCountArticles ;;
      r <- findArticle_loop (Z.to_nat u) ns title collate l u ;;
      match r with
      | inl found => ret found
      | inr (l, u) =>
          offsets <- get indexOffsets ;;
          d <- readDirentNolock (vector_at offsets l) ;;
          let c := compare_title collate title d in
          if c =? 0 then ret (true, to_size_type l)
          else ret (false, to_size_type u)
      end
  end.

(** [getArticle(char ns, const QUnicodeString& url, bool collate)] *)
Definition getArticle_by_title (ns : Z) (url : QUnicodeString)
  (collate : bool) : M Article :=
  s <- findArticle ns url collate ;;
  if negb (fst s) then ret Article_empty
  else
    offsets <- get indexOffsets ;;
    d <- readDirentNolock (vector_at offsets (snd s)) ;;
    ret (Article_of (snd s) d).

End Members.

(** ** What an archive holds *)

Section Archive.
Context {decls : ZenoDecls}.

(** The directory entry stored at a byte offset of the file, when the
    stream can seek to the offset and the file holds all of the entry: the
    26 bytes of the fixed part and the extra bytes it announces. *)
Definition dirent_at (bytes : list byte) (off : Z) : option Dirent :=
  if (0 <=? off) && (off <? 2 ^ 63) &&
     (off + 26 <=? Z.of_nat (length bytes)) then
    let dirent := Dirent_new (firstn 26 (skipn (Z.to_nat off) bytes)) in
    let len := if getExtraLen dirent >? 0
               then to_size_type (getExtraLen dirent) else 0 in
    if off + 26 + len <=? Z.of_nat (length bytes) then
      Some (setExtra
              (firstn (Z.to_nat len) (skipn (Z.to_nat (off + 26)) bytes))
              dirent)
    else None
  else None.

Fixpoint dirents_at (bytes : list byte) (offsets : list Z)
  : option (list Dirent) :=
  match offsets with
  | [] => Some []
  | off :: rest =>
      match dirent_at bytes off, dirents_at bytes rest with
      | Some d, Some ds => Some (d :: ds)
      | _, _ => None
      end
  end.

(** The directory entries of an open archive, in the order of the offset
    table, when the stream is good and every one of them is there. *)
Definition entries (f : FileImpl) : option (list Dirent) :=
  if failbit (zenoFile f) then None
  else dirents_at (content (zenoFile f)) (indexOffsets f).

(** The file holds at the offset an entry whose namespace is above [ch],
    and the number of such offsets in the table of an object. *)
Definition namespace_above (bytes : list byte) (ch : Z) (off : Z) : bool :=
  match dirent_at bytes off with
  | Some d => getNamespace d >? ch
  | None => false
  end.

Definition count_above (f : FileImpl) (ch : Z) : nat :=
  length (filter (namespace_above (content (zenoFile f)) ch)
                 (indexOffsets f)).

(** The order of the keys (namespace, title), titles compared exactly. *)
Definition key_leb (d1 d2 : Dirent) : bool :=
  (getNamespace d1 <? getNamespace d2) ||
  ((getNamespace d1 =? getNamespace d2) &&
   (compare (getTitle d1) (getTitle d2) <=? 0)).

(** Every entry is at most every later one. *)
Fixpoint sorted (es : list Dirent) : bool :=
  match es with
  | [] => true
  | d :: rest => forallb (key_leb d) rest && sorted rest
  end.

(** The three-way order of a search key and the key of an entry, titles
    compared exactly. *)
Definition key_compare (ns : Z) (title : QUnicodeString) (d : Dirent) : Z :=
  if ns <? getNamespace d then -1
  else if ns >? getNamespace d then 1
  else compare title (getTitle d).

(** The same order with the titles compared in the mode given: the value
    [c] of a probe of [findArticle]. *)
Definition probe_compare (collate : bool) (ns : Z) (title : QUnicodeString)
  (d : Dirent) : Z :=
  if ns <? getNamespace d then -1
  else if ns >? getNamespace d then 1
  else compare_title collate title d.

(** The [i]-th entry, for [i] below the number of entries. *)
Definition entry_at (es : list Dirent) (i : Z) : Dirent :=
  nth (Z.to_nat i) es (Dirent_new []).

(** The exact comparison of titles is the three-way comparison of a
    total order: zero on equal titles only, antisymmetric, transitive. *)
Class CompareLaws : Prop := {
  compare_eq : forall a b, compare a b = 0 <-> a = b;
  compare_antisym : forall a b, compare a b < 0 <-> 0 < compare b a;
  compare_trans :
    forall a b c, compare a b < 0 -> compare b c < 0 -> compare a c < 0
}.

(** The entry has exactly the namespace and the title of the key. *)
Definition has_key (ns : Z) (title : QUnicodeString) (d : Dirent) : bool :=
  key_compare ns title d =? 0.

(** The smallest index whose key is strictly greater than the search key,
    the number of entries if there is none. *)
Fixpoint first_greater (ns : Z) (title : QUnicodeString) (es : list Dirent)
  : Z :=
  match es with
  | [] => 0
  | d :: rest =>
      if key_compare ns title d <? 0 then 0
      else 1 + first_greater ns title rest
  end.

(** The namespace of the [i]-th entry, for [i] below the number of
    entries. *)
Definition namespace_at (es : list Dirent) (i : Z) : Z :=
  nth (Z.to_nat i) (map getNamespace es) 0.

(** Two states of the object over the same file and offset table. *)
Definition stable (f f' : FileImpl) : Prop :=
  indexOffsets f' = indexOffsets f /\
  content (zenoFile f') = content (zenoFile f).

(** Two states of the object that differ at most in the position and the
    last read count of the stream, the second with a good stream. *)
Definition same_archive (f f' : FileImpl) : Prop :=
  indexOffsets f' = indexOffsets f /\
  namespaces f' = namespaces f /\
  filename f' = filename f /\
  content (zenoFile f') = content (zenoFile f) /\
  failbit (zenoFile f') = false.

End Archive.

(** The elements of a list in the order of their first occurrence. *)
Definition first_occurrences (l : list Z) : list Z :=
  fold_left (fun seen c => if existsb (Z.eqb c) seen then seen else seen ++ [c])
            l [].

(** The namespace cache of an object over the entries [es]: still empty,
    or the namespaces of the table. *)
Definition cache_valid {decls : ZenoDecls} (es : list Dirent)
  (f : FileImpl) : Prop :=
  namespaces f = [] \/
  namespaces f = first_occurrences (map getNamespace es).

(** ** A sample instance and sample archives *)

Module Sample.

(** A directory entry kept as its bytes: namespace at byte 15 of the fixed
    part, length of the extra bytes in its last two bytes, the title being
    the extra bytes.  Titles are compared byte by byte; the collating
    comparison ignores the case of ASCII letters. *)
Record dirent : Type := mkDirent {
  fixed_part : list byte;
  extra_part : list byte
}.

Fixpoint compare_values (a b : list Z) : Z :=
  match a, b with
  | [], [] => 0
  | [], _ :: _ => -1
  | _ :: _, [] => 1
  | x :: a', y :: b' =>
      if x <? y then -1 else if y <? x then 1 else compare_values a' b'
  end.

Definition fold_case (v : Z) : Z :=
  if (65 <=? v) && (v <=? 90) then v + 32 else v.

#[global] Instance decls : ZenoDecls := {|
  Dirent := dirent;
  Dirent_new := fun header => mkDirent header [];
  getExtraLen := fun d => fromLittleEndian 2 (skipn 24 (fixed_part d));
  setExtra := fun extra d => mkDirent (fixed_part d) extra;
  getNamespace := fun d => byte_value (nth 15 (fixed_part d) x00);
  QUnicodeString := list byte;
  getTitle := extra_part;
  compare := fun a b =>
    compare_values (map byte_value a) (map byte_value b);
  compareCollate := fun a b =>
    compare_values (map (fun x => fold_case (byte_value x)) a)
                   (map (fun x => fold_case (byte_value x)) b)
|}.

Definition byte_of (z : Z) : byte :=
  match Byte.of_N (Z.to_N (z mod 256)) with
  | Some b => b
  | None => x00
  end.

Fixpoint toLittleEndian (width : nat) (z : Z) : list byte :=
  match width with
  | O => []
  | S w => byte_of z :: toLittleEndian w (z / 256)
  end.

Definition char (a : ascii) : Z := Z.of_N (N_of_ascii a).
Definition text (s : string) : list byte := list_byte_of_string s.

Definition header_bytes (magic version count indexPos indexLen
                         indexPtrPos indexPtrLen : Z) : list byte :=
  toLittleEndian 4 magic ++ toLittleEndian 4 version ++
  toLittleEndian 4 count ++ repeat x00 4 ++
  toLittleEndian 8 indexPos ++ toLittleEndian 4 indexLen ++ repeat x00 4 ++
  toLittleEndian 8 indexPtrPos ++ toLittleEndian 4 indexPtrLen ++
  repeat x00 16.

Definition dirent_bytes (e : ascii * string) : list byte :=
  repeat x00 15 ++ [byte_of (char (fst e))] ++ repeat x00 8 ++
  toLittleEndian 2 (Z.of_nat (String.length (snd e))) ++ text (snd e).

(** The positions of the entries, relative to the start of the index. *)
Fixpoint pointers (from : Z) (es : list (ascii * string)) : list Z :=
  match es with
  | [] => []
  | e :: rest =>
      from :: pointers (from + Z.of_nat (length (dirent_bytes e))) rest
  end.

(** A whole archive: header, pointer table, directory entries. *)
Definition archive_bytes (es : list (ascii * string)) : list byte :=
  let count := Z.of_nat (length es) in
  let index := flat_map dirent_bytes es in
  header_bytes expectedMagic expectedVersion count
               (headerSize + 4 * count) (Z.of_nat (length index))
               headerSize (4 * count) ++
  flat_map (toLittleEndian 4) (pointers 0 es) ++
  index.

(** A file system with one file. *)
Definition one_file (name : string) (bytes : list byte) : filesystem :=
  fun fname => if String.eqb fname name then Some bytes else None.

Definition open (es : list (ascii * string)) : result FileImpl :=
  FileImpl_new (one_file "sample.zeno" (archive_bytes es)) "sample.zeno".

(** The same, for use where opening is known to succeed. *)
Definition opened (es : list (ascii * string)) : FileImpl :=
  match open es with
  | Ok f => f
  | Raise _ => mkFileImpl (mkStream [] 0 true 0) EmptyString [] []
  end.

(** A header that announces two pointers at position 60, followed by the
    first pointer only. *)
Definition truncated_table : list byte :=
  header_bytes expectedMagic expectedVersion 2 68 0 headerSize 8 ++
  toLittleEndian 4 7.

(** The archive of the example: namespace A with bat, cat, dog and
    namespace B with eel. *)
Definition example_entries : list (ascii * string) :=
  [("A"%char, "bat"%string); ("A"%char, "cat"%string);
   ("A"%char, "dog"%string); ("B"%char, "eel"%string)].

(** An archive with the namespaces A and C. *)
Definition two_namespaces : list (ascii * string) :=
  [("A"%char, "a"%string); ("C"%char, "c"%string)].

(** An archive sorted by the exact comparison whose titles the collating
    comparison of the sample puts in the other order. *)
Definition mixed_case : list (ascii * string) :=
  [("A"%char, "B"%string); ("A"%char, "a"%string)].

(** The directory entries of a sample archive. *)
Definition dirents (es : list (ascii * string)) : list dirent :=
  match entries (opened es) with
  | Some ds => ds
  | None => []
  end.

End Sample.

(** ** The header of a byte store *)

(** A field of the fixed-size header: [fromLittleEndian<T>(header + at)]. *)
Definition header_field (width at_ : nat) (bytes : list byte) : Z :=
  fromLittleEndian width (skipn at_ (firstn (Z.to_nat headerSize) bytes)).

Definition magic_of := header_field 4 0x0.
Definition version_of := header_field 4 0x4.
Definition count_of := header_field 4 0x8.
Definition indexPos_of := header_field 8 0x10.
Definition indexPtrPos_of := header_field 8 0x20.
Definition indexPtrLen_of := header_field 4 0x28.

(** The memory of the pointer buffer once the constructor has read into
    it, and the pointer decoded from its [i]-th element. *)
Definition pointer_buffer (bytes : list byte) : list byte :=
  fill_buffer (count_of bytes)
    (fst (read (indexPtrLen_of bytes)
            (seekg (indexPtrPos_of bytes)
               (snd (read headerSize (mkStream bytes 0 false 0)))))).

Definition pointer_value (bytes : list byte) (i : nat) : Z :=
  fromLittleEndian 4 (element_ptr (pointer_buffer bytes) i).

(** The [i]-th pointer as the file stores it. *)
Definition stored_pointer (bytes : list byte) (i : nat) : Z :=
  fromLittleEndian 4
    (skipn (Z.to_nat (indexPtrPos_of bytes) + 4 * i) bytes).

(** ** What a call leaves of the object *)

(** The state a call leaves the object in, whether it returns or throws. *)
Definition final_state {A} (o : outcome A) : option FileImpl :=
  match o with
  | Ret _ f' => Some f'
  | Throw _ f' => Some f'
  | NoFuel => None
  end.

(** The second state has the offset table, the file name and the file of
    the first, and its stream is failed if the first one's was. *)
Definition same_table (f f' : FileImpl) : Prop :=
  indexOffsets f' = indexOffsets f /\
  filename f' = filename f /\
  content (zenoFile f') = content (zenoFile f) /\
  (failbit (zenoFile f) = true -> failbit (zenoFile f') = true).

(** The same, with the namespace cache of the first as well. *)
Definition same_object (f f' : FileImpl) : Prop :=
  same_table f f' /\ namespaces f' = namespaces f.

(** The namespace cache of the second state extends that of the first. *)
Definition cache_extends (f f' : FileImpl) : Prop :=
  exists more, namespaces f' = namespaces f ++ more.

(** Every state a call can leave is related to the state it started in. *)
Definition preserves {A} (R : FileImpl -> FileImpl -> Prop) (c : M A)
  : Prop :=
  forall f f', final_state (c f) = Some f' -> R f f'.

(** ** Reading files and entries *)

(** The bytes of a file from a position on, a number of them. *)
Definition file_slice (bytes : list byte) (off count : Z) : list byte :=
  firstn (Z.to_nat count) (skipn (Z.to_nat off) bytes).

Definition data_error : error :=
  ZenoFileFormatError "format-error: error reading data".

Section Spans.
Context {decls : ZenoDecls}.

(** The number of extra bytes that the fixed part at an offset announces,
    as [readDirentNolock] reads them, and the bytes the whole entry takes. *)
Definition extra_length (bytes : list byte) (off : Z) : Z :=
  let dirent := Dirent_new (file_slice bytes off 26) in
  if getExtraLen dirent >? 0 then to_size_type (getExtraLen dirent) else 0.

Definition entry_span (bytes : list byte) (off : Z) : Z :=
  26 + extra_length bytes off.

(** [getArticle(char ns, const std::string& url, bool collate)], with the
    conversion [QUnicodeString(url)] of [zeno/qunicode.h] as a parameter. *)
Definition getArticle_by_url
  (QUnicodeString_of_string : list byte -> QUnicodeString)
  (ns : Z) (url : list byte) (collate : bool) : M Article :=
  getArticle_by_title ns (QUnicodeString_of_string url) collate.

End Spans.

(** The bytes that the read of the pointer table in the constructor
    delivers fit the vector it reads them into, [4 * rCount] bytes. *)
Definition buffer_holds_read (bytes : list byte) : bool :=
  Z.of_nat
    (length
       (fst (read (indexPtrLen_of bytes)
               (seekg (indexPtrPos_of bytes)
                  (snd (read headerSize (mkStream bytes 0 false 0)))))))
  <=? 4 * count_of bytes.

(** The read of the pointer table in the constructor gets all the bytes it
    asks for, at a position the stream accepts. *)
Definition table_complete (bytes : list byte) : bool :=
  (indexPtrPos_of bytes <? 2 ^ 63) &&
  ((indexPtrLen_of bytes =? 0) ||
   (indexPtrPos_of bytes + indexPtrLen_of bytes <=? Z.of_nat (length bytes))).

(** Sample files given by their bytes, and a sample archive that lost its
    last byte. *)
Definition sample_open (bytes : list byte) : result FileImpl :=
  FileImpl_new (Sample.one_file "sample.zeno" bytes) "sample.zeno".

Definition sample_opened (bytes : list byte) : FileImpl :=
  match sample_open bytes with
  | Ok f => f
  | Raise _ => mkFileImpl (mkStream [] 0 true 0) EmptyString [] []
  end.

Definition cut_short (bytes : list byte) : list byte :=
  firstn (length bytes - 1) bytes.

(** * Properties *)

(** ** The decoder and the stream *)

Lemma byte_value_range (b : byte) : 0 <= byte_value b < 256.
Proof.
  unfold byte_value. pose proof (Byte.to_N_bounded b). lia.
Qed.

Lemma le_value_range (bs : list byte) :
  0 <= le_value bs < 256 ^ Z.of_nat (length bs).
Proof.
  induction bs as [|b bs IH].
  - simpl. lia.
  - cbn [le_value length]. rewrite Nat2Z.inj_succ, Z.pow_succ_r by lia.
    pose proof (byte_value_range b). lia.
Qed.

Lemma fromLittleEndian_range (width : nat) (ptr : list byte) :
  0 <= fromLittleEndian width ptr < 256 ^ Z.of_nat width.
Proof.
  unfold fromLittleEndian.
  pose proof (le_value_range (firstn width ptr)) as H.
  assert (256 ^ Z.of_nat (length (firstn width ptr)) <= 256 ^ Z.of_nat width).
  { apply Z.pow_le_mono_r; [lia|]. rewrite length_firstn. lia. }
  lia.
Qed.

Lemma header_field_size_type (at_ : nat) (bytes : list byte) :
  0 <= header_field 4 at_ bytes < size_type_mod.
Proof.
  unfold header_field.
  pose proof (fromLittleEndian_range 4
    (skipn at_ (firstn (Z.to_nat headerSize) bytes))) as H.
  unfold size_type_mod. change (256 ^ Z.of_nat 4) with (2 ^ 32) in H. lia.
Qed.

(** What a read from a good stream delivers. *)
Lemma read_good (n : Z) (bytes : list byte) (pos g : Z) :
  read n (mkStream bytes pos false g) =
  let got := firstn (Z.to_nat n) (skipn (Z.to_nat pos) bytes) in
  (got, mkStream bytes (pos + Z.of_nat (length got))
                 (Z.of_nat (length got) <? n) (Z.of_nat (length got))).
Proof. reflexivity. Qed.

(** A read that the file can satisfy leaves the stream good. *)
Lemma read_enough (n : Z) (bytes : list byte) (pos g : Z) :
  0 <= pos -> 0 <= n -> pos + n <= Z.of_nat (length bytes) ->
  read n (mkStream bytes pos false g) =
  (firstn (Z.to_nat n) (skipn (Z.to_nat pos) bytes),
   mkStream bytes (pos + n) false n).
Proof.
  intros Hp Hn Hlen. rewrite read_good. cbv zeta.
  assert (E : Z.of_nat (length (firstn (Z.to_nat n)
                         (skipn (Z.to_nat pos) bytes))) = n).
  { rewrite length_firstn, length_skipn. lia. }
  rewrite E. replace (n <? n) with false by (symmetry; apply Z.ltb_irrefl).
  reflexivity.
Qed.

(** ** The constructor *)

Lemma FileImpl_new_short (fs : filesystem) (fname : string)
  (bytes : list byte) :
  fs fname = Some bytes ->
  Z.of_nat (length bytes) < headerSize ->
  FileImpl_new fs fname = Raise header_too_short.
Proof.
  intros Hfs Hlen. unfold FileImpl_new, ifstream_open. rewrite Hfs.
  cbn [failbit]. rewrite read_good. cbv zeta. cbn [failbit gcount].
  change (skipn (Z.to_nat 0) bytes) with bytes.
  assert (E : (Z.of_nat (length (firstn (Z.to_nat headerSize) bytes))
               <? headerSize) = true).
  { apply Z.ltb_lt. rewrite length_firstn. unfold headerSize in *. lia. }
  rewrite E. reflexivity.
Qed.

(** The table the constructor leaves, from the header and the pointer
    buffer. *)
Lemma FileImpl_new_long (fs : filesystem) (fname : string)
  (bytes : list byte) :
  fs fname = Some bytes ->
  headerSize <= Z.of_nat (length bytes) ->
  FileImpl_new fs fname =
  if negb (magic_of bytes =? expectedMagic) then
    Raise (ZenoFileFormatError (invalid_magic_msg (magic_of bytes)))
  else if negb (version_of bytes =? expectedVersion) then
    Raise (ZenoFileFormatError (invalid_version_msg (version_of bytes)))
  else
    Ok (mkFileImpl
          (snd (read (indexPtrLen_of bytes)
                  (seekg (indexPtrPos_of bytes)
                     (snd (read headerSize (mkStream bytes 0 false 0))))))
          fname
          (fold_left
             (fun indexOffsets it =>
                indexOffsets ++
                [to_offset_type (indexPos_of bytes + pointer_value bytes it)])
             (seq 0 (Z.to_nat (count_of bytes))) [])
          []).
Proof.
  intros Hfs Hlen. unfold FileImpl_new, ifstream_open. rewrite Hfs.
  cbn [failbit]. unfold pointer_value, pointer_buffer.
  rewrite (read_enough headerSize bytes 0 0)
    by (unfold headerSize in *; lia).
  cbv beta iota zeta. cbn [failbit gcount fst snd orb].
  change (skipn (Z.to_nat 0) bytes) with bytes.
  rewrite Z.eqb_refl. cbn [negb].
  fold (header_field 4 0x0 bytes) (header_field 4 0x4 bytes)
       (header_field 4 0x8 bytes) (header_field 8 0x10 bytes)
       (header_field 8 0x20 bytes) (header_field 4 0x28 bytes).
  fold magic_of version_of count_of indexPos_of indexPtrPos_of indexPtrLen_of.
  destruct (negb (magic_of bytes =? expectedMagic)); [reflexivity|].
  destruct (negb (version_of bytes =? expectedVersion)); [reflexivity|].
  destruct (read (indexPtrLen_of bytes)
              (seekg (indexPtrPos_of bytes)
                 (mkStream bytes (0 + headerSize) false headerSize)))
    as [got zenoFile3].
  reflexivity.
Qed.

Lemma fold_left_push_back {A B : Type} (g : A -> B) (l : list A)
  (init : list B) :
  fold_left (fun acc x => acc ++ [g x]) l init = init ++ map g l.
Proof.
  revert init. induction l as [|x l IH]; intros init; cbn [fold_left map].
  - now rewrite app_nil_r.
  - rewrite IH, <- app_assoc. reflexivity.
Qed.

Lemma length_fill_buffer (rCount : Z) (got : list byte) :
  length (fill_buffer rCount got) = (4 * Z.to_nat rCount)%nat.
Proof.
  unfold fill_buffer. cbv zeta.
  rewrite length_firstn, length_app, length_skipn, !repeat_length. lia.
Qed.

(** An element of the buffer that the read covered holds the bytes of the
    file. *)
Lemma fill_buffer_element (rCount : Z) (bytes : list byte)
  (pos len : nat) (i : nat) :
  (i < Z.to_nat rCount)%nat ->
  (4 * (i + 1) <= len)%nat ->
  (pos + 4 * (i + 1) <= length bytes)%nat ->
  firstn 4 (element_ptr (fill_buffer rCount (firstn len (skipn pos bytes))) i)
  = firstn 4 (skipn (pos + 4 * i) bytes).
Proof.
  intros Hi Hlen Hfile. unfold element_ptr, fill_buffer. cbv zeta.
  rewrite repeat_length.
  set (got := firstn len (skipn pos bytes)).
  assert (Hgot : (4 * i + 4 <= length got)%nat).
  { unfold got. rewrite length_firstn, length_skipn. lia. }
  rewrite firstn_skipn_comm, firstn_firstn.
  replace (Init.Nat.min (4 * i + 4) (4 * Z.to_nat rCount))
    with (4 * i + 4)%nat by lia.
  rewrite firstn_app.
  replace (4 * i + 4 - length got)%nat with 0%nat by lia.
  rewrite firstn_O, app_nil_r. unfold got.
  rewrite firstn_firstn.
  replace (Init.Nat.min (4 * i + 4) len) with (4 * i + 4)%nat by lia.
  rewrite <- firstn_skipn_comm, skipn_skipn.
  f_equal. f_equal. lia.
Qed.







(** A pointer table that the header announces no longer than the vector
    fits the vector. *)
Lemma buffer_holds_read_announced (bytes : list byte) :
  indexPtrLen_of bytes <= 4 * count_of bytes ->
  buffer_holds_read bytes = true.
Proof.
  intros H. unfold buffer_holds_read. apply Z.leb_le.
  pose proof (header_field_size_type 0x28 bytes) as Hn.
  fold indexPtrLen_of in Hn.
  destruct (failbit (seekg (indexPtrPos_of bytes)
              (snd (read headerSize (mkStream bytes 0 false 0))))) eqn:Hf.
  - unfold read at 1. rewrite Hf. cbn [fst length]. lia.
  - unfold read at 1. rewrite Hf. cbn [fst]. rewrite length_firstn. lia.
Qed.



(** C7: after a successful open the offset table has as many elements as
    the header's article count says, its [i]-th element is the index
    position plus the pointer decoded from the [i]-th element of the
    pointer buffer, in the order of the buffer, the sum being taken in
    64-bit arithmetic and so exact whenever it is below 2^64; and an
    element of the buffer that the read covered is the [i]-th pointer
    stored in the file. *)
Theorem offset_table_after_open (fs : filesystem) (fname : string)
  (bytes : list byte) (f : FileImpl) :
  fs fname = Some bytes ->
  FileImpl_new fs fname = Ok f ->
  getCountArticles f = count_of bytes /\
  (forall i : nat, (i < Z.to_nat (count_of bytes))%nat ->
     nth_error (indexOffsets f) i =
     Some (to_offset_type (indexPos_of bytes + pointer_value bytes i))) /\
  (forall i : nat, (i < Z.to_nat (count_of bytes))%nat ->
     indexPos_of bytes + pointer_value bytes i < offset_type_mod ->
     nth_error (indexOffsets f) i =
     Some (indexPos_of bytes + pointer_value bytes i)) /\
  (forall i : nat, (i < Z.to_nat (count_of bytes))%nat ->
     Z.of_nat (length bytes) < 2 ^ 63 ->
     4 * (Z.of_nat i + 1) <= indexPtrLen_of bytes ->
     indexPtrPos_of bytes + 4 * (Z.of_nat i + 1) <= Z.of_nat (length bytes) ->
     pointer_value bytes i = stored_pointer bytes i).
Proof.
  intros Hfs Hopen.
  assert (Hlen : headerSize <= Z.of_nat (length bytes)).
  { destruct (Z.le_gt_cases headerSize (Z.of_nat (length bytes))) as [H|H];
      [exact H|].
    rewrite (FileImpl_new_short fs fname bytes Hfs) in Hopen by lia.
    discriminate Hopen. }
  rewrite (FileImpl_new_long fs fname bytes Hfs Hlen) in Hopen.
  destruct (negb (magic_of bytes =? expectedMagic)); [discriminate|].
  destruct (negb (version_of bytes =? expectedVersion)); [discriminate|].
  injection Hopen as Hf. subst f. unfold getCountArticles. cbn [indexOffsets].
  rewrite fold_left_push_back. cbn [app].
  pose proof (header_field_size_type 0x8 bytes) as Hc. fold count_of in Hc.
  assert (Helt : forall i : nat, (i < Z.to_nat (count_of bytes))%nat ->
            nth_error
              (map (fun x => to_offset_type
                               (indexPos_of bytes + pointer_value bytes x))
                   (seq 0 (Z.to_nat (count_of bytes)))) i =
            Some (to_offset_type
                    (indexPos_of bytes + pointer_value bytes i))).
  { intros i Hi.
    apply (map_nth_error
             (fun x => to_offset_type
                         (indexPos_of bytes + pointer_value bytes x)) i).
    rewrite (nth_error_nth' _ 0%nat) by (rewrite length_seq; exact Hi).
    now rewrite seq_nth. }
  split; [rewrite length_map, length_seq; lia|].
  split; [exact Helt|]. split.
  - intros i Hi Hsmall. rewrite (Helt i Hi). f_equal.
    unfold to_offset_type. apply Z.mod_small.
    pose proof (fromLittleEndian_range 8
      (skipn 0x10 (firstn (Z.to_nat headerSize) bytes))) as Hpos.
    fold (header_field 8 0x10 bytes) in Hpos. fold indexPos_of in Hpos.
    pose proof (fromLittleEndian_range 4
      (element_ptr (pointer_buffer bytes) i)) as Hptr.
    fold (pointer_value bytes i) in Hptr. lia.
  - intros i Hi Hfile Hread Hthere.
    pose proof (fromLittleEndian_range 8
      (skipn 0x20 (firstn (Z.to_nat headerSize) bytes))) as Hp.
    fold (header_field 8 0x20 bytes) in Hp. fold indexPtrPos_of in Hp.
    unfold pointer_value, stored_pointer, pointer_buffer.
    rewrite (read_enough headerSize bytes 0 0)
      by (unfold headerSize in *; lia).
    cbn [snd]. unfold seekg. cbn [failbit content gcount].
    replace (indexPtrPos_of bytes <? 2 ^ 63) with true
      by (symmetry; apply Z.ltb_lt; lia).
    replace (0 <=? indexPtrPos_of bytes) with true
      by (symmetry; apply Z.leb_le; lia).
    cbn [andb].
    rewrite read_good. cbv zeta. cbn [fst].
    unfold fromLittleEndian at 1. unfold fromLittleEndian.
    rewrite (fill_buffer_element (count_of bytes) bytes
               (Z.to_nat (indexPtrPos_of bytes))
               (Z.to_nat (indexPtrLen_of bytes)) i) by lia.
    reflexivity.
Qed.

Lemma offset_table_after_open_witness :
  let bytes := Sample.archive_bytes Sample.example_entries in
  let fs := Sample.one_file "sample.zeno" bytes in
  let f := Sample.opened Sample.example_entries in
  fs "sample.zeno"%string = Some bytes /\
  FileImpl_new fs "sample.zeno" = Ok f /\
  getCountArticles f = count_of bytes /\
  (forall i : nat, (i < Z.to_nat (count_of bytes))%nat ->
     nth_error (indexOffsets f) i =
     Some (to_offset_type (indexPos_of bytes + pointer_value bytes i))) /\
  (forall i : nat, (i < Z.to_nat (count_of bytes))%nat ->
     indexPos_of bytes + pointer_value bytes i < offset_type_mod ->
     nth_error (indexOffsets f) i =
     Some (indexPos_of bytes + pointer_value bytes i)) /\
  (forall i : nat, (i < Z.to_nat (count_of bytes))%nat ->
     Z.of_nat (length bytes) < 2 ^ 63 ->
     4 * (Z.of_nat i + 1) <= indexPtrLen_of bytes ->
     indexPtrPos_of bytes + 4 * (Z.of_nat i + 1) <= Z.of_nat (length bytes) ->
     pointer_value bytes i = stored_pointer bytes i).
Proof.
  intros bytes fs f.
  assert (Hfs : fs "sample.zeno"%string = Some bytes) by reflexivity.
  assert (Hopen : FileImpl_new fs "sample.zeno" = Ok f) by (vm_compute; reflexivity).
  split; [exact Hfs|]. split; [exact Hopen|].
  exact (offset_table_after_open fs "sample.zeno" bytes f Hfs Hopen).
Defined.

(** C3 (the code at a truncated pointer table): the header announces two
    pointers, eight bytes, at position 60 and the file ends after the
    first; the constructor does not throw but returns an object whose
    second offset comes from the zero-initialised buffer, with the stream
    left failed. *)
Theorem open_truncated_pointer_table :
  let bytes := Sample.truncated_table in
  let fs := Sample.one_file "truncated.zeno" bytes in
  Z.of_nat (length bytes) < indexPtrPos_of bytes + indexPtrLen_of bytes /\
  exists f, FileImpl_new fs "truncated.zeno" = Ok f /\
            indexOffsets f = [75; 68] /\
            failbit (zenoFile f) = true.
Proof.
  split; [vm_compute; reflexivity|].
  eexists. split; [vm_compute; reflexivity|]. split; reflexivity.
Qed.

(** ** Reading from a good stream *)

Lemma bind_Ret {A B} (c : M A) (k : A -> M B) (f f' : FileImpl) (a : A) :
  c f = Ret a f' -> bind c k f = k a f'.
Proof. intros E. unfold bind. now rewrite E. Qed.

Lemma bind_Throw {A B} (c : M A) (k : A -> M B) (f f' : FileImpl) (e : error) :
  c f = Throw e f' -> bind c k f = Throw e f'.
Proof. intros E. unfold bind. now rewrite E. Qed.

Lemma firstn_add_skipn {A} (a b : nat) (l : list A) :
  firstn (a + b) l = firstn a l ++ firstn b (skipn a l).
Proof.
  revert l. induction a as [|a IH]; intros [|x l]; cbn;
    try rewrite firstn_nil; try reflexivity.
  now rewrite IH.
Qed.

Section Reading.
Context {decls : ZenoDecls}.

(** With [count] more bytes in the file, the loop of [readDataNolock]
    delivers them and leaves the stream good behind them. *)
Lemma readDataNolock_loop_enough (bytes : list byte) (fuel : nat) :
  forall (count : Z) (data : list byte) (f : FileImpl) (pos g : Z),
    zenoFile f = mkStream bytes pos false g ->
    0 <= pos -> 0 <= count < size_type_mod ->
    pos + count <= Z.of_nat (length bytes) ->
    (Z.to_nat count <= fuel)%nat ->
    exists g',
      readDataNolock_loop fuel count data f =
      Ret (data ++ firstn (Z.to_nat count) (skipn (Z.to_nat pos) bytes))
          (set_zenoFile (mkStream bytes (pos + count) false g') f).
Proof.
  induction fuel as [|fuel IH]; intros count data f pos g Hs Hpos Hc Hlen Hfuel.
  - assert (count = 0) by lia. subst count. cbn.
    exists g. rewrite app_nil_r, Z.add_0_r, <- Hs. now destruct f.
  - cbn [readDataNolock_loop].
    destruct (Z.gtb_spec count 0) as [Hgt|Hle].
    + set (m := Z.min 256 count).
      assert (Hm : 0 < m <= count) by (unfold m; lia).
      unfold bind at 1. unfold zenoFile_read. rewrite Hs.
      rewrite (read_enough m bytes pos g) by lia.
      unfold bind at 1. unfold get at 1. cbn [zenoFile set_zenoFile failbit].
      unfold bind at 1. unfold get at 1. cbn [zenoFile set_zenoFile gcount].
      assert (Hw : to_size_type (count - m) = count - m).
      { unfold to_size_type. apply Z.mod_small. lia. }
      rewrite Hw.
      destruct (IH (count - m)
                  (data ++ firstn (Z.to_nat m)
                             (firstn (Z.to_nat m) (skipn (Z.to_nat pos) bytes)))
                  (set_zenoFile (mkStream bytes (pos + m) false m) f)
                  (pos + m) m eq_refl) as [g' E]; try lia.
      exists g'. rewrite E. f_equal.
      * rewrite <- app_assoc. f_equal.
        rewrite firstn_firstn, Nat.min_id.
        replace (Z.to_nat count) with (Z.to_nat m + Z.to_nat (count - m))%nat
          by lia.
        rewrite firstn_add_skipn, skipn_skipn. do 3 f_equal. lia.
      * unfold set_zenoFile. cbn. do 2 f_equal. lia.
    + assert (count = 0) by lia. subst count. cbn.
      exists g. rewrite app_nil_r, Z.add_0_r, <- Hs. now destruct f.
Qed.

Lemma zenoFile_seekg_good (f : FileImpl) (bytes : list byte) (pos g off : Z) :
  zenoFile f = mkStream bytes pos false g ->
  0 <= off < 2 ^ 63 ->
  zenoFile_seekg off f = Ret tt (set_zenoFile (mkStream bytes off false g) f).
Proof.
  intros Hs Hoff. unfold zenoFile_seekg, seekg. rewrite Hs. cbn [failbit].
  replace (off <? 2 ^ 63) with true by (symmetry; apply Z.ltb_lt; lia).
  replace (0 <=? off) with true by (symmetry; apply Z.leb_le; lia).
  reflexivity.
Qed.

Lemma zenoFile_read_enough (f : FileImpl) (bytes : list byte) (pos g n : Z) :
  zenoFile f = mkStream bytes pos false g ->
  0 <= pos -> 0 <= n -> pos + n <= Z.of_nat (length bytes) ->
  zenoFile_read n f =
  Ret (firstn (Z.to_nat n) (skipn (Z.to_nat pos) bytes))
      (set_zenoFile (mkStream bytes (pos + n) false n) f).
Proof.
  intros Hs Hp Hn Hlen. unfold zenoFile_read. rewrite Hs.
  now rewrite read_enough by assumption.
Qed.

Lemma same_archive_set_zenoFile (f : FileImpl) (s : ifstream) :
  content s = content (zenoFile f) -> failbit s = false ->
  same_archive f (set_zenoFile s f).
Proof. intros Hc Hf. repeat split; assumption. Qed.

(** Where the file holds an entry, [readDirentNolock] returns it and
    leaves the stream good. *)
Lemma readDirentNolock_ok (f : FileImpl) (off : Z) (d : Dirent) :
  failbit (zenoFile f) = false ->
  dirent_at (content (zenoFile f)) off = Some d ->
  exists f', readDirentNolock off f = Ret d f' /\ same_archive f f'.
Proof.
  intros Hgood Hat. unfold dirent_at in Hat.
  remember (content (zenoFile f)) as bytes eqn:Hbytes.
  destruct ((0 <=? off) && (off <? 2 ^ 63) &&
            (off + 26 <=? Z.of_nat (length bytes))) eqn:Hchk;
    [|discriminate].
  apply andb_prop in Hchk as [Hchk H26]. apply andb_prop in Hchk as [H0 H63].
  apply Z.leb_le in H0, H26. apply Z.ltb_lt in H63.
  set (dirent := Dirent_new (firstn 26 (skipn (Z.to_nat off) bytes))) in *.
  set (len := if getExtraLen dirent >? 0
              then to_size_type (getExtraLen dirent) else 0) in *.
  destruct (off + 26 + len <=? Z.of_nat (length bytes)) eqn:Hx; [|discriminate].
  apply Z.leb_le in Hx. injection Hat as Hd.
  assert (Hs : zenoFile f =
               mkStream bytes (gpos (zenoFile f)) false (gcount (zenoFile f))).
  { rewrite Hbytes, <- Hgood. now destruct (zenoFile f). }
  set (f1 := set_zenoFile (mkStream bytes off false (gcount (zenoFile f))) f).
  set (f2 := set_zenoFile (mkStream bytes (off + 26) false 26) f).
  assert (E1 : zenoFile_seekg off f = Ret tt f1)
    by (apply (zenoFile_seekg_good f bytes (gpos (zenoFile f))); [exact Hs | lia]).
  assert (E2 : zenoFile_read 26 f1 =
               Ret (firstn 26 (skipn (Z.to_nat off) bytes)) f2).
  { unfold f1. erewrite zenoFile_read_enough; [reflexivity|reflexivity|lia..]. }
  unfold readDirentNolock, readDirentNolock_here.
  rewrite (bind_Ret _ _ _ _ _ E1), (bind_Ret _ _ _ _ _ E2).
  unfold bind at 1. unfold get at 1. unfold bind at 1. unfold get at 1.
  unfold f2 at 1 2. cbn [zenoFile set_zenoFile failbit gcount orb].
  cbn [Z.eqb Pos.eqb negb]. fold f2. fold dirent.
  assert (Hlen0 : 0 <= len < size_type_mod).
  { unfold len. destruct (getExtraLen dirent >? 0).
    - unfold to_size_type. apply Z.mod_pos_bound. reflexivity.
    - unfold size_type_mod. lia. }
  destruct (getExtraLen dirent >? 0) eqn:Hextra.
  - fold len. unfold readDataNolock.
    destruct (readDataNolock_loop_enough bytes (Z.to_nat len) len [] f2
                (off + 26) 26 eq_refl) as [g' E]; try lia.
    rewrite (bind_Ret _ _ _ _ _ E). unfold ret. cbn [app].
    eexists. split; [now rewrite Hd|].
    unfold f2. unfold set_zenoFile at 1. cbn [filename indexOffsets namespaces
                                              set_zenoFile].
    repeat split. cbn. now rewrite Hbytes.
  - unfold bind, ret. eexists. split.
    + rewrite <- Hd. unfold len. cbn [Z.to_nat firstn]. reflexivity.
    + apply same_archive_set_zenoFile; cbn; [now rewrite Hbytes | reflexivity].
Qed.

End Reading.

(** ** The entries of an archive *)

Lemma same_archive_refl (f : FileImpl) :
  failbit (zenoFile f) = false -> same_archive f f.
Proof. intros H. repeat split. exact H. Qed.

Lemma same_archive_trans (f1 f2 f3 : FileImpl) :
  same_archive f1 f2 -> same_archive f2 f3 -> same_archive f1 f3.
Proof.
  intros (A1 & A2 & A3 & A4 & A5) (B1 & B2 & B3 & B4 & B5).
  repeat split; congruence.
Qed.

Lemma same_archive_count (f f' : FileImpl) :
  same_archive f f' -> getCountArticles f' = getCountArticles f.
Proof. intros (A1 & _). unfold getCountArticles. now rewrite A1. Qed.

Section Entries.
Context {decls : ZenoDecls}.

Lemma entries_good (f : FileImpl) (es : list Dirent) :
  entries f = Some es -> failbit (zenoFile f) = false.
Proof. unfold entries. now destruct (failbit (zenoFile f)). Qed.

Lemma entries_same_archive (f f' : FileImpl) (es : list Dirent) :
  entries f = Some es -> same_archive f f' -> entries f' = Some es.
Proof.
  intros He (A1 & _ & _ & A4 & A5). pose proof (entries_good _ _ He) as Hg.
  unfold entries in *. rewrite Hg in He. now rewrite A5, A4, A1.
Qed.

Lemma dirents_at_nth (bytes : list byte) (offsets : list Z) :
  forall (es : list Dirent) (i : nat) (off : Z),
    dirents_at bytes offsets = Some es ->
    nth_error offsets i = Some off ->
    exists d, nth_error es i = Some d /\ dirent_at bytes off = Some d.
Proof.
  induction offsets as [|o offsets IH]; intros es i off Hes Hi.
  - destruct i; discriminate.
  - cbn [dirents_at] in Hes.
    destruct (dirent_at bytes o) as [d|] eqn:Hd; [|discriminate].
    destruct (dirents_at bytes offsets) as [ds|]; [|discriminate].
    injection Hes as Hes. subst es. destruct i as [|i].
    + injection Hi as Hi. subst o. exists d. now split.
    + cbn in Hi. cbn [nth_error]. now apply IH.
Qed.

Lemma dirents_at_length (bytes : list byte) (offsets : list Z) :
  forall es, dirents_at bytes offsets = Some es -> length es = length offsets.
Proof.
  induction offsets as [|o offsets IH]; intros es Hes; cbn [dirents_at] in Hes.
  - now injection Hes as <-.
  - destruct (dirent_at bytes o); [|discriminate].
    destruct (dirents_at bytes offsets) as [ds|]; [|discriminate].
    injection Hes as <-. cbn. now rewrite (IH ds).
Qed.

Lemma entries_count (f : FileImpl) (es : list Dirent) :
  entries f = Some es -> getCountArticles f = Z.of_nat (length es).
Proof.
  intros He. pose proof (entries_good _ _ He) as Hg.
  unfold entries in He. rewrite Hg in He.
  unfold getCountArticles. now rewrite (dirents_at_length _ _ _ He).
Qed.

Lemma namespace_at_nth_error (es : list Dirent) (i : Z) (d : Dirent) :
  nth_error es (Z.to_nat i) = Some d -> namespace_at es i = getNamespace d.
Proof.
  intros H. unfold namespace_at.
  apply (nth_error_nth (map getNamespace es) (Z.to_nat i) 0).
  now apply map_nth_error.
Qed.

(** Reading the entry of an index below the count, without the check. *)
Lemma readDirentNolock_entry (f : FileImpl) (es : list Dirent) (i : Z) :
  entries f = Some es ->
  0 <= i < Z.of_nat (length es) ->
  exists d f',
    nth_error es (Z.to_nat i) = Some d /\
    readDirentNolock (vector_at (indexOffsets f) i) f = Ret d f' /\
    same_archive f f'.
Proof.
  intros He Hi. pose proof (entries_good _ _ He) as Hg.
  pose proof He as He'. unfold entries in He'. rewrite Hg in He'.
  pose proof (dirents_at_length _ _ _ He') as Hlen.
  destruct (dirents_at_nth _ _ es (Z.to_nat i)
              (vector_at (indexOffsets f) i) He') as (d & Hd & Hat).
  { unfold vector_at. apply nth_error_nth'. lia. }
  destruct (readDirentNolock_ok f _ d Hg Hat) as (f' & Hr & Hsame).
  exists d, f'. split; [exact Hd|]. split; [exact Hr | exact Hsame].
Qed.

Lemma getDirent_ok (f : FileImpl) (es : list Dirent) (i : Z) :
  entries f = Some es ->
  0 <= i < Z.of_nat (length es) ->
  exists d f',
    nth_error es (Z.to_nat i) = Some d /\
    getDirent i f = Ret d f' /\
    same_archive f f'.
Proof.
  intros He Hi.
  destruct (readDirentNolock_entry f es i He Hi) as (d & f' & Hd & Hr & Hs).
  exists d, f'. split; [exact Hd|]. split; [|exact Hs].
  unfold getDirent. unfold bind at 1. unfold get at 1.
  rewrite (entries_count _ _ He).
  replace (i >=? Z.of_nat (length es)) with false
    by (symmetry; rewrite Z.geb_leb; apply Z.leb_gt; lia).
  unfold bind, get. exact Hr.
Qed.

(** The namespaces of a sorted table do not decrease. *)
Lemma sorted_namespace_mono (es : list Dirent) :
  sorted es = true ->
  forall i j, 0 <= i -> i <= j -> j < Z.of_nat (length es) ->
    namespace_at es i <= namespace_at es j.
Proof.
  unfold namespace_at.
  induction es as [|d es IH]; intros Hs i j Hi Hij Hj; cbn [length] in Hj;
    [lia|].
  cbn [sorted] in Hs. apply andb_prop in Hs as [Hd Hs].
  destruct (Z.to_nat i) as [|i'] eqn:Ei.
  - destruct (Z.to_nat j) as [|j'] eqn:Ej; cbn [map nth]; [lia|].
    rewrite forallb_forall in Hd.
    assert (Hin : In (nth j' es d) es) by (apply nth_In; lia).
    specialize (Hd _ Hin). unfold key_leb in Hd.
    rewrite (nth_indep _ 0 (getNamespace d))
      by (rewrite length_map; lia).
    rewrite map_nth.
    apply orb_prop in Hd as [Hd|Hd].
    + apply Z.ltb_lt in Hd. lia.
    + apply andb_prop in Hd as [Hd _]. apply Z.eqb_eq in Hd. lia.
  - destruct (Z.to_nat j) as [|j'] eqn:Ej; [lia|]. cbn [map nth].
    specialize (IH Hs (Z.of_nat i') (Z.of_nat j')).
    rewrite !Nat2Z.id in IH. apply IH; lia.
Qed.

Lemma entries_set_namespaces (s : list Z) (f : FileImpl) :
  entries (set_namespaces s f) = entries f.
Proof. reflexivity. Qed.

Lemma sorted_namespaces_le (ds : list Dirent) :
  sorted ds = true -> StronglySorted Z.le (map getNamespace ds).
Proof.
  induction ds as [|d ds IH]; cbn [sorted map]; intros H; [constructor|].
  apply andb_prop in H as [Hd Hs]. constructor; [now apply IH|].
  rewrite Forall_forall. intros x Hx.
  apply in_map_iff in Hx as (d' & <- & Hd').
  rewrite forallb_forall in Hd. specialize (Hd d' Hd'). unfold key_leb in Hd.
  apply orb_prop in Hd as [Hd|Hd].
  - apply Z.ltb_lt in Hd. lia.
  - apply andb_prop in Hd as [Hd _]. apply Z.eqb_eq in Hd. lia.
Qed.

(** Once the namespaces are cached, [getNamespaces] returns the cache and
    changes nothing. *)
Lemma getNamespaces_cached (f : FileImpl) :
  namespaces f <> [] -> getNamespaces f = Ret (namespaces f) f.
Proof.
  intros H. unfold getNamespaces, bind, get, ret.
  destruct (namespaces f) as [|c s] eqn:E; [contradiction|].
  now rewrite E.
Qed.

End Entries.

(** ** The namespace runs *)

Lemma to_size_type_small (z : Z) :
  0 <= z < size_type_mod -> to_size_type z = z.
Proof. intros H. unfold to_size_type. now apply Z.mod_small. Qed.

Lemma midpoint_between (lower upper : Z) :
  1 < upper - lower ->
  lower < lower + (upper - lower) / 2 < upper.
Proof. intros H. Z.div_mod_to_equations. lia. Qed.

Section NamespaceRuns.
Context {decls : ZenoDecls}.
Variable es : list Dirent.
Hypothesis count_fits : Z.of_nat (length es) < size_type_mod.

(** One probe of a search loop: the midpoint lies strictly between the
    bounds, without wrap-around, and its entry is read. *)
Lemma probe_ok (f : FileImpl) (lower upper : Z) :
  entries f = Some es ->
  0 <= lower <= upper -> upper <= Z.of_nat (length es) ->
  (to_size_type (upper - lower) >? 1) = true ->
  let m := to_size_type (lower + to_size_type (upper - lower) / 2) in
  lower < m < upper /\
  exists d f', getDirent m f = Ret d f' /\ same_archive f f' /\
               getNamespace d = namespace_at es m.
Proof.
  intros He Hl Hu Hgt m.
  rewrite to_size_type_small in Hgt by lia. apply Z.gtb_lt in Hgt.
  assert (Hm : m = lower + (upper - lower) / 2).
  { unfold m. rewrite (to_size_type_small (upper - lower)) by lia.
    pose proof (midpoint_between lower upper ltac:(lia)).
    apply to_size_type_small. lia. }
  pose proof (midpoint_between lower upper ltac:(lia)) as Hmid.
  rewrite <- Hm in Hmid. split; [exact Hmid|].
  destruct (getDirent_ok f es m He ltac:(lia)) as (d & f' & Hd & Hr & Hs).
  exists d, f'. split; [exact Hr|]. split; [exact Hs|].
  symmetry. now apply namespace_at_nth_error.
Qed.

(** The loop of [getNamespaceEndOffset] ends with adjacent bounds that
    keep what the probes established: the lower bound is 0 or holds a
    namespace that is at most [ch], the upper bound is the count or holds a
    greater namespace. *)
Lemma getNamespaceEndOffset_loop_ok (ch : Z) (fuel : nat) :
  forall (lower upper : Z) (f : FileImpl),
    entries f = Some es ->
    0 <= lower < upper -> upper <= Z.of_nat (length es) ->
    (Z.to_nat (upper - lower) <= fuel)%nat ->
    (lower = 0 \/ namespace_at es lower <= ch) ->
    (upper = Z.of_nat (length es) \/ ch < namespace_at es upper) ->
    exists lower' f',
      getNamespaceEndOffset_loop fuel ch lower upper f =
      Ret (lower', lower' + 1) f' /\
      same_archive f f' /\
      0 <= lower' /\ lower' + 1 <= Z.of_nat (length es) /\
      (lower' = 0 \/ namespace_at es lower' <= ch) /\
      (lower' + 1 = Z.of_nat (length es) \/
       ch < namespace_at es (lower' + 1)).
Proof.
  induction fuel as [|fuel IH]; intros lower upper f He Hl Hu Hfuel Il Iu;
    [lia|].
  cbn [getNamespaceEndOffset_loop].
  destruct (to_size_type (upper - lower) >? 1) eqn:Hgt.
  - destruct (probe_ok f lower upper He ltac:(lia) Hu Hgt)
      as (Hm & d & f1 & Hr & Hs & Hns).
    set (m := to_size_type (lower + to_size_type (upper - lower) / 2)) in *.
    rewrite (bind_Ret _ _ _ _ _ Hr).
    pose proof (entries_same_archive _ _ _ He Hs) as He1.
    destruct (Z.gtb_spec (getNamespace d) ch) as [Hc|Hc].
    + destruct (IH lower m f1 He1 ltac:(lia) ltac:(lia) ltac:(lia) Il
                  ltac:(right; lia))
        as (l' & f' & E & Hs' & R).
      exists l', f'. split; [exact E|].
      split; [exact (same_archive_trans _ _ _ Hs Hs') | exact R].
    + destruct (IH m upper f1 He1 ltac:(lia) ltac:(lia) ltac:(lia)
                  ltac:(right; lia) Iu)
        as (l' & f' & E & Hs' & R).
      exists l', f'. split; [exact E|].
      split; [exact (same_archive_trans _ _ _ Hs Hs') | exact R].
  - rewrite to_size_type_small in Hgt by lia.
    assert (upper = lower + 1) by (destruct (Z.gtb_spec (upper - lower) 1); [discriminate | lia]).
    subst upper. exists lower, f. split; [reflexivity|].
    split; [apply same_archive_refl; exact (entries_good _ _ He)|].
    repeat split; try lia; assumption.
Qed.

(** The same for [getNamespaceBeginOffset]: the lower bound is 0 or holds
    a namespace below [ch], the upper bound is the count or holds a
    namespace that is at least [ch]. *)
Lemma getNamespaceBeginOffset_loop_ok (ch : Z) (fuel : nat) :
  forall (lower upper : Z) (f : FileImpl),
    entries f = Some es ->
    0 <= lower < upper -> upper <= Z.of_nat (length es) ->
    (Z.to_nat (upper - lower) <= fuel)%nat ->
    (lower = 0 \/ namespace_at es lower < ch) ->
    (upper = Z.of_nat (length es) \/ ch <= namespace_at es upper) ->
    exists lower' f',
      getNamespaceBeginOffset_loop fuel ch lower upper f =
      Ret (lower', lower' + 1) f' /\
      same_archive f f' /\
      0 <= lower' /\ lower' + 1 <= Z.of_nat (length es) /\
      (lower' = 0 \/ namespace_at es lower' < ch) /\
      (lower' + 1 = Z.of_nat (length es) \/
       ch <= namespace_at es (lower' + 1)).
Proof.
  induction fuel as [|fuel IH]; intros lower upper f He Hl Hu Hfuel Il Iu;
    [lia|].
  cbn [getNamespaceBeginOffset_loop].
  destruct (to_size_type (upper - lower) >? 1) eqn:Hgt.
  - destruct (probe_ok f lower upper He ltac:(lia) Hu Hgt)
      as (Hm & d & f1 & Hr & Hs & Hns).
    set (m := to_size_type (lower + to_size_type (upper - lower) / 2)) in *.
    rewrite (bind_Ret _ _ _ _ _ Hr).
    pose proof (entries_same_archive _ _ _ He Hs) as He1.
    rewrite Z.geb_leb.
    destruct (Z.leb_spec ch (getNamespace d)) as [Hc|Hc].
    + destruct (IH lower m f1 He1 ltac:(lia) ltac:(lia) ltac:(lia) Il
                  ltac:(right; lia))
        as (l' & f' & E & Hs' & R).
      exists l', f'. split; [exact E|].
      split; [exact (same_archive_trans _ _ _ Hs Hs') | exact R].
    + destruct (IH m upper f1 He1 ltac:(lia) ltac:(lia) ltac:(lia)
                  ltac:(right; lia) Iu)
        as (l' & f' & E & Hs' & R).
      exists l', f'. split; [exact E|].
      split; [exact (same_archive_trans _ _ _ Hs Hs') | exact R].
  - rewrite to_size_type_small in Hgt by lia.
    assert (upper = lower + 1) by (destruct (Z.gtb_spec (upper - lower) 1); [discriminate | lia]).
    subst upper. exists lower, f. split; [reflexivity|].
    split; [apply same_archive_refl; exact (entries_good _ _ He)|].
    repeat split; try lia; assumption.
Qed.

Hypothesis es_sorted : sorted es = true.

(** [getNamespaceEndOffset(ch)], for [ch] not below the first namespace:
    the number of entries whose namespace is at most [ch]. *)
Lemma getNamespaceEndOffset_ok (ch : Z) (f : FileImpl) :
  entries f = Some es ->
  0 < Z.of_nat (length es) ->
  namespace_at es 0 <= ch ->
  exists e f',
    getNamespaceEndOffset ch f = Ret e f' /\ same_archive f f' /\
    0 < e <= Z.of_nat (length es) /\
    (forall i, 0 <= i < Z.of_nat (length es) ->
               (i < e <-> namespace_at es i <= ch)).
Proof.
  intros He Hn H0. unfold getNamespaceEndOffset.
  unfold bind at 1. unfold get at 1. rewrite (entries_count _ _ He).
  destruct (getNamespaceEndOffset_loop_ok ch (Z.to_nat (Z.of_nat (length es)))
              0 (Z.of_nat (length es)) f He ltac:(lia) ltac:(lia) ltac:(lia)
              ltac:(now left) ltac:(now left))
    as (l' & f' & E & Hs & Hl0 & Hl1 & Il & Iu).
  rewrite (bind_Ret _ _ _ _ _ E). unfold ret.
  exists (l' + 1), f'. split; [reflexivity|]. split; [exact Hs|].
  split; [lia|]. intros i Hi.
  assert (Hlow : namespace_at es l' <= ch).
  { destruct Il as [->|Il]; assumption. }
  split; intros H.
  - pose proof (sorted_namespace_mono es es_sorted i l'
                  ltac:(lia) ltac:(lia) ltac:(lia)). lia.
  - destruct (Z.lt_ge_cases i (l' + 1)) as [Hlt|Hge]; [exact Hlt|].
    destruct Iu as [Iu|Iu]; [lia|].
    pose proof (sorted_namespace_mono es es_sorted (l' + 1) i
                  ltac:(lia) ltac:(lia) ltac:(lia)). lia.
Qed.

(** [getNamespaceBeginOffset(ch)]: the number of entries whose namespace
    is below [ch]. *)
Lemma getNamespaceBeginOffset_ok (ch : Z) (f : FileImpl) :
  entries f = Some es ->
  0 < Z.of_nat (length es) ->
  exists b f',
    getNamespaceBeginOffset ch f = Ret b f' /\ same_archive f f' /\
    0 <= b <= Z.of_nat (length es) /\
    (forall i, 0 <= i < Z.of_nat (length es) ->
               (i < b <-> namespace_at es i < ch)).
Proof.
  intros He Hn. unfold getNamespaceBeginOffset.
  unfold bind at 1. unfold get at 1. rewrite (entries_count _ _ He).
  destruct (getDirent_ok f es 0 He ltac:(lia)) as (d & f1 & Hd & Hr & Hs1).
  rewrite (bind_Ret _ _ _ _ _ Hr).
  pose proof (namespace_at_nth_error es 0 d Hd) as Hns.
  pose proof (entries_same_archive _ _ _ He Hs1) as He1.
  destruct (getNamespaceBeginOffset_loop_ok ch
              (Z.to_nat (Z.of_nat (length es)))
              0 (Z.of_nat (length es)) f1 He1 ltac:(lia) ltac:(lia) ltac:(lia)
              ltac:(now left) ltac:(now left))
    as (l' & f' & E & Hs & Hl0 & Hl1 & Il & Iu).
  rewrite (bind_Ret _ _ _ _ _ E). unfold ret. rewrite <- Hns.
  pose proof (same_archive_trans _ _ _ Hs1 Hs) as Hs'.
  destruct (Z.ltb_spec (namespace_at es 0) ch) as [Hc|Hc].
  - exists (l' + 1), f'. split; [reflexivity|]. split; [exact Hs'|].
    split; [lia|]. intros i Hi.
    assert (Hlow : namespace_at es l' < ch).
    { destruct Il as [->|Il]; assumption. }
    split; intros H.
    + pose proof (sorted_namespace_mono es es_sorted i l'
                    ltac:(lia) ltac:(lia) ltac:(lia)). lia.
    + destruct (Z.lt_ge_cases i (l' + 1)) as [Hlt|Hge]; [exact Hlt|].
      destruct Iu as [Iu|Iu]; [lia|].
      pose proof (sorted_namespace_mono es es_sorted (l' + 1) i
                    ltac:(lia) ltac:(lia) ltac:(lia)). lia.
  - assert (l' = 0).
    { destruct Il as [Il|Il]; [exact Il|].
      pose proof (sorted_namespace_mono es es_sorted 0 l'
                    ltac:(lia) ltac:(lia) ltac:(lia)). lia. }
    subst l'. exists 0, f'. split; [reflexivity|]. split; [exact Hs'|].
    split; [lia|]. intros i Hi.
    pose proof (sorted_namespace_mono es es_sorted 0 i
                  ltac:(lia) ltac:(lia) ltac:(lia)). lia.
Qed.

End NamespaceRuns.

Section NamespaceClaims.
Context {decls : ZenoDecls}.

Lemma In_namespace_at (es : list Dirent) (ch : Z) :
  In ch (map getNamespace es) <->
  exists k, 0 <= k < Z.of_nat (length es) /\ namespace_at es k = ch.
Proof.
  unfold namespace_at. split.
  - intros H. apply (In_nth _ _ 0) in H as (k & Hk & E).
    rewrite length_map in Hk. exists (Z.of_nat k).
    rewrite Nat2Z.id. split; [lia | exact E].
  - intros (k & Hk & E). rewrite <- E. apply nth_In.
    rewrite length_map. lia.
Qed.

(** C4: in an archive whose entries are sorted, for a namespace [ch] that
    some entry has, [getNamespaceBeginOffset(ch)] returns the first index
    whose namespace is [ch] and [getNamespaceEndOffset(ch)] one past the
    last: the indices from the one up to but not including the other are
    exactly those whose namespace is [ch]. *)
Theorem namespace_offsets_delimit_run (f : FileImpl) (es : list Dirent)
  (ch : Z) :
  entries f = Some es ->
  Z.of_nat (length es) < size_type_mod ->
  sorted es = true ->
  In ch (map getNamespace es) ->
  exists b e f1 f2,
    getNamespaceBeginOffset ch f = Ret b f1 /\
    getNamespaceEndOffset ch f = Ret e f2 /\
    0 <= b < e /\ e <= Z.of_nat (length es) /\
    namespace_at es b = ch /\ namespace_at es (e - 1) = ch /\
    (forall i, 0 <= i < Z.of_nat (length es) ->
               (b <= i < e <-> namespace_at es i = ch)).
Proof.
  intros He Hfit Hsorted Hin.
  apply In_namespace_at in Hin as (k & Hk & Hch).
  pose proof (sorted_namespace_mono es Hsorted 0 k
                ltac:(lia) ltac:(lia) ltac:(lia)) as H0.
  destruct (getNamespaceBeginOffset_ok es Hfit Hsorted ch f He ltac:(lia))
    as (b & f1 & Eb & _ & Hb & Pb).
  destruct (getNamespaceEndOffset_ok es Hfit Hsorted ch f He ltac:(lia)
              ltac:(lia))
    as (e & f2 & Ee & _ & Hee & Pe).
  exists b, e, f1, f2. split; [exact Eb|]. split; [exact Ee|].
  assert (Hrun : forall i, 0 <= i < Z.of_nat (length es) ->
                           (b <= i < e <-> namespace_at es i = ch)).
  { intros i Hi. specialize (Pb i Hi). specialize (Pe i Hi). lia. }
  pose proof (proj2 (Hrun k Hk) Hch) as Hbk.
  split; [lia|]. split; [lia|].
  split; [apply Hrun; lia|]. split; [apply Hrun; lia | exact Hrun].
Qed.

End NamespaceClaims.

(** ** First occurrences *)

Lemma first_occurrences_snoc (l : list Z) (c : Z) :
  first_occurrences (l ++ [c]) =
  if existsb (Z.eqb c) (first_occurrences l)
  then first_occurrences l else first_occurrences l ++ [c].
Proof. unfold first_occurrences. now rewrite fold_left_app. Qed.

Lemma existsb_eqb_In (c : Z) (l : list Z) :
  existsb (Z.eqb c) l = true <-> In c l.
Proof.
  rewrite existsb_exists. split.
  - intros (x & Hx & E). apply Z.eqb_eq in E. now subst x.
  - intros H. exists c. split; [exact H | apply Z.eqb_refl].
Qed.

Lemma In_first_occurrences (l : list Z) (c : Z) :
  In c (first_occurrences l) <-> In c l.
Proof.
  induction l as [|x l IH] using rev_ind; [reflexivity|].
  rewrite first_occurrences_snoc, in_app_iff.
  destruct (existsb (Z.eqb x) (first_occurrences l)) eqn:E.
  - apply existsb_eqb_In in E. cbn. rewrite IH in *.
    intuition (subst; auto).
  - rewrite in_app_iff, IH. reflexivity.
Qed.

Lemma NoDup_snoc {A} (l : list A) (c : A) :
  NoDup l -> ~ In c l -> NoDup (l ++ [c]).
Proof.
  induction l as [|x l IH]; intros Hnd Hc; cbn.
  - constructor; [intros [] | constructor].
  - inversion Hnd as [|? ? Hx Hl]; subst. constructor.
    + rewrite in_app_iff. cbn. intros [H|[H|[]]]; [contradiction|].
      subst. apply Hc. now left.
    + apply IH; [assumption|]. intros H. apply Hc. now right.
Qed.

Lemma NoDup_first_occurrences (l : list Z) : NoDup (first_occurrences l).
Proof.
  induction l as [|x l IH] using rev_ind; [constructor|].
  rewrite first_occurrences_snoc.
  destruct (existsb (Z.eqb x) (first_occurrences l)) eqn:E; [exact IH|].
  apply NoDup_snoc; [exact IH|]. rewrite <- existsb_eqb_In. now rewrite E.
Qed.

Lemma StronglySorted_snoc_inv (l : list Z) (c : Z) :
  StronglySorted Z.le (l ++ [c]) ->
  StronglySorted Z.le l /\ forall x, In x l -> x <= c.
Proof.
  induction l as [|y l IH]; cbn; intros H.
  - split; [constructor | intros x []].
  - inversion H as [|? ? Hs Hall]; subst. destruct (IH Hs) as [Hl Hc].
    rewrite Forall_forall in Hall. split.
    + constructor; [exact Hl|]. rewrite Forall_forall. intros x Hx.
      apply Hall. rewrite in_app_iff. now left.
    + intros x [->|Hx]; [|now apply Hc].
      apply Hall. rewrite in_app_iff. right. now left.
Qed.

Lemma StronglySorted_lt_snoc (l : list Z) (c : Z) :
  StronglySorted Z.lt l -> (forall x, In x l -> x < c) ->
  StronglySorted Z.lt (l ++ [c]).
Proof.
  induction l as [|y l IH]; cbn; intros Hs Hc.
  - constructor; [constructor | constructor].
  - inversion Hs as [|? ? Hl Hall]; subst. constructor.
    + apply IH; [exact Hl|]. intros x Hx. apply Hc. now right.
    + rewrite Forall_forall in *. intros x Hx.
      apply in_app_iff in Hx as [Hx|[<-|[]]]; [now apply Hall|].
      apply Hc. now left.
Qed.

(** The first occurrences in a list that does not decrease increase. *)
Lemma first_occurrences_increasing (l : list Z) :
  StronglySorted Z.le l -> StronglySorted Z.lt (first_occurrences l).
Proof.
  induction l as [|c l IH] using rev_ind; intros Hs; [constructor|].
  apply StronglySorted_snoc_inv in Hs as [Hl Hc].
  rewrite first_occurrences_snoc.
  destruct (existsb (Z.eqb c) (first_occurrences l)) eqn:E; [now apply IH|].
  apply StronglySorted_lt_snoc; [now apply IH|].
  intros x Hx.
  assert (x <> c).
  { intros ->. apply existsb_eqb_In in Hx. congruence. }
  apply (proj1 (In_first_occurrences l x)) in Hx. specialize (Hc x Hx). lia.
Qed.

Lemma firstn_S_snoc (l : list Z) (k : nat) :
  (k < length l)%nat -> firstn (S k) l = firstn k l ++ [nth k l 0].
Proof.
  revert k. induction l as [|x l IH]; intros k Hk; cbn in Hk; [lia|].
  destruct k as [|k]; [reflexivity|].
  cbn [firstn nth app]. f_equal. apply IH. lia.
Qed.

(** Entries that repeat an earlier element add no first occurrence. *)
Lemma first_occurrences_run (l : list Z) (j b : nat) :
  (j < b)%nat -> (b <= length l)%nat ->
  (forall i, (j < i)%nat -> (i < b)%nat -> nth i l 0 = nth j l 0) ->
  first_occurrences (firstn b l) = first_occurrences (firstn (S j) l).
Proof.
  induction b as [|b IH]; intros Hj Hb Hrun; [lia|].
  destruct (Nat.eq_dec b j) as [->|Hne]; [reflexivity|].
  rewrite firstn_S_snoc by lia. rewrite first_occurrences_snoc.
  assert (Hin : In (nth b l 0) (first_occurrences (firstn b l))).
  { apply In_first_occurrences. rewrite Hrun by lia.
    assert (E : nth j (firstn b l) 0 = nth j l 0).
    { rewrite nth_firstn.
      now replace (j <? b)%nat with true by (symmetry; apply Nat.ltb_lt; lia). }
    rewrite <- E. apply nth_In. rewrite length_firstn. lia. }
  apply existsb_eqb_In in Hin. rewrite Hin.
  apply IH; [lia | lia |]. intros i H1 H2. apply Hrun; lia.
Qed.

(** ** The namespaces of an archive *)

Section Namespaces.
Context {decls : ZenoDecls}.
Variable es : list Dirent.
Hypothesis count_fits : Z.of_nat (length es) < size_type_mod.
Hypothesis es_sorted : sorted es = true.

Lemma In_firstn_namespace (k : nat) (x : Z) :
  (k <= length es)%nat ->
  In x (firstn k (map getNamespace es)) ->
  exists i, 0 <= i < Z.of_nat k /\ namespace_at es i = x.
Proof.
  intros Hk Hx. apply (In_nth _ _ 0) in Hx as (i & Hi & E).
  rewrite length_firstn, length_map in Hi.
  rewrite nth_firstn in E.
  replace (i <? k)%nat with true in E by (symmetry; apply Nat.ltb_lt; lia).
  exists (Z.of_nat i). unfold namespace_at. rewrite Nat2Z.id.
  split; [lia | exact E].
Qed.

(** The namespaces collected up to a run are those of the table up to
    the end of the run. *)
Lemma namespaces_up_to_run_end (j e : Z) :
  0 <= j < e -> e <= Z.of_nat (length es) ->
  (forall i, 0 <= i < Z.of_nat (length es) ->
             (i < e <-> namespace_at es i <= namespace_at es j)) ->
  first_occurrences (firstn (Z.to_nat e) (map getNamespace es)) =
  first_occurrences (firstn (S (Z.to_nat j)) (map getNamespace es)).
Proof.
  intros Hj He Hrun.
  apply first_occurrences_run; [lia | rewrite length_map; lia |].
  intros i H1 H2.
  pose proof (proj1 (Hrun (Z.of_nat i) ltac:(lia)) ltac:(lia)) as Hle.
  pose proof (sorted_namespace_mono es es_sorted j (Z.of_nat i)
                ltac:(lia) ltac:(lia) ltac:(lia)) as Hge.
  unfold namespace_at in Hle, Hge. rewrite Nat2Z.id in Hle, Hge. lia.
Qed.

Lemma getNamespaces_loop_ok (fuel : nat) :
  forall (j : Z) (d : Dirent) (f : FileImpl),
    entries f = Some es ->
    0 <= j < Z.of_nat (length es) ->
    getNamespace d = namespace_at es j ->
    namespaces f =
    first_occurrences (firstn (S (Z.to_nat j)) (map getNamespace es)) ->
    (Z.to_nat (Z.of_nat (length es) - j) <= fuel)%nat ->
    exists f',
      getNamespaces_loop fuel d f = Ret tt f' /\
      entries f' = Some es /\
      namespaces f' = first_occurrences (map getNamespace es).
Proof.
  induction fuel as [|fuel IH]; intros j d f He Hj Hd Hns Hfuel; [lia|].
  cbn [getNamespaces_loop]. rewrite Hd.
  pose proof (sorted_namespace_mono es es_sorted 0 j
                ltac:(lia) ltac:(lia) ltac:(lia)) as H0.
  destruct (getNamespaceEndOffset_ok es count_fits es_sorted
              (namespace_at es j) f He ltac:(lia) H0)
    as (e & f1 & Ee & Hs1 & Hee & Pe).
  rewrite (bind_Ret _ _ _ _ _ Ee).
  pose proof (entries_same_archive _ _ _ He Hs1) as He1.
  unfold bind at 1. unfold get at 1. rewrite (entries_count _ _ He1).
  assert (Hje : j < e) by (apply (Pe j Hj); lia).
  pose proof (namespaces_up_to_run_end j e ltac:(lia) ltac:(lia) Pe) as Hrun.
  destruct (Z.ltb_spec e (Z.of_nat (length es))) as [Hlt|Hge].
  - destruct (getDirent_ok f1 es e He1 ltac:(lia))
      as (d' & f2 & Hd' & Hr & Hs2).
    rewrite (bind_Ret _ _ _ _ _ Hr).
    pose proof (namespace_at_nth_error es e d' Hd') as Hnse.
    unfold bind at 1. unfold get at 1.
    unfold bind at 1. unfold assign_namespaces at 1.
    apply IH with (j := e).
    + rewrite entries_set_namespaces.
      exact (entries_same_archive _ _ _ He1 Hs2).
    + lia.
    + symmetry. exact Hnse.
    + cbn [namespaces set_namespaces].
      destruct Hs1 as (_ & A2 & _). destruct Hs2 as (_ & B2 & _).
      rewrite B2, A2, Hns, <- Hrun, <- Hnse.
      rewrite (firstn_S_snoc (map getNamespace es) (Z.to_nat e))
        by (rewrite length_map; lia).
      rewrite first_occurrences_snoc.
      fold (namespace_at es e).
      destruct (existsb (Z.eqb (namespace_at es e))
                  (first_occurrences
                     (firstn (Z.to_nat e) (map getNamespace es)))) eqn:Ex;
        [|reflexivity].
      exfalso. apply existsb_eqb_In in Ex.
      apply (proj1 (In_first_occurrences _ _)) in Ex.
      apply In_firstn_namespace in Ex as (i & Hi & Ei); [|lia].
      pose proof (proj1 (Pe i ltac:(lia)) ltac:(lia)) as Hle.
      pose proof (proj2 (Pe e ltac:(lia))) as Hnot. lia.
    + lia.
  - assert (e = Z.of_nat (length es)) by lia. subst e.
    exists f1. split; [reflexivity|]. split; [exact He1|].
    destruct Hs1 as (_ & A2 & _). rewrite A2, Hns, <- Hrun.
    rewrite Nat2Z.id, <- (length_map getNamespace es). now rewrite firstn_all.
Qed.

(** The first call of [getNamespaces] on a non-empty sorted archive
    returns the namespaces in the order of their first occurrence and
    caches them. *)
Lemma getNamespaces_first_call (f : FileImpl) :
  entries f = Some es ->
  0 < Z.of_nat (length es) ->
  namespaces f = [] ->
  exists f',
    getNamespaces f = Ret (first_occurrences (map getNamespace es)) f' /\
    entries f' = Some es /\
    namespaces f' = first_occurrences (map getNamespace es).
Proof.
  intros He Hn Hempty. unfold getNamespaces.
  unfold bind at 1. unfold bind at 1. unfold get at 1. rewrite Hempty.
  destruct (getDirent_ok f es 0 He ltac:(lia)) as (d & f1 & Hd & Hr & Hs1).
  rewrite (bind_Ret _ _ _ _ _ Hr).
  pose proof (namespace_at_nth_error es 0 d Hd) as Hns0.
  unfold bind at 1. unfold assign_namespaces at 1.
  unfold bind at 1. unfold get at 1.
  set (f2 := set_namespaces [getNamespace d] f1).
  assert (He2 : entries f2 = Some es).
  { unfold f2. rewrite entries_set_namespaces.
    exact (entries_same_archive _ _ _ He Hs1). }
  rewrite (entries_count _ _ He2).
  destruct (getNamespaces_loop_ok (Z.to_nat (Z.of_nat (length es))) 0 d f2
              He2 ltac:(lia) ltac:(now symmetry))
    as (f' & E & He' & Hns').
  - cbn [namespaces set_namespaces f2 Z.to_nat].
    destruct es as [|d0 ds]; [cbn in Hn; lia|].
    cbn in Hd. injection Hd as ->. reflexivity.
  - lia.
  - rewrite E. unfold get. rewrite Hns'. exists f'. now repeat split.
Qed.

End Namespaces.

Section LookupClaims.
Context {decls : ZenoDecls}.

(** C5: on a non-empty archive whose entries are sorted, the first call of
    [getNamespaces] returns the namespaces of the table in the order of
    their first occurrence: every namespace of the table once and no
    other character, in ascending order; and every later call returns the
    same string. *)
Theorem getNamespaces_lists_namespaces (f : FileImpl) (es : list Dirent) :
  entries f = Some es ->
  Z.of_nat (length es) < size_type_mod ->
  sorted es = true ->
  es <> [] ->
  namespaces f = [] ->
  exists s f',
    getNamespaces f = Ret s f' /\
    s = first_occurrences (map getNamespace es) /\
    (forall c, In c s <-> In c (map getNamespace es)) /\
    NoDup s /\
    StronglySorted Z.lt s /\
    (forall f'', namespaces f'' = namespaces f' ->
                 getNamespaces f'' = Ret s f'').
Proof.
  intros He Hfit Hsorted Hne Hempty.
  assert (Hn : 0 < Z.of_nat (length es)) by (destruct es; [contradiction | cbn; lia]).
  destruct (getNamespaces_first_call es Hfit Hsorted f He Hn Hempty)
    as (f' & E & _ & Hcache).
  exists (first_occurrences (map getNamespace es)), f'.
  split; [exact E|]. split; [reflexivity|].
  split; [intros c; apply In_first_occurrences|].
  split; [apply NoDup_first_occurrences|].
  split; [apply first_occurrences_increasing, sorted_namespaces_le, Hsorted|].
  intros f'' Hsame. rewrite <- Hcache, <- Hsame.
  apply getNamespaces_cached. rewrite Hsame, Hcache.
  destruct es as [|d ds]; [contradiction|].
  intros Hnil.
  assert (Hin : In (getNamespace d) (first_occurrences (map getNamespace (d :: ds)))).
  { apply In_first_occurrences. now left. }
  rewrite Hnil in Hin. contradiction.
Qed.

(** What [readDataNolock] can throw. *)
Lemma readDataNolock_loop_thrown (fuel : nat) :
  forall (count : Z) (data : list byte) (f f' : FileImpl) (e : error),
    readDataNolock_loop fuel count data f = Throw e f' ->
    e = ZenoFileFormatError "format-error: error reading data".
Proof.
  induction fuel as [|fuel IH]; intros count data f f' e H;
    cbn [readDataNolock_loop] in H;
    destruct (count >? 0); try discriminate H.
  unfold bind at 1 in H. unfold zenoFile_read in H.
  destruct (read (Z.min 256 count) (zenoFile f)) as [got s].
  unfold bind at 1 in H. unfold get at 1 in H.
  destruct (failbit (zenoFile (set_zenoFile s f))).
  - unfold throw in H. now injection H as <- _.
  - unfold bind at 1 in H. unfold get at 1 in H. now apply IH in H.
Qed.

(** [readDirentNolock] does not throw the error of the index check. *)
Lemma readDirentNolock_not_out_of_range (off : Z) (f : FileImpl) :
  thrown (readDirentNolock off f) <> Some out_of_range.
Proof.
  unfold readDirentNolock, readDirentNolock_here.
  unfold bind at 1. unfold zenoFile_seekg.
  unfold bind at 1. unfold zenoFile_read.
  destruct (read 26 _) as [header s].
  unfold bind at 1. unfold get at 1. unfold bind at 1. unfold get at 1.
  destruct (failbit _ || negb (gcount _ =? 26)).
  - unfold bind, get, throw. cbn [thrown]. unfold index_header_msg, out_of_range.
    cbn [append]. discriminate.
  - unfold bind at 1.
    destruct (getExtraLen (Dirent_new header) >? 0).
    + unfold readDataNolock.
      destruct (readDataNolock_loop _ _ _ _) as [extra f1|e f1|] eqn:E;
        cbn [thrown]; try discriminate.
      apply readDataNolock_loop_thrown in E. subst e. discriminate.
    + cbn. discriminate.
Qed.

Lemma string_find_None (s : list Z) (c : Z) :
  string_find s c = None <-> ~ In c s.
Proof.
  induction s as [|x s IH]; cbn [string_find In]; [tauto|].
  destruct (Z.eqb_spec x c) as [->|Hne].
  - split; [discriminate | intros H; exfalso; apply H; now left].
  - destruct (string_find s c); cbn [option_map].
    + split; [discriminate|]. intros H. exfalso.
      assert (~ In c s) by tauto. apply IH in H0. discriminate.
    + split; [|reflexivity]. intros _ [H|H]; [contradiction|].
      now apply IH in H.
Qed.

(** C9: when the namespace of the key is not among the characters that
    [getNamespaces] returns, [findArticle] returns not found with the
    index 0, whatever the title and the comparison mode, and reads no
    entry. *)
Theorem findArticle_absent_namespace (f f' : FileImpl) (nss : list Z)
  (ns : Z) (title : QUnicodeString) (collate : bool) :
  getNamespaces f = Ret nss f' ->
  ~ In ns nss ->
  findArticle ns title collate f = Ret (false, 0) f'.
Proof.
  intros Hns Hnot. unfold findArticle.
  rewrite (bind_Ret _ _ _ _ _ Hns).
  apply string_find_None in Hnot. now rewrite Hnot.
Qed.

(** C10: on an archive without articles, whose namespace cache is
    therefore still empty, [getNamespaces] throws the error of an index
    out of range, raised by [getDirent(0)], and so does [findArticle]. *)
Theorem empty_archive_lookup_throws (f : FileImpl) :
  getCountArticles f = 0 ->
  namespaces f = [] ->
  getNamespaces f = Throw out_of_range f /\
  forall (ns : Z) (title : QUnicodeString) (collate : bool),
    findArticle ns title collate f = Throw out_of_range f.
Proof.
  intros Hcount Hcache.
  assert (E : getNamespaces f = Throw out_of_range f).
  { unfold getNamespaces. unfold bind at 1. unfold bind at 1. unfold get at 1.
    rewrite Hcache. unfold bind at 1. unfold getDirent.
    unfold bind at 1. unfold get at 1. rewrite Hcount. reflexivity. }
  split; [exact E|]. intros ns title collate.
  unfold findArticle. now rewrite (bind_Throw _ _ _ _ _ E).
Qed.

End LookupClaims.

(** The count of an object that the constructor returns fits
    [size_type]. *)
Lemma open_count_fits (fs : filesystem) (fname : string) (f : FileImpl) :
  FileImpl_new fs fname = Ok f -> getCountArticles f < size_type_mod.
Proof.
  intros Hopen. unfold FileImpl_new in Hopen.
  destruct (failbit (ifstream_open fs fname)); [discriminate|].
  destruct (read headerSize _) as [header s1].
  destruct (failbit s1 || _); [discriminate|].
  destruct (negb _); [discriminate|].
  destruct (negb _); [discriminate|].
  destruct (read _ _) as [got s3]. injection Hopen as <-.
  unfold getCountArticles. cbn [indexOffsets].
  rewrite fold_left_push_back, length_app, length_map, length_seq.
  simpl (length []).
  match goal with
  | |- context [Z.to_nat (fromLittleEndian 4 ?p)] =>
      pose proof (fromLittleEndian_range 4 p) as H
  end.
  change (256 ^ Z.of_nat 4) with size_type_mod in H. lia.
Qed.

(** The constructor leaves the namespace cache empty. *)
Lemma open_namespaces_empty (fs : filesystem) (fname : string)
  (f : FileImpl) :
  FileImpl_new fs fname = Ok f -> namespaces f = [].
Proof.
  unfold FileImpl_new.
  destruct (failbit (ifstream_open fs fname)); [discriminate|].
  destruct (read headerSize _) as [header s1].
  destruct (failbit s1 || _); [discriminate|].
  destruct (negb _); [discriminate|].
  destruct (negb _); [discriminate|].
  destruct (read _ _) as [got s3]. now intros [= <-].
Qed.

(** ** The search of [findArticle] *)

Lemma to_size_t_small (z : Z) :
  0 <= z < size_type_mod -> to_size_t z = z.
Proof.
  intros H. unfold to_size_t, offset_type_mod. unfold size_type_mod in H.
  apply Z.mod_small. lia.
Qed.

Section FindArticleLoop.
Context {decls : ZenoDecls}.
Variable es : list Dirent.
Hypothesis count_fits : Z.of_nat (length es) < size_type_mod.

Lemma entry_at_nth_error (i : Z) (d : Dirent) :
  nth_error es (Z.to_nat i) = Some d -> entry_at es i = d.
Proof. intros H. unfold entry_at. now apply nth_error_nth. Qed.

Lemma nth_error_entry_at (i : Z) :
  0 <= i < Z.of_nat (length es) ->
  nth_error es (Z.to_nat i) = Some (entry_at es i).
Proof. intros H. unfold entry_at. apply nth_error_nth'. lia. Qed.

Lemma namespace_at_entry_at (i : Z) :
  0 <= i < Z.of_nat (length es) ->
  namespace_at es i = getNamespace (entry_at es i).
Proof.
  intros H. apply namespace_at_nth_error. now apply nth_error_entry_at.
Qed.

(** The loop of [findArticle] returns an index whose probe compared equal,
    or ends with adjacent bounds: the lower one is 0 or holds a key that
    compared below the search key, the upper one is the count or holds a
    key that compared above it. *)
Lemma findArticle_loop_ok (ns : Z) (title : QUnicodeString) (collate : bool)
  (fuel : nat) :
  forall (l u : Z) (f : FileImpl),
    entries f = Some es ->
    0 <= l < u -> u <= Z.of_nat (length es) ->
    (Z.to_nat (u - l) <= fuel)%nat ->
    (l = 0 \/ 0 < probe_compare collate ns title (entry_at es l)) ->
    (u = Z.of_nat (length es) \/
     probe_compare collate ns title (entry_at es u) < 0) ->
    exists r f',
      findArticle_loop fuel ns title collate l u f = Ret r f' /\
      same_archive f f' /\
      match r with
      | inl (found, p) =>
          found = true /\ 0 <= p < Z.of_nat (length es) /\
          probe_compare collate ns title (entry_at es p) = 0
      | inr (l', u') =>
          u' = l' + 1 /\ 0 <= l' /\ u' <= Z.of_nat (length es) /\
          (l' = 0 \/ 0 < probe_compare collate ns title (entry_at es l')) /\
          (u' = Z.of_nat (length es) \/
           probe_compare collate ns title (entry_at es u') < 0)
      end.
Proof.
  induction fuel as [|fuel IH]; intros l u f He Hl Hu Hfuel Il Iu; [lia|].
  cbn [findArticle_loop].
  rewrite (to_size_t_small (u - l)) by lia.
  destruct (Z.gtb_spec (u - l) 1) as [Hgt|Hle].
  - pose proof (midpoint_between l u Hgt) as Hmid.
    rewrite (to_size_t_small (l + (u - l) / 2)) by lia.
    set (p := l + (u - l) / 2) in *.
    unfold bind at 1. unfold get at 1.
    destruct (readDirentNolock_entry f es p He ltac:(lia))
      as (d & f1 & Hd & Hr & Hs).
    rewrite (bind_Ret _ _ _ _ _ Hr).
    pose proof (entries_same_archive _ _ _ He Hs) as He1.
    apply entry_at_nth_error in Hd.
    change (if ns <? getNamespace d then -1
            else if ns >? getNamespace d then 1
            else compare_title collate title d)
      with (probe_compare collate ns title d).
    rewrite <- Hd.
    destruct (Z.ltb_spec (probe_compare collate ns title (entry_at es p)) 0)
      as [Hc|Hc].
    + destruct (IH l p f1 He1 ltac:(lia) ltac:(lia) ltac:(lia) Il
                  ltac:(now right))
        as (r & f' & E & Hs' & R).
      exists r, f'. split; [exact E|].
      split; [exact (same_archive_trans _ _ _ Hs Hs') | exact R].
    + destruct (Z.gtb_spec (probe_compare collate ns title (entry_at es p)) 0)
        as [Hc'|Hc'].
      * destruct (IH p u f1 He1 ltac:(lia) ltac:(lia) ltac:(lia)
                    ltac:(now right) Iu)
          as (r & f' & E & Hs' & R).
        exists r, f'. split; [exact E|].
        split; [exact (same_archive_trans _ _ _ Hs Hs') | exact R].
      * exists (inl (true, to_size_type p)), f1.
        split; [reflexivity|]. split; [exact Hs|].
        rewrite to_size_type_small by lia.
        split; [reflexivity|]. split; [lia|lia].
  - assert (u = l + 1) by lia. subst u.
    exists (inr (l, l + 1)), f. split; [reflexivity|].
    split; [apply same_archive_refl; exact (entries_good _ _ He)|].
    repeat split; try lia; assumption.
Qed.

End FindArticleLoop.

(** ** The order of the keys *)

Section KeyOrder.
Context {decls : ZenoDecls} {laws : CompareLaws}.

Lemma key_compare_neg (ns : Z) (title : QUnicodeString) (d : Dirent) :
  key_compare ns title d < 0 <->
  ns < getNamespace d \/
  (ns = getNamespace d /\ compare title (getTitle d) < 0).
Proof.
  unfold key_compare.
  destruct (Z.ltb_spec ns (getNamespace d)); [lia|].
  destruct (Z.gtb_spec ns (getNamespace d)); lia.
Qed.

Lemma key_compare_pos (ns : Z) (title : QUnicodeString) (d : Dirent) :
  0 < key_compare ns title d <->
  getNamespace d < ns \/
  (ns = getNamespace d /\ 0 < compare title (getTitle d)).
Proof.
  unfold key_compare.
  destruct (Z.ltb_spec ns (getNamespace d)); [lia|].
  destruct (Z.gtb_spec ns (getNamespace d)); lia.
Qed.

Lemma key_compare_zero (ns : Z) (title : QUnicodeString) (d : Dirent) :
  key_compare ns title d = 0 <->
  ns = getNamespace d /\ compare title (getTitle d) = 0.
Proof.
  unfold key_compare.
  destruct (Z.ltb_spec ns (getNamespace d)); [lia|].
  destruct (Z.gtb_spec ns (getNamespace d)); lia.
Qed.

(** An entry has the key exactly when its namespace and its title are
    those of the key. *)
Lemma has_key_iff (ns : Z) (title : QUnicodeString) (d : Dirent) :
  has_key ns title d = true <-> getNamespace d = ns /\ getTitle d = title.
Proof.
  unfold has_key. rewrite Z.eqb_eq, key_compare_zero, compare_eq.
  intuition congruence.
Qed.

Lemma key_leb_iff (d1 d2 : Dirent) :
  key_leb d1 d2 = true <->
  getNamespace d1 < getNamespace d2 \/
  (getNamespace d1 = getNamespace d2 /\
   compare (getTitle d1) (getTitle d2) <= 0).
Proof.
  unfold key_leb.
  rewrite orb_true_iff, andb_true_iff, Z.ltb_lt, Z.eqb_eq, Z.leb_le.
  reflexivity.
Qed.

(** A key below an entry is below every later entry. *)
Lemma key_below_mono (ns : Z) (title : QUnicodeString) (d1 d2 : Dirent) :
  key_leb d1 d2 = true ->
  key_compare ns title d1 < 0 -> key_compare ns title d2 < 0.
Proof.
  rewrite key_leb_iff, !key_compare_neg.
  intros [Hlt|[Heq Hle]] [Hns|[Hns Ht]]; try lia.
  right. split; [lia|].
  destruct (Z.eq_dec (compare (getTitle d1) (getTitle d2)) 0) as [E|E].
  - apply compare_eq in E. now rewrite <- E.
  - apply (compare_trans _ (getTitle d1)); [exact Ht | lia].
Qed.

(** A key above an entry is above every earlier entry. *)
Lemma key_above_mono (ns : Z) (title : QUnicodeString) (d1 d2 : Dirent) :
  key_leb d1 d2 = true ->
  0 < key_compare ns title d2 -> 0 < key_compare ns title d1.
Proof.
  rewrite key_leb_iff, !key_compare_pos.
  intros [Hlt|[Heq Hle]] [Hns|[Hns Ht]]; try lia.
  right. split; [lia|].
  destruct (Z.eq_dec (compare (getTitle d1) (getTitle d2)) 0) as [E|E].
  - apply compare_eq in E. now rewrite E.
  - apply compare_antisym. apply compare_antisym in Ht.
    apply (compare_trans _ (getTitle d2)); [lia | exact Ht].
Qed.

Lemma sorted_key_leb (es : list Dirent) :
  sorted es = true ->
  forall i j, 0 <= i -> i < j -> j < Z.of_nat (length es) ->
    key_leb (entry_at es i) (entry_at es j) = true.
Proof.
  unfold entry_at.
  induction es as [|d es IH]; intros Hs i j Hi Hij Hj; cbn [length] in Hj;
    [lia|].
  cbn [sorted] in Hs. apply andb_prop in Hs as [Hd Hs].
  destruct (Z.to_nat j) as [|j'] eqn:Ej; [lia|].
  destruct (Z.to_nat i) as [|i'] eqn:Ei; cbn [nth].
  - rewrite forallb_forall in Hd. apply Hd. apply nth_In. lia.
  - specialize (IH Hs (Z.of_nat i') (Z.of_nat j')).
    rewrite !Nat2Z.id in IH. apply IH; lia.
Qed.

(** The smallest index with a greater key is the index below which no
    key is greater and at which the key is greater. *)
Lemma first_greater_unique (ns : Z) (title : QUnicodeString)
  (es : list Dirent) :
  forall u,
    0 <= u <= Z.of_nat (length es) ->
    (forall i, 0 <= i < u -> 0 <= key_compare ns title (entry_at es i)) ->
    (u = Z.of_nat (length es) \/ key_compare ns title (entry_at es u) < 0) ->
    first_greater ns title es = u.
Proof.
  induction es as [|d es IH]; intros u Hu Hbelow Hat; cbn [length] in *.
  - cbn. lia.
  - cbn [first_greater].
    destruct (Z.ltb_spec (key_compare ns title d) 0) as [Hd|Hd].
    + destruct (Z.eq_dec u 0) as [->|Hne]; [reflexivity|].
      specialize (Hbelow 0 ltac:(lia)). unfold entry_at in Hbelow.
      cbn in Hbelow. lia.
    + assert (Hu0 : u <> 0).
      { intros ->. destruct Hat as [Hat|Hat]; [lia|].
        unfold entry_at in Hat. cbn in Hat. lia. }
      assert (Hshift : forall i, 0 <= i ->
                entry_at (d :: es) (i + 1) = entry_at es i).
      { intros i Hi. unfold entry_at.
        replace (Z.to_nat (i + 1)) with (S (Z.to_nat i)) by lia.
        reflexivity. }
      rewrite (IH (u - 1)); [lia | lia | |].
      * intros i Hi. rewrite <- Hshift by lia. apply Hbelow. lia.
      * destruct Hat as [Hat|Hat]; [left; lia|]. right.
        rewrite <- Hshift by lia. now replace (u - 1 + 1) with u by lia.
Qed.

End KeyOrder.

(** ** What [findArticle] returns *)

Lemma first_occurrences_nil (l : list Z) :
  first_occurrences l = [] -> l = [].
Proof.
  destruct l as [|c l]; [reflexivity|]. intros H.
  assert (Hin : In c (first_occurrences (c :: l)))
    by (apply In_first_occurrences; now left).
  rewrite H in Hin. contradiction.
Qed.

Section FindArticle.
Context {decls : ZenoDecls}.
Variable es : list Dirent.
Hypothesis count_fits : Z.of_nat (length es) < size_type_mod.
Hypothesis es_sorted : sorted es = true.

Lemma getNamespaces_any_call (f : FileImpl) :
  entries f = Some es ->
  0 < Z.of_nat (length es) ->
  cache_valid es f ->
  exists f',
    getNamespaces f = Ret (first_occurrences (map getNamespace es)) f' /\
    entries f' = Some es /\
    namespaces f' = first_occurrences (map getNamespace es).
Proof.
  intros He Hn [Hc|Hc].
  - now apply getNamespaces_first_call.
  - exists f. rewrite <- Hc. split; [|now split].
    apply getNamespaces_cached. rewrite Hc. intros H.
    apply first_occurrences_nil in H. destruct es; [cbn in Hn; lia|].
    discriminate H.
Qed.

(** [findArticle] for a namespace of the table, in either mode: it
    returns an index whose probe compared equal, or the loop ends with a
    candidate [l] and the answer depends on the title of [l] alone. *)
Lemma findArticle_run (ns : Z) (title : QUnicodeString) (collate : bool)
  (f : FileImpl) :
  entries f = Some es ->
  cache_valid es f ->
  In ns (map getNamespace es) ->
  exists r f',
    findArticle ns title collate f = Ret r f' /\
    entries f' = Some es /\
    ((exists p, r = (true, p) /\ 0 <= p < Z.of_nat (length es) /\
                probe_compare collate ns title (entry_at es p) = 0) \/
     (exists l,
        0 <= l < Z.of_nat (length es) /\
        (l = 0 \/ 0 < probe_compare collate ns title (entry_at es l)) /\
        (l + 1 = Z.of_nat (length es) \/
         probe_compare collate ns title (entry_at es (l + 1)) < 0) /\
        r = if compare_title collate title (entry_at es l) =? 0
            then (true, l) else (false, l + 1))).
Proof.
  intros He Hcache Hin.
  assert (Hn : 0 < Z.of_nat (length es)).
  { destruct es; [contradiction | cbn; lia]. }
  destruct (getNamespaces_any_call f He Hn Hcache) as (f1 & E1 & He1 & _).
  unfold findArticle. rewrite (bind_Ret _ _ _ _ _ E1).
  destruct (string_find (first_occurrences (map getNamespace es)) ns)
    eqn:Hfind.
  2:{ apply string_find_None in Hfind. exfalso. apply Hfind.
      now apply In_first_occurrences. }
  unfold bind at 1. unfold get at 1. rewrite (entries_count _ _ He1).
  destruct (findArticle_loop_ok es count_fits ns title collate
              (Z.to_nat (Z.of_nat (length es))) 0 (Z.of_nat (length es)) f1
              He1 ltac:(lia) ltac:(lia) ltac:(lia)
              ltac:(now left) ltac:(now left))
    as (r & f2 & E2 & Hs2 & R).
  rewrite (bind_Ret _ _ _ _ _ E2).
  pose proof (entries_same_archive _ _ _ He1 Hs2) as He2.
  destruct r as [[found p]|[l u]].
  - destruct R as (-> & Hp & Hc).
    exists (true, p), f2. split; [reflexivity|]. split; [exact He2|].
    left. exists p. now repeat split.
  - destruct R as (-> & Hl & Hu & Il & Iu).
    unfold bind at 1. unfold get at 1.
    destruct (readDirentNolock_entry f2 es l He2 ltac:(lia))
      as (d & f3 & Hd & Hr & Hs3).
    rewrite (bind_Ret _ _ _ _ _ Hr).
    apply (entry_at_nth_error es) in Hd. subst d.
    rewrite !to_size_type_small by lia.
    exists (if compare_title collate title (entry_at es l) =? 0
            then (true, l) else (false, l + 1)), f3.
    split; [now destruct (compare_title collate title (entry_at es l) =? 0)|].
    split; [exact (entries_same_archive _ _ _ He2 Hs3)|].
    right. exists l. repeat split; try lia; assumption.
Qed.

End FindArticle.

(** ** [findArticle] with exact comparison on a sorted archive *)

Section FindArticleExact.
Context {decls : ZenoDecls} {laws : CompareLaws}.
Variable es : list Dirent.
Hypothesis count_fits : Z.of_nat (length es) < size_type_mod.
Hypothesis es_sorted : sorted es = true.

Lemma key_below_later (ns : Z) (title : QUnicodeString) (i j : Z) :
  0 <= i <= j -> j < Z.of_nat (length es) ->
  key_compare ns title (entry_at es i) < 0 ->
  key_compare ns title (entry_at es j) < 0.
Proof.
  intros Hij Hj H. destruct (Z.eq_dec i j) as [->|Hne]; [exact H|].
  apply (key_below_mono ns title (entry_at es i)); [|exact H].
  apply sorted_key_leb; [exact es_sorted | lia..].
Qed.

Lemma key_above_earlier (ns : Z) (title : QUnicodeString) (i j : Z) :
  0 <= i <= j -> j < Z.of_nat (length es) ->
  0 < key_compare ns title (entry_at es j) ->
  0 < key_compare ns title (entry_at es i).
Proof.
  intros Hij Hj H. destruct (Z.eq_dec i j) as [->|Hne]; [exact H|].
  apply (key_above_mono ns title (entry_at es i) (entry_at es j)); [|exact H].
  apply sorted_key_leb; [exact es_sorted | lia..].
Qed.

(** A key that some entry has is found, at an entry that has it. *)
Theorem findArticle_exact_present (ns : Z) (title : QUnicodeString)
  (f : FileImpl) (k : Z) :
  entries f = Some es ->
  cache_valid es f ->
  0 <= k < Z.of_nat (length es) ->
  has_key ns title (entry_at es k) = true ->
  exists j f',
    findArticle ns title false f = Ret (true, j) f' /\
    0 <= j < Z.of_nat (length es) /\
    has_key ns title (entry_at es j) = true.
Proof.
  intros He Hcache Hk Hkey.
  assert (Hk0 : key_compare ns title (entry_at es k) = 0)
    by (now apply Z.eqb_eq).
  assert (Hin : In ns (map getNamespace es)).
  { apply In_namespace_at. exists k. split; [exact Hk|].
    rewrite (namespace_at_entry_at es k Hk).
    apply has_key_iff in Hkey. tauto. }
  destruct (findArticle_run es count_fits es_sorted ns title false f
              He Hcache Hin)
    as (r & f' & E & _ & [(p & -> & Hp & Hc)|(l & Hl & Il & Iu & ->)]).
  - exists p, f'. split; [exact E|]. split; [exact Hp|].
    apply Z.eqb_eq. exact Hc.
  - change (probe_compare false ns title) with (key_compare ns title) in *.
    assert (k = l).
    { destruct (Z.lt_trichotomy k l) as [Hlt|[Heq|Hgt]]; [|exact Heq|].
      - destruct Il as [Il|Il]; [lia|].
        pose proof (key_above_earlier ns title k l ltac:(lia) ltac:(lia) Il).
        lia.
      - destruct Iu as [Iu|Iu]; [lia|].
        pose proof (key_below_later ns title (l + 1) k
                      ltac:(lia) ltac:(lia) Iu).
        lia. }
    subst l. apply key_compare_zero in Hk0 as [_ Ht].
    unfold compare_title in E. rewrite Ht in E. cbn [Z.eqb] in E.
    exists k, f'. split; [exact E|]. split; [exact Hk | exact Hkey].
Qed.

(** A key that no entry has and that is above the first entry: the index
    returned with not found is the smallest index with a greater key;
    but where the entry before that index has the title of the key, it is
    returned as found. *)
Theorem findArticle_exact_absent_above (ns : Z) (title : QUnicodeString)
  (f : FileImpl) :
  entries f = Some es ->
  cache_valid es f ->
  In ns (map getNamespace es) ->
  forallb (fun d => negb (has_key ns title d)) es = true ->
  0 < key_compare ns title (entry_at es 0) ->
  exists r f',
    findArticle ns title false f = Ret r f' /\
    0 < first_greater ns title es /\
    r = if compare title
             (getTitle (entry_at es (first_greater ns title es - 1))) =? 0
        then (true, first_greater ns title es - 1)
        else (false, first_greater ns title es).
Proof.
  intros He Hcache Hin Hnone H0.
  rewrite forallb_forall in Hnone.
  assert (Hno : forall i, 0 <= i < Z.of_nat (length es) ->
                          key_compare ns title (entry_at es i) <> 0).
  { intros i Hi Hc.
    specialize (Hnone (entry_at es i)
                  ltac:(unfold entry_at; apply nth_In; lia)).
    unfold has_key in Hnone. rewrite Hc in Hnone. discriminate Hnone. }
  destruct (findArticle_run es count_fits es_sorted ns title false f
              He Hcache Hin)
    as (r & f' & E & _ & [(p & -> & Hp & Hc)|(l & Hl & Il & Iu & ->)]).
  - exfalso. exact (Hno p Hp Hc).
  - change (probe_compare false ns title) with (key_compare ns title) in *.
    assert (Habove : 0 < key_compare ns title (entry_at es l)).
    { destruct Il as [->|Il]; assumption. }
    assert (Hfg : first_greater ns title es = l + 1).
    { apply first_greater_unique; [lia | | exact Iu].
      intros i Hi.
      pose proof (key_above_earlier ns title i l ltac:(lia) ltac:(lia) Habove).
      lia. }
    rewrite Hfg. replace (l + 1 - 1) with l by lia.
    exists (if compare_title false title (entry_at es l) =? 0
            then (true, l) else (false, l + 1)), f'.
    split; [exact E|]. split; [lia | reflexivity].
Qed.

(** A key below the first entry: the smallest index with a greater key is
    0, and the index returned with not found is 1. *)
Theorem findArticle_exact_absent_below (ns : Z) (title : QUnicodeString)
  (f : FileImpl) :
  entries f = Some es ->
  cache_valid es f ->
  In ns (map getNamespace es) ->
  key_compare ns title (entry_at es 0) < 0 ->
  exists f',
    findArticle ns title false f = Ret (false, 1) f' /\
    first_greater ns title es = 0.
Proof.
  intros He Hcache Hin H0.
  assert (Hn : 0 < Z.of_nat (length es)).
  { destruct es; [contradiction | cbn; lia]. }
  assert (Hfg : first_greater ns title es = 0).
  { apply first_greater_unique; [lia | intros; lia | now right]. }
  destruct (findArticle_run es count_fits es_sorted ns title false f
              He Hcache Hin)
    as (r & f' & E & _ & [(p & -> & Hp & Hc)|(l & Hl & Il & Iu & ->)]).
  - exfalso.
    change (probe_compare false ns title) with (key_compare ns title) in *.
    pose proof (key_below_later ns title 0 p ltac:(lia) ltac:(lia) H0). lia.
  - change (probe_compare false ns title) with (key_compare ns title) in *.
    assert (l = 0).
    { destruct Il as [Il|Il]; [exact Il|].
      pose proof (key_below_later ns title 0 l ltac:(lia) ltac:(lia) H0).
      lia. }
    subst l. exists f'. split; [|exact Hfg].
    rewrite E. apply In_namespace_at in Hin as (k & Hk & Hch).
    pose proof (sorted_namespace_mono es es_sorted 0 k
                  ltac:(lia) ltac:(lia) ltac:(lia)) as Hmono.
    rewrite (namespace_at_entry_at es 0) in Hmono by lia.
    apply key_compare_neg in H0 as [Hlt|[_ Ht]]; [lia|].
    unfold compare_title.
    destruct (Z.eqb_spec (compare title (getTitle (entry_at es 0))) 0);
      [lia | reflexivity].
Qed.

End FindArticleExact.

(** ** Every call ends *)

(** The loops of the model are given as many iterations as the offset
    table has elements (as [count], for [readDataNolock]); this section
    shows that none of them needs more, whatever the file holds, so that
    [NoFuel] is the outcome of no call on an object whose count fits
    [size_type]. *)

Section Ends.
Context {decls : ZenoDecls}.

Lemma readDataNolock_loop_ends (fuel : nat) :
  forall (count : Z) (data : list byte) (f : FileImpl),
    (Z.to_nat count <= fuel)%nat ->
    readDataNolock_loop fuel count data f <> NoFuel.
Proof.
  induction fuel as [|fuel IH]; intros count data f Hfuel;
    cbn [readDataNolock_loop];
    destruct (Z.gtb_spec count 0) as [Hgt|Hle]; try (unfold ret; discriminate);
    [lia|].
  unfold bind at 1. unfold zenoFile_read.
  destruct (failbit (zenoFile f)) eqn:Hfail.
  - unfold read. rewrite Hfail. unfold bind, get, throw. cbn. discriminate.
  - unfold read. rewrite Hfail.
    set (got := firstn (Z.to_nat (Z.min 256 count))
                  (skipn (Z.to_nat (gpos (zenoFile f)))
                     (content (zenoFile f)))).
    unfold bind at 1. unfold get at 1. cbn [zenoFile set_zenoFile failbit].
    destruct (Z.ltb_spec (Z.of_nat (length got)) (Z.min 256 count))
      as [Hshort|Hfull]; [unfold throw; discriminate|].
    unfold bind at 1. unfold get at 1. cbn [zenoFile set_zenoFile gcount].
    apply IH. unfold to_size_type.
    assert (Hlen : Z.of_nat (length got) <= Z.min 256 count).
    { unfold got. rewrite length_firstn. lia. }
    pose proof (Z.mod_le (count - Z.of_nat (length got)) size_type_mod
                  ltac:(lia) ltac:(reflexivity)).
    lia.
Qed.

(** A call of the loop that returns found the bytes in the file. *)
Lemma readDataNolock_loop_Ret_inv (fuel : nat) :
  forall (count : Z) (data r : list byte) (f f' : FileImpl),
    readDataNolock_loop fuel count data f = Ret r f' ->
    0 <= count < size_type_mod ->
    0 <= gpos (zenoFile f) <= Z.of_nat (length (content (zenoFile f))) ->
    gpos (zenoFile f) + count <= Z.of_nat (length (content (zenoFile f))).
Proof.
  induction fuel as [|fuel IH]; intros count data r f f' H Hc Hpos;
    cbn [readDataNolock_loop] in H;
    destruct (Z.gtb_spec count 0) as [Hgt|Hle]; try lia;
    [discriminate H|].
  unfold bind at 1 in H. unfold zenoFile_read in H.
  destruct (failbit (zenoFile f)) eqn:Hfail.
  - unfold read in H. rewrite Hfail in H. unfold bind, get, throw in H.
    cbn in H. discriminate H.
  - unfold read in H. rewrite Hfail in H.
    set (got := firstn (Z.to_nat (Z.min 256 count))
                  (skipn (Z.to_nat (gpos (zenoFile f)))
                     (content (zenoFile f)))) in H.
    unfold bind at 1 in H. unfold get at 1 in H.
    cbn [zenoFile set_zenoFile failbit] in H.
    destruct (Z.ltb_spec (Z.of_nat (length got)) (Z.min 256 count))
      as [Hshort|Hfull]; [unfold throw in H; discriminate H|].
    unfold bind at 1 in H. unfold get at 1 in H.
    cbn [zenoFile set_zenoFile gcount] in H.
    assert (Hlen : Z.of_nat (length got) = Z.min 256 count).
    { assert (Z.of_nat (length got) <= Z.min 256 count)
        by (unfold got; rewrite length_firstn; lia).
      lia. }
    assert (Havail : gpos (zenoFile f) + Z.min 256 count
                     <= Z.of_nat (length (content (zenoFile f)))).
    { pose proof Hlen as Hlen'. unfold got in Hlen'.
      rewrite length_firstn, length_skipn in Hlen'. lia. }
    rewrite Hlen in H.
    rewrite to_size_type_small in H by lia.
    apply IH in H; cbn [set_zenoFile zenoFile content gpos] in *; lia.
Qed.

Lemma readDirentNolock_ends (off : Z) (f : FileImpl) :
  readDirentNolock off f <> NoFuel.
Proof.
  unfold readDirentNolock, readDirentNolock_here.
  unfold bind at 1. unfold zenoFile_seekg.
  unfold bind at 1. unfold zenoFile_read.
  destruct (read 26 _) as [header s].
  unfold bind at 1. unfold get at 1. unfold bind at 1. unfold get at 1.
  destruct (failbit _ || negb (gcount _ =? 26)).
  - unfold bind, get, throw. discriminate.
  - unfold bind at 1.
    destruct (getExtraLen (Dirent_new header) >? 0).
    + unfold readDataNolock.
      destruct (readDataNolock_loop _ _ _ _) eqn:E; try discriminate.
      exfalso. revert E. apply readDataNolock_loop_ends. lia.
    + cbn. discriminate.
Qed.

(** A read of an entry that returns returned the entry the file holds at
    the offset, from a good stream that it leaves good. *)
Lemma readDirentNolock_Ret_inv (off : Z) (f f' : FileImpl) (d : Dirent) :
  readDirentNolock off f = Ret d f' ->
  dirent_at (content (zenoFile f)) off = Some d /\ same_archive f f'.
Proof.
  intros H.
  assert (Hgood : failbit (zenoFile f) = false /\
                  exists d0, dirent_at (content (zenoFile f)) off = Some d0).
  { unfold readDirentNolock, readDirentNolock_here in H.
    unfold bind at 1 in H. unfold zenoFile_seekg, seekg in H.
    destruct (failbit (zenoFile f)) eqn:Hfail.
    - exfalso. unfold bind at 1 in H. unfold zenoFile_read, read in H.
      cbn [zenoFile set_zenoFile] in H. rewrite Hfail in H.
      unfold bind, get, throw in H. cbn in H. discriminate H.
    - split; [reflexivity|]. unfold dirent_at.
      destruct ((0 <=? off) && (off <? 2 ^ 63)) eqn:Hoff.
      + apply andb_prop in Hoff as [H0 H63].
        apply Z.leb_le in H0. apply Z.ltb_lt in H63.
        unfold bind at 1 in H. unfold zenoFile_read in H.
        cbn [zenoFile set_zenoFile] in H. rewrite read_good in H.
        cbv zeta in H.
        set (header := firstn (Z.to_nat 26)
                         (skipn (Z.to_nat off) (content (zenoFile f)))) in *.
        unfold bind at 1 in H. unfold get at 1 in H.
        unfold bind at 1 in H. unfold get at 1 in H.
        cbn [zenoFile set_zenoFile failbit gcount filename indexOffsets
             namespaces] in H.
        assert (Hle : Z.of_nat (length header) <= 26).
        { unfold header. rewrite length_firstn. lia. }
        destruct (Z.ltb_spec (Z.of_nat (length header)) 26) as [Hs|Hs];
          [cbn [orb] in H; unfold bind, get, throw in H; discriminate H|].
        assert (Hlen : Z.of_nat (length header) = 26) by lia.
        rewrite Hlen in H. cbn [orb Z.eqb Pos.eqb negb] in H.
        assert (H26 : off + 26 <= Z.of_nat (length (content (zenoFile f)))).
        { pose proof Hlen as Hlen'. unfold header in Hlen'.
          rewrite length_firstn, length_skipn in Hlen'. lia. }
        replace (off + 26 <=? Z.of_nat (length (content (zenoFile f))))
          with true by (symmetry; apply Z.leb_le; lia).
        cbn [andb].
        change (firstn 26 (skipn (Z.to_nat off) (content (zenoFile f))))
          with header.
        unfold bind at 1 in H.
        destruct (getExtraLen (Dirent_new header) >? 0) eqn:Hextra.
        * unfold readDataNolock in H.
          destruct (readDataNolock_loop _ _ _ _) as [extra f1| |] eqn:E;
            try discriminate H.
          apply readDataNolock_loop_Ret_inv in E;
            cbn [set_zenoFile zenoFile content gpos] in *.
          -- replace (off + 26 + to_size_type (getExtraLen (Dirent_new header))
                      <=? Z.of_nat (length (content (zenoFile f))))
               with true by (symmetry; apply Z.leb_le; lia).
             eexists. reflexivity.
          -- unfold to_size_type. apply Z.mod_pos_bound. reflexivity.
          -- lia.
        * replace (off + 26 + 0 <=?
                   Z.of_nat (length (content (zenoFile f))))
            with true by (symmetry; apply Z.leb_le; lia).
          eexists. reflexivity.
      + exfalso. unfold bind at 1 in H. unfold zenoFile_read, read in H.
        cbn [zenoFile set_zenoFile failbit] in H.
        unfold bind, get, throw in H. cbn in H. discriminate H. }
  destruct Hgood as (Hfail & d0 & Hat).
  destruct (readDirentNolock_ok f off d0 Hfail Hat) as (f0 & E & Hs).
  rewrite E in H. injection H as <- <-. now split.
Qed.

Lemma getDirent_ends (idx : Z) (f : FileImpl) : getDirent idx f <> NoFuel.
Proof.
  unfold getDirent. unfold bind at 1. unfold get at 1.
  destruct (idx >=? getCountArticles f); [unfold throw; discriminate|].
  unfold bind at 1. unfold get at 1. apply readDirentNolock_ends.
Qed.

Lemma getDirent_Ret_inv (idx : Z) (f f' : FileImpl) (d : Dirent) :
  getDirent idx f = Ret d f' ->
  dirent_at (content (zenoFile f)) (vector_at (indexOffsets f) idx) = Some d /\
  same_archive f f'.
Proof.
  unfold getDirent. unfold bind at 1. unfold get at 1.
  destruct (idx >=? getCountArticles f); [unfold throw; discriminate|].
  unfold bind at 1. unfold get at 1. apply readDirentNolock_Ret_inv.
Qed.

End Ends.

Lemma filter_length_bound {A} (p : A -> bool) (l : list A) :
  (length (filter p l) <= length l)%nat.
Proof.
  induction l as [|x l IH]; cbn; [lia|]. destruct (p x); cbn; lia.
Qed.

Lemma filter_length_le {A} (p q : A -> bool) (l : list A) :
  (forall y, p y = true -> q y = true) ->
  (length (filter p l) <= length (filter q l))%nat.
Proof.
  intros Hpq. induction l as [|x l IH]; cbn; [lia|].
  destruct (p x) eqn:Hp.
  - rewrite (Hpq x Hp). cbn. lia.
  - destruct (q x); cbn; lia.
Qed.

Lemma filter_length_lt {A} (p q : A -> bool) (l : list A) (x : A) :
  (forall y, p y = true -> q y = true) ->
  In x l -> q x = true -> p x = false ->
  (length (filter p l) < length (filter q l))%nat.
Proof.
  intros Hpq Hin Hq Hp. induction l as [|y l IH]; [contradiction|].
  cbn [filter]. destruct Hin as [->|Hin].
  - rewrite Hp, Hq. cbn. pose proof (filter_length_le p q l Hpq). lia.
  - specialize (IH Hin). destruct (p y) eqn:Hpy.
    + rewrite (Hpq y Hpy). cbn. lia.
    + destruct (q y); cbn; lia.
Qed.

Lemma stable_refl (f : FileImpl) : stable f f.
Proof. now split. Qed.

Lemma stable_trans (f1 f2 f3 : FileImpl) :
  stable f1 f2 -> stable f2 f3 -> stable f1 f3.
Proof. intros [A1 A2] [B1 B2]. split; congruence. Qed.

Lemma same_archive_stable (f f' : FileImpl) :
  same_archive f f' -> stable f f'.
Proof. intros (A1 & _ & _ & A4 & _). now split. Qed.

Lemma stable_count (f f' : FileImpl) :
  stable f f' -> getCountArticles f' = getCountArticles f.
Proof. intros [A1 _]. unfold getCountArticles. now rewrite A1. Qed.

Section LoopsEnd.
Context {decls : ZenoDecls}.

Lemma stable_count_above (f f' : FileImpl) (ch : Z) :
  stable f f' -> count_above f' ch = count_above f ch.
Proof. intros [A1 A2]. unfold count_above. now rewrite A1, A2. Qed.

(** The loop of [getNamespaceEndOffset] ends; when it returns, its upper
    bound is the count or an index at which it read a namespace above
    [ch]. *)
Lemma getNamespaceEndOffset_loop_outcome (ch : Z) (fuel : nat) :
  forall (lower upper : Z) (f : FileImpl),
    getCountArticles f < size_type_mod ->
    0 <= lower <= upper -> upper <= getCountArticles f ->
    (Z.to_nat (upper - lower) <= fuel)%nat ->
    (upper = getCountArticles f \/
     namespace_above (content (zenoFile f)) ch
       (vector_at (indexOffsets f) upper) = true) ->
    match getNamespaceEndOffset_loop fuel ch lower upper f with
    | Ret (_, u') f' =>
        stable f f' /\ 0 <= u' <= getCountArticles f /\
        (u' = getCountArticles f \/
         namespace_above (content (zenoFile f)) ch
           (vector_at (indexOffsets f) u') = true)
    | Throw _ _ => True
    | NoFuel => False
    end.
Proof.
  induction fuel as [|fuel IH]; intros lower upper f Hfit Hl Hu Hfuel Iu;
    cbn [getNamespaceEndOffset_loop];
    rewrite (to_size_type_small (upper - lower)) by lia;
    destruct (Z.gtb_spec (upper - lower) 1) as [Hgt|Hle];
    try (unfold ret; split; [apply stable_refl | split; [lia | exact Iu]]);
    [lia|].
  pose proof (midpoint_between lower upper Hgt) as Hmid.
  rewrite (to_size_type_small (lower + (upper - lower) / 2)) by lia.
  set (m := lower + (upper - lower) / 2) in *.
  unfold bind at 1.
  destruct (getDirent m f) as [d f1|e f1|] eqn:E; [|exact I|].
  2:{ exact (getDirent_ends m f E). }
  apply getDirent_Ret_inv in E as [Hat Hs].
  pose proof (same_archive_stable _ _ Hs) as Hst.
  pose proof Hst as [Hoffs Hcont].
  pose proof (stable_count _ _ Hst) as Hcnt.
  assert (Hstep : forall l' u',
            0 <= l' <= u' -> u' <= getCountArticles f ->
            (Z.to_nat (u' - l') <= fuel)%nat ->
            (u' = getCountArticles f \/
             namespace_above (content (zenoFile f)) ch
               (vector_at (indexOffsets f) u') = true) ->
            match getNamespaceEndOffset_loop fuel ch l' u' f1 with
            | Ret (_, u'') f' =>
                stable f f' /\ 0 <= u'' <= getCountArticles f /\
                (u'' = getCountArticles f \/
                 namespace_above (content (zenoFile f)) ch
                   (vector_at (indexOffsets f) u'') = true)
            | Throw _ _ => True
            | NoFuel => False
            end).
  { intros l' u' Hl' Hu' Hf' Iu'.
    specialize (IH l' u' f1). rewrite Hcnt, Hoffs, Hcont in IH.
    specialize (IH Hfit Hl' Hu' Hf' Iu').
    destruct (getNamespaceEndOffset_loop fuel ch l' u' f1)
      as [[l'' u''] f'|e f'|]; [|exact I|exact IH].
    destruct IH as (Hst' & R). split; [|exact R].
    exact (stable_trans _ _ _ Hst Hst'). }
  destruct (Z.gtb_spec (getNamespace d) ch) as [Hc|Hc].
  - apply Hstep; try lia. right. unfold namespace_above. rewrite Hat.
    now apply Z.gtb_lt.
  - apply Hstep; try lia. exact Iu.
Qed.

Lemma getNamespaceEndOffset_outcome (ch : Z) (f : FileImpl) :
  getCountArticles f < size_type_mod ->
  match getNamespaceEndOffset ch f with
  | Ret e f' =>
      stable f f' /\ 0 <= e <= getCountArticles f /\
      (e = getCountArticles f \/
       namespace_above (content (zenoFile f)) ch
         (vector_at (indexOffsets f) e) = true)
  | Throw _ _ => True
  | NoFuel => False
  end.
Proof.
  intros Hfit. unfold getNamespaceEndOffset.
  unfold bind at 1. unfold get at 1. unfold bind.
  pose proof (getNamespaceEndOffset_loop_outcome ch
                (Z.to_nat (getCountArticles f)) 0 (getCountArticles f) f Hfit)
    as H.
  assert (H0 : 0 <= getCountArticles f) by (unfold getCountArticles; lia).
  specialize (H ltac:(lia) ltac:(lia) ltac:(lia) ltac:(now left)).
  destruct (getNamespaceEndOffset_loop _ _ _ _ _) as [[l u] f'|e f'|];
    [exact H | exact I | exact H].
Qed.

Lemma getNamespaceBeginOffset_loop_ends (ch : Z) (fuel : nat) :
  forall (lower upper : Z) (f : FileImpl),
    0 <= lower <= upper -> upper < size_type_mod ->
    (Z.to_nat (upper - lower) <= fuel)%nat ->
    getNamespaceBeginOffset_loop fuel ch lower upper f <> NoFuel.
Proof.
  induction fuel as [|fuel IH]; intros lower upper f Hl Hu Hfuel;
    cbn [getNamespaceBeginOffset_loop];
    rewrite (to_size_type_small (upper - lower)) by lia;
    destruct (Z.gtb_spec (upper - lower) 1) as [Hgt|Hle];
    try (unfold ret; discriminate); [lia|].
  pose proof (midpoint_between lower upper Hgt) as Hmid.
  rewrite (to_size_type_small (lower + (upper - lower) / 2)) by lia.
  unfold bind.
  destruct (getDirent _ f) as [d f1|e f1|] eqn:E; [|discriminate|].
  2:{ exfalso. exact (getDirent_ends _ f E). }
  destruct (getNamespace d >=? ch); apply IH; lia.
Qed.

Lemma getNamespaceBeginOffset_ends (ch : Z) (f : FileImpl) :
  getCountArticles f < size_type_mod ->
  getNamespaceBeginOffset ch f <> NoFuel.
Proof.
  intros Hfit. unfold getNamespaceBeginOffset.
  unfold bind at 1. unfold get at 1. unfold bind at 1.
  destruct (getDirent 0 f) as [d f1|e f1|] eqn:E; [|discriminate|].
  2:{ exfalso. exact (getDirent_ends _ f E). }
  unfold bind.
  destruct (getNamespaceBeginOffset_loop _ _ _ _ _) as [[l u] f'|e f'|] eqn:E';
    try discriminate.
  assert (H0 : 0 <= getCountArticles f) by (unfold getCountArticles; lia).
  exfalso. revert E'. apply getNamespaceBeginOffset_loop_ends; lia.
Qed.

End LoopsEnd.

Section LookupsEnd.
Context {decls : ZenoDecls}.

(** Every iteration of the loop of [getNamespaces] goes on with an entry
    of a greater namespace, so the entries with a namespace above the
    current one bound the iterations that remain. *)
Lemma getNamespaces_loop_outcome (fuel : nat) :
  forall (d : Dirent) (f : FileImpl),
    getCountArticles f < size_type_mod ->
    (count_above f (getNamespace d) <= fuel)%nat ->
    match getNamespaces_loop fuel d f with
    | Ret _ f' => stable f f'
    | Throw _ _ => True
    | NoFuel => False
    end.
Proof.
  induction fuel as [|fuel IH]; intros d f Hfit Hfuel;
    cbn [getNamespaces_loop]; unfold bind at 1;
    pose proof (getNamespaceEndOffset_outcome (getNamespace d) f Hfit) as HE;
    destruct (getNamespaceEndOffset (getNamespace d) f) as [e f1|err f1|];
    try exact I; try exact HE;
    destruct HE as (Hst1 & He & Habove);
    unfold bind at 1; unfold get at 1; rewrite (stable_count _ _ Hst1);
    destruct (Z.ltb_spec e (getCountArticles f)) as [Hlt|Hge];
    try (unfold ret; exact Hst1);
    (destruct Habove as [Habove|Habove]; [lia|]);
    unfold namespace_above in Habove;
    destruct (dirent_at (content (zenoFile f)) (vector_at (indexOffsets f) e))
      as [de|] eqn:Hat; try discriminate Habove;
    apply Z.gtb_lt in Habove;
    assert (Hin : In (vector_at (indexOffsets f) e) (indexOffsets f))
      by (unfold vector_at; apply nth_In; unfold getCountArticles in Hlt; lia);
    assert (Hless : (count_above f (getNamespace de)
                     < count_above f (getNamespace d))%nat)
      by (unfold count_above;
          apply (filter_length_lt _ _ _ (vector_at (indexOffsets f) e));
          [ intros y; unfold namespace_above;
            destruct (dirent_at (content (zenoFile f)) y); [|discriminate];
            rewrite !Z.gtb_ltb, !Z.ltb_lt; lia
          | exact Hin
          | unfold namespace_above; rewrite Hat; apply Z.gtb_lt; lia
          | unfold namespace_above; rewrite Hat; rewrite Z.gtb_ltb;
            apply Z.ltb_irrefl ]);
    [lia|].
  unfold bind at 1.
  destruct (getDirent e f1) as [d' f2|err f2|] eqn:E; [|exact I|].
  2:{ exact (getDirent_ends _ _ E). }
  apply getDirent_Ret_inv in E as [Hat' Hs2].
  pose proof (same_archive_stable _ _ Hs2) as Hst2.
  destruct Hst1 as [Ho1 Hc1]. rewrite Ho1, Hc1, Hat in Hat'.
  injection Hat' as <-.
  unfold bind at 1. unfold get at 1.
  unfold bind at 1. unfold assign_namespaces at 1.
  set (f3 := set_namespaces (namespaces f2 ++ [getNamespace de]) f2).
  assert (Hst3 : stable f f3).
  { apply (stable_trans _ f1); [now split|].
    apply (stable_trans _ f2); [exact Hst2 | now split]. }
  specialize (IH de f3). rewrite (stable_count _ _ Hst3) in IH.
  rewrite (stable_count_above _ _ _ Hst3) in IH.
  specialize (IH Hfit ltac:(lia)).
  destruct (getNamespaces_loop fuel de f3) as [[] f'|err f'|];
    [|exact I|exact IH].
  exact (stable_trans _ _ _ Hst3 IH).
Qed.

Lemma getNamespaces_outcome (f : FileImpl) :
  getCountArticles f < size_type_mod ->
  match getNamespaces f with
  | Ret _ f' => stable f f'
  | Throw _ _ => True
  | NoFuel => False
  end.
Proof.
  intros Hfit. unfold getNamespaces.
  unfold bind at 1. unfold bind at 1. unfold get at 1.
  destruct (namespaces f) as [|c cached].
  2:{ unfold ret, bind, get. apply stable_refl. }
  unfold bind at 1.
  destruct (getDirent 0 f) as [d f1|err f1|] eqn:E; [|exact I|].
  2:{ exact (getDirent_ends _ _ E). }
  apply getDirent_Ret_inv in E as [_ Hs1].
  pose proof (same_archive_stable _ _ Hs1) as Hst1.
  unfold bind at 1. unfold assign_namespaces at 1.
  unfold bind at 1. unfold get at 1.
  set (f2 := set_namespaces [getNamespace d] f1).
  assert (Hst2 : stable f f2).
  { apply (stable_trans _ f1); [exact Hst1 | now split]. }
  rewrite (stable_count _ _ Hst2).
  pose proof (getNamespaces_loop_outcome (Z.to_nat (getCountArticles f))
                d f2) as H.
  rewrite (stable_count _ _ Hst2) in H. specialize (H Hfit).
  assert (Hbound : (count_above f2 (getNamespace d)
                    <= Z.to_nat (getCountArticles f))%nat).
  { rewrite (stable_count_above _ _ _ Hst2). unfold count_above.
    pose proof (filter_length_bound
                  (namespace_above (content (zenoFile f)) (getNamespace d))
                  (indexOffsets f)).
    unfold getCountArticles. lia. }
  specialize (H Hbound).
  destruct (getNamespaces_loop _ d f2) as [[] f'|err f'|];
    [|exact I|exact H].
  unfold get. exact (stable_trans _ _ _ Hst2 H).
Qed.

Lemma findArticle_loop_ends (ns : Z) (title : QUnicodeString)
  (collate : bool) (fuel : nat) :
  forall (l u : Z) (f : FileImpl),
    0 <= l <= u -> u < size_type_mod ->
    (Z.to_nat (u - l) <= fuel)%nat ->
    findArticle_loop fuel ns title collate l u f <> NoFuel.
Proof.
  induction fuel as [|fuel IH]; intros l u f Hl Hu Hfuel;
    cbn [findArticle_loop];
    rewrite (to_size_t_small (u - l)) by lia;
    destruct (Z.gtb_spec (u - l) 1) as [Hgt|Hle];
    try (unfold ret; discriminate); [lia|].
  pose proof (midpoint_between l u Hgt) as Hmid.
  rewrite (to_size_t_small (l + (u - l) / 2)) by lia.
  unfold bind at 1. unfold get at 1. unfold bind at 1.
  destruct (readDirentNolock _ f) as [d f1|e f1|] eqn:E; [|discriminate|].
  2:{ exfalso. exact (readDirentNolock_ends _ _ E). }
  repeat match goal with
         | |- context [if ?c then _ else _] => destruct c
         end;
    try (unfold ret; discriminate); apply IH; lia.
Qed.

(** On an object whose count fits [size_type] no call of the lookup
    functions runs out of iterations: each returns or throws. *)
Theorem lookups_end (f : FileImpl) :
  getCountArticles f < size_type_mod ->
  (forall idx, getDirent idx f <> NoFuel) /\
  (forall idx, getArticle idx f <> NoFuel) /\
  (forall ch, getNamespaceBeginOffset ch f <> NoFuel) /\
  (forall ch, getNamespaceEndOffset ch f <> NoFuel) /\
  getNamespaces f <> NoFuel /\
  (forall ns title collate, findArticle ns title collate f <> NoFuel).
Proof.
  intros Hfit.
  split; [intros idx; apply getDirent_ends|].
  split.
  { intros idx. unfold getArticle. unfold bind at 1. unfold get at 1.
    destruct (idx >=? getCountArticles f); [unfold throw; discriminate|].
    unfold bind at 1. unfold get at 1. unfold bind.
    destruct (readDirentNolock _ f) eqn:E; try discriminate.
    exfalso. exact (readDirentNolock_ends _ _ E). }
  split; [intros ch; now apply getNamespaceBeginOffset_ends|].
  split.
  { intros ch H. pose proof (getNamespaceEndOffset_outcome ch f Hfit) as HE.
    now rewrite H in HE. }
  assert (Hns : getNamespaces f <> NoFuel).
  { intros H. pose proof (getNamespaces_outcome f Hfit) as HE.
    now rewrite H in HE. }
  split; [exact Hns|].
  intros ns title collate. unfold findArticle. unfold bind at 1.
  pose proof (getNamespaces_outcome f Hfit) as HE.
  destruct (getNamespaces f) as [nss f1|e f1|]; [|discriminate|contradiction].
  destruct (string_find nss ns); [|unfold ret; discriminate].
  unfold bind at 1. unfold get at 1. rewrite (stable_count _ _ HE).
  assert (H0 : 0 <= getCountArticles f) by (unfold getCountArticles; lia).
  unfold bind at 1.
  destruct (findArticle_loop _ ns title collate 0 _ f1)
    as [[found|[l u]] f2|e f2|] eqn:E; try discriminate.
  - unfold bind at 1. unfold get at 1. unfold bind.
    destruct (readDirentNolock _ f2) as [d f3|e f3|] eqn:E'; try discriminate.
    + now destruct (compare_title collate title d =? 0).
    + exfalso. exact (readDirentNolock_ends _ _ E').
  - exfalso. revert E. apply findArticle_loop_ends; lia.
Qed.

End LookupsEnd.

(** ** The claims on sample archives *)

Lemma namespace_offsets_delimit_run_witness :
  let f := Sample.opened Sample.example_entries in
  let es := Sample.dirents Sample.example_entries in
  let ch := Sample.char "A" in
  entries f = Some es /\
  Z.of_nat (length es) < size_type_mod /\
  sorted es = true /\
  In ch (map getNamespace es) /\
  exists b e f1 f2,
    getNamespaceBeginOffset ch f = Ret b f1 /\
    getNamespaceEndOffset ch f = Ret e f2 /\
    0 <= b < e /\ e <= Z.of_nat (length es) /\
    namespace_at es b = ch /\ namespace_at es (e - 1) = ch /\
    (forall i, 0 <= i < Z.of_nat (length es) ->
               (b <= i < e <-> namespace_at es i = ch)).
Proof.
  intros f es ch.
  assert (H1 : entries f = Some es) by (vm_compute; reflexivity).
  assert (H2 : Z.of_nat (length es) < size_type_mod) by (vm_compute; reflexivity).
  assert (H3 : sorted es = true) by (vm_compute; reflexivity).
  assert (H4 : In ch (map getNamespace es)) by (vm_compute; left; reflexivity).
  repeat (split; [assumption|]).
  exact (namespace_offsets_delimit_run f es ch H1 H2 H3 H4).
Defined.

Lemma getNamespaces_lists_namespaces_witness :
  let f := Sample.opened Sample.example_entries in
  let es := Sample.dirents Sample.example_entries in
  entries f = Some es /\
  Z.of_nat (length es) < size_type_mod /\
  sorted es = true /\
  es <> [] /\
  namespaces f = [] /\
  exists s f',
    getNamespaces f = Ret s f' /\
    s = first_occurrences (map getNamespace es) /\
    (forall c, In c s <-> In c (map getNamespace es)) /\
    NoDup s /\
    StronglySorted Z.lt s /\
    (forall f'', namespaces f'' = namespaces f' ->
                 getNamespaces f'' = Ret s f'').
Proof.
  intros f es.
  assert (H1 : entries f = Some es) by (vm_compute; reflexivity).
  assert (H2 : Z.of_nat (length es) < size_type_mod) by (vm_compute; reflexivity).
  assert (H3 : sorted es = true) by (vm_compute; reflexivity).
  assert (H4 : es <> []) by (vm_compute; discriminate).
  assert (H5 : namespaces f = []) by (vm_compute; reflexivity).
  repeat (split; [assumption|]).
  exact (getNamespaces_lists_namespaces f es H1 H2 H3 H4 H5).
Defined.

(** On the archive of the example the namespaces are A and B. *)
Example getNamespaces_example :
  returned (getNamespaces (Sample.opened Sample.example_entries)) =
  Some [Sample.char "A"; Sample.char "B"].
Proof. vm_compute. reflexivity. Qed.

Lemma findArticle_absent_namespace_witness :
  let f := Sample.opened Sample.two_namespaces in
  let es := Sample.dirents Sample.two_namespaces in
  let ns := Sample.char "B" in
  let title := Sample.text "b" in
  exists nss f',
    getNamespaces f = Ret nss f' /\
    ~ In ns nss /\
    findArticle ns title false f = Ret (false, 0) f' /\
    first_greater ns title es = 1.
Proof.
  intros f es ns title.
  destruct (getNamespaces f) as [nss f'|e f'|] eqn:E.
  - assert (Hnss : nss = [Sample.char "A"; Sample.char "C"]).
    { vm_compute in E. now injection E as <- _. }
    assert (Hnot : ~ In ns nss).
    { rewrite Hnss. vm_compute. intros [H|[H|[]]]; discriminate H. }
    exists nss, f'. split; [reflexivity|]. split; [exact Hnot|].
    split; [|vm_compute; reflexivity].
    exact (findArticle_absent_namespace f f' nss ns title false E Hnot).
  - vm_compute in E. discriminate E.
  - vm_compute in E. discriminate E.
Defined.

Lemma empty_archive_lookup_throws_witness :
  let f := Sample.opened [] in
  Sample.open [] = Ok f /\
  getCountArticles f = 0 /\
  namespaces f = [] /\
  getNamespaces f = Throw out_of_range f /\
  forall (ns : Z) (title : QUnicodeString) (collate : bool),
    findArticle ns title collate f = Throw out_of_range f.
Proof.
  intros f.
  assert (H0 : Sample.open [] = Ok f) by (vm_compute; reflexivity).
  assert (H1 : getCountArticles f = 0) by (vm_compute; reflexivity).
  assert (H2 : namespaces f = []) by (vm_compute; reflexivity).
  repeat (split; [assumption|]).
  exact (empty_archive_lookup_throws f H1 H2).
Defined.

(** C1 (the code on the archive of the example): namespace B is present
    and the key (B, dog) is not; the loop ends with the candidate 2, the
    entry (A, dog), whose title alone is compared, and [findArticle]
    returns found at 2, in both comparison modes. *)
Theorem findArticle_matches_title_only :
  let f := Sample.opened Sample.example_entries in
  let es := Sample.dirents Sample.example_entries in
  let ns := Sample.char "B" in
  let title := Sample.text "dog" in
  Sample.open Sample.example_entries = Ok f /\
  entries f = Some es /\
  map (fun d => (getNamespace d, getTitle d)) es =
    [(Sample.char "A", Sample.text "bat"); (Sample.char "A", Sample.text "cat");
     (Sample.char "A", Sample.text "dog"); (Sample.char "B", Sample.text "eel")] /\
  sorted es = true /\
  returned (getNamespaces f) = Some [Sample.char "A"; Sample.char "B"] /\
  returned (findArticle ns title false f) = Some (true, 2) /\
  returned (findArticle ns title true f) = Some (true, 2) /\
  namespace_at es 2 = Sample.char "A" /\
  forallb (fun d => negb (has_key ns title d)) es = true.
Proof. repeat split; vm_compute; reflexivity. Qed.

(** C2 (the code on the archive of the example): namespace A is present
    and the key (A, ant) is below the first entry, so the smallest index
    with a greater key is 0; [findArticle] returns not found with the
    index 1. *)
Theorem findArticle_before_first_entry :
  let f := Sample.opened Sample.example_entries in
  let es := Sample.dirents Sample.example_entries in
  let ns := Sample.char "A" in
  let title := Sample.text "ant" in
  Sample.open Sample.example_entries = Ok f /\
  entries f = Some es /\
  map (fun d => (getNamespace d, getTitle d)) es =
    [(Sample.char "A", Sample.text "bat"); (Sample.char "A", Sample.text "cat");
     (Sample.char "A", Sample.text "dog"); (Sample.char "B", Sample.text "eel")] /\
  sorted es = true /\
  In ns (map getNamespace es) /\
  forallb (fun d => negb (has_key ns title d)) es = true /\
  first_greater ns title es = 0 /\
  returned (findArticle ns title false f) = Some (false, 1).
Proof.
  repeat split; try (vm_compute; reflexivity).
  vm_compute. left. reflexivity.
Qed.

(** Where the key is between two entries of the example the index
    returned is the insertion point, as in the examples of the
    specification. *)
Example findArticle_examples :
  let f := Sample.opened Sample.example_entries in
  let es := Sample.dirents Sample.example_entries in
  returned (findArticle (Sample.char "A") (Sample.text "cat") false f) =
    Some (true, 1) /\
  returned (findArticle (Sample.char "A") (Sample.text "cow") false f) =
    Some (false, 2) /\
  first_greater (Sample.char "A") (Sample.text "cow") es = 2 /\
  returned (getNamespaceEndOffset (Sample.char "A") f) = Some 3.
Proof. repeat split; vm_compute; reflexivity. Qed.

(** With collation the answer depends on the collating order: the sample
    one ignores case, so on an archive sorted exactly, with B before a, the
    key (A, A) is found at the entry (A, a), and the key (A, B), which the
    first entry has, is not found. *)
Example findArticle_collate_on_sample :
  let f := Sample.opened Sample.mixed_case in
  let es := Sample.dirents Sample.mixed_case in
  entries f = Some es /\ sorted es = true /\
  returned (findArticle (Sample.char "A") (Sample.text "A") true f) =
    Some (true, 1) /\
  has_key (Sample.char "A") (Sample.text "B") (entry_at es 0) = true /\
  returned (findArticle (Sample.char "A") (Sample.text "B") true f) =
    Some (false, 2) /\
  returned (findArticle (Sample.char "A") (Sample.text "B") false f) =
    Some (true, 0).
Proof. repeat split; vm_compute; reflexivity. Qed.

(** ** The sample comparison is an order *)

Lemma compare_values_eq (a : list Z) :
  forall b, Sample.compare_values a b = 0 <-> a = b.
Proof.
  induction a as [|x a IH]; intros [|y b]; cbn [Sample.compare_values];
    try (split; [lia | discriminate]); [tauto|].
  destruct (Z.ltb_spec x y); [split; [lia | intros [= -> _]; lia]|].
  destruct (Z.ltb_spec y x); [split; [lia | intros [= -> _]; lia]|].
  rewrite IH. assert (x = y) by lia. subst y.
  split; [now intros -> | now intros [= ->]].
Qed.

Lemma compare_values_antisym (a : list Z) :
  forall b, Sample.compare_values a b < 0 <-> 0 < Sample.compare_values b a.
Proof.
  induction a as [|x a IH]; intros [|y b]; cbn [Sample.compare_values];
    try lia.
  destruct (Z.ltb_spec x y); destruct (Z.ltb_spec y x); try lia.
  apply IH.
Qed.

Lemma compare_values_trans (a : list Z) :
  forall b c,
    Sample.compare_values a b < 0 -> Sample.compare_values b c < 0 ->
    Sample.compare_values a c < 0.
Proof.
  induction a as [|x a IH]; intros [|y b] [|z c];
    cbn [Sample.compare_values]; try lia.
  destruct (Z.ltb_spec x y); destruct (Z.ltb_spec y x);
    destruct (Z.ltb_spec y z); destruct (Z.ltb_spec z y);
    destruct (Z.ltb_spec x z); destruct (Z.ltb_spec z x); try lia.
  apply IH.
Qed.

Lemma byte_value_inj (a b : byte) : byte_value a = byte_value b -> a = b.
Proof.
  unfold byte_value. intros H. apply N2Z.inj in H.
  pose proof (Byte.of_to_N a) as Ha. rewrite H, Byte.of_to_N in Ha.
  now injection Ha.
Qed.

Lemma map_byte_value_inj (a : list byte) :
  forall b, map byte_value a = map byte_value b -> a = b.
Proof.
  induction a as [|x a IH]; intros [|y b] H; try discriminate H;
    [reflexivity|].
  cbn in H. injection H as Hx H. f_equal; [now apply byte_value_inj |
                                           now apply IH].
Qed.

(** The exact comparison of the sample instance satisfies the laws. *)
Lemma sample_compare_laws : @CompareLaws Sample.decls.
Proof.
  constructor; cbn [compare Sample.decls].
  - intros a b. rewrite compare_values_eq. split; [|now intros ->].
    apply map_byte_value_inj.
  - intros a b. apply compare_values_antisym.
  - intros a b c. apply compare_values_trans.
Qed.

(** The three cases of the exact search on the archive of the example:
    (A, cat) is found at an entry that has it; (A, cow) is not found and
    the index is the smallest one with a greater key; (A, ant) is not
    found and the index is 1 where the smallest one with a greater key is
    0. *)
Example findArticle_exact_on_example :
  let f := Sample.opened Sample.example_entries in
  let es := Sample.dirents Sample.example_entries in
  (exists j f',
     findArticle (Sample.char "A") (Sample.text "cat") false f =
     Ret (true, j) f' /\
     has_key (Sample.char "A") (Sample.text "cat") (entry_at es j) = true) /\
  (exists f',
     findArticle (Sample.char "A") (Sample.text "cow") false f =
     Ret (false, first_greater (Sample.char "A") (Sample.text "cow") es) f') /\
  (exists f',
     findArticle (Sample.char "A") (Sample.text "ant") false f =
     Ret (false, 1) f' /\
     first_greater (Sample.char "A") (Sample.text "ant") es = 0).
Proof.
  intros f es.
  assert (H1 : entries f = Some es) by (vm_compute; reflexivity).
  assert (H2 : Z.of_nat (length es) < size_type_mod) by (vm_compute; reflexivity).
  assert (H3 : sorted es = true) by (vm_compute; reflexivity).
  assert (H4 : cache_valid es f) by (left; vm_compute; reflexivity).
  assert (H5 : In (Sample.char "A") (map getNamespace es))
    by (vm_compute; left; reflexivity).
  split; [|split].
  - destruct (findArticle_exact_present (laws := sample_compare_laws)
                es H2 H3 (Sample.char "A") (Sample.text "cat") f 1 H1 H4
                ltac:(vm_compute; split; [discriminate | reflexivity])
                ltac:(vm_compute; reflexivity))
      as (j & f' & E & _ & Hkey).
    exists j, f'. now split.
  - destruct (findArticle_exact_absent_above (laws := sample_compare_laws)
                es H2 H3 (Sample.char "A") (Sample.text "cow") f H1 H4 H5
                ltac:(vm_compute; reflexivity) ltac:(vm_compute; reflexivity))
      as (r & f' & E & _ & Hr).
    exists f'. rewrite E, Hr. reflexivity.
  - exact (findArticle_exact_absent_below (laws := sample_compare_laws)
             es H2 H3 (Sample.char "A") (Sample.text "ant") f H1 H4 H5
             ltac:(vm_compute; reflexivity)).
Qed.

(** * Further properties *)

(** ** What the calls leave unchanged *)

Lemma same_table_refl (f : FileImpl) : same_table f f.
Proof. repeat split. auto. Qed.

Lemma same_table_trans (f1 f2 f3 : FileImpl) :
  same_table f1 f2 -> same_table f2 f3 -> same_table f1 f3.
Proof.
  intros (A1 & A2 & A3 & A4) (B1 & B2 & B3 & B4).
  repeat split; try congruence. auto.
Qed.

Lemma same_object_refl (f : FileImpl) : same_object f f.
Proof. split; [apply same_table_refl | reflexivity]. Qed.

Lemma same_object_trans (f1 f2 f3 : FileImpl) :
  same_object f1 f2 -> same_object f2 f3 -> same_object f1 f3.
Proof.
  intros [A1 A2] [B1 B2].
  split; [exact (same_table_trans _ _ _ A1 B1) | congruence].
Qed.

Lemma cache_extends_refl (f : FileImpl) : cache_extends f f.
Proof. exists []. now rewrite app_nil_r. Qed.

Lemma cache_extends_trans (f1 f2 f3 : FileImpl) :
  cache_extends f1 f2 -> cache_extends f2 f3 -> cache_extends f1 f3.
Proof.
  intros [l1 E1] [l2 E2]. exists (l1 ++ l2). now rewrite E2, E1, app_assoc.
Qed.

Lemma same_object_cache_extends (f f' : FileImpl) :
  same_object f f' -> cache_extends f f'.
Proof. intros [_ E]. exists []. now rewrite app_nil_r. Qed.

Section Preserves.
Variable R : FileImpl -> FileImpl -> Prop.
Hypothesis R_refl : forall f, R f f.
Hypothesis R_trans : forall f1 f2 f3, R f1 f2 -> R f2 f3 -> R f1 f3.

Lemma preserves_ret {A} (a : A) : preserves R (ret a).
Proof. intros f f' [= <-]. apply R_refl. Qed.

Lemma preserves_throw {A} (e : error) : preserves R (@throw A e).
Proof. intros f f' [= <-]. apply R_refl. Qed.

Lemma preserves_get {A} (field : FileImpl -> A) : preserves R (get field).
Proof. intros f f' [= <-]. apply R_refl. Qed.

Lemma preserves_out_of_fuel {A} : preserves R (@out_of_fuel A).
Proof. intros f f' H. discriminate H. Qed.

Lemma preserves_bind {A B} (c : M A) (k : A -> M B) :
  preserves R c -> (forall a, preserves R (k a)) -> preserves R (bind c k).
Proof.
  intros Hc Hk f f' H. unfold bind in H.
  destruct (c f) as [a f1|e f1|] eqn:E.
  - apply (R_trans _ f1); [apply Hc; now rewrite E | now apply (Hk a)].
  - injection H as <-. apply Hc. now rewrite E.
  - discriminate H.
Qed.

End Preserves.

Lemma preserves_weaken {A} (R R' : FileImpl -> FileImpl -> Prop) (c : M A) :
  (forall f f', R f f' -> R' f f') -> preserves R c -> preserves R' c.
Proof. intros H Hc f f' E. apply H. now apply Hc. Qed.

Lemma preserves_read (n : Z) : preserves same_object (zenoFile_read n).
Proof.
  intros f f' H. unfold zenoFile_read, read in H.
  destruct (failbit (zenoFile f)) eqn:Hfail; cbn in H; injection H as <-;
    repeat split; cbn; intros; congruence.
Qed.

Lemma seekg_content (pos : Z) (s : ifstream) :
  content (seekg pos s) = content s.
Proof.
  unfold seekg. destruct (failbit s); [reflexivity|].
  now destruct (_ && _).
Qed.

Lemma seekg_failed (pos : Z) (s : ifstream) :
  failbit s = true -> seekg pos s = s.
Proof. intros H. unfold seekg. now rewrite H. Qed.

Lemma read_content (n : Z) (s : ifstream) :
  content (snd (read n s)) = content s.
Proof. unfold read. now destruct (failbit s). Qed.

Lemma read_failed (n : Z) (s : ifstream) :
  failbit s = true ->
  read n s = ([], mkStream (content s) (gpos s) true 0).
Proof. intros H. unfold read. now rewrite H. Qed.

Lemma preserves_seekg (pos : Z) : preserves same_object (zenoFile_seekg pos).
Proof.
  intros f f' H. unfold zenoFile_seekg in H.
  cbn [final_state] in H. injection H as <-.
  repeat split; cbn [set_zenoFile indexOffsets filename zenoFile namespaces].
  - apply seekg_content.
  - intros Hfail. now rewrite seekg_failed.
Qed.

(** Steps of a proof that a function preserves a relation. *)
Ltac preserves_step :=
  first
    [ apply preserves_ret; [apply same_object_refl]
    | apply preserves_throw; [apply same_object_refl]
    | apply preserves_get; [apply same_object_refl]
    | apply preserves_out_of_fuel
    | apply preserves_read
    | apply preserves_seekg
    | apply preserves_bind; [apply same_object_trans | | intros ?]
    | match goal with
      | |- preserves _ (if ?c then _ else _) => destruct c
      | |- preserves _ (match ?x with _ => _ end) => destruct x
      end ].

Section Unchanged.
Context {decls : ZenoDecls}.

Lemma preserves_readDataNolock_loop (fuel : nat) :
  forall count data,
    preserves same_object (readDataNolock_loop fuel count data).
Proof.
  induction fuel as [|fuel IH]; intros count data;
    cbn [readDataNolock_loop]; repeat first [apply IH | preserves_step].
Qed.

Lemma preserves_readDirentNolock (off : Z) :
  preserves same_object (readDirentNolock off).
Proof.
  unfold readDirentNolock, readDirentNolock_here, readDataNolock.
  repeat first [apply preserves_readDataNolock_loop | preserves_step].
Qed.

Lemma preserves_readData (off count : Z) :
  preserves same_object (readData off count).
Proof.
  unfold readData, readDataNolock_at, readDataNolock.
  repeat first [apply preserves_readDataNolock_loop | preserves_step].
Qed.

Lemma preserves_getDirent (idx : Z) : preserves same_object (getDirent idx).
Proof.
  unfold getDirent.
  repeat first [apply preserves_readDirentNolock | preserves_step].
Qed.

Lemma preserves_getArticle (idx : Z) : preserves same_object (getArticle idx).
Proof.
  unfold getArticle.
  repeat first [apply preserves_readDirentNolock | preserves_step].
Qed.

Lemma preserves_getNamespaceBeginOffset_loop (fuel : nat) :
  forall ch lower upper,
    preserves same_object (getNamespaceBeginOffset_loop fuel ch lower upper).
Proof.
  induction fuel as [|fuel IH]; intros ch lower upper;
    cbn [getNamespaceBeginOffset_loop];
    repeat first [apply IH | apply preserves_getDirent | preserves_step].
Qed.

Lemma preserves_getNamespaceEndOffset_loop (fuel : nat) :
  forall ch lower upper,
    preserves same_object (getNamespaceEndOffset_loop fuel ch lower upper).
Proof.
  induction fuel as [|fuel IH]; intros ch lower upper;
    cbn [getNamespaceEndOffset_loop];
    repeat first [apply IH | apply preserves_getDirent | preserves_step].
Qed.

Lemma preserves_getNamespaceBeginOffset (ch : Z) :
  preserves same_object (getNamespaceBeginOffset ch).
Proof.
  unfold getNamespaceBeginOffset.
  repeat first [apply preserves_getDirent
               | apply preserves_getNamespaceBeginOffset_loop
               | preserves_step].
Qed.

Lemma preserves_getNamespaceEndOffset (ch : Z) :
  preserves same_object (getNamespaceEndOffset ch).
Proof.
  unfold getNamespaceEndOffset.
  repeat first [apply preserves_getNamespaceEndOffset_loop | preserves_step].
Qed.

Lemma preserves_findArticle_loop (ns : Z) (title : QUnicodeString)
  (collate : bool) (fuel : nat) :
  forall l u,
    preserves same_object (findArticle_loop fuel ns title collate l u).
Proof.
  induction fuel as [|fuel IH]; intros l u;
    cbn [findArticle_loop];
    repeat first [apply IH | apply preserves_readDirentNolock
                 | preserves_step].
Qed.

(** Along [getNamespaces] the table stays and the cache only grows. *)
Lemma table_and_cache_refl (f : FileImpl) :
  same_table f f /\ cache_extends f f.
Proof. split; [apply same_table_refl | apply cache_extends_refl]. Qed.

Lemma table_and_cache_trans (f1 f2 f3 : FileImpl) :
  same_table f1 f2 /\ cache_extends f1 f2 ->
  same_table f2 f3 /\ cache_extends f2 f3 ->
  same_table f1 f3 /\ cache_extends f1 f3.
Proof.
  intros [A1 A2] [B1 B2].
  split; [exact (same_table_trans _ _ _ A1 B1)
         | exact (cache_extends_trans _ _ _ A2 B2)].
Qed.

Lemma same_object_table_and_cache (f f' : FileImpl) :
  same_object f f' -> same_table f f' /\ cache_extends f f'.
Proof.
  intros H. split; [exact (proj1 H) | now apply same_object_cache_extends].
Qed.

Lemma preserves_append_namespace {A} (c : Z) (k : M A) :
  preserves (fun f f' => same_table f f' /\ cache_extends f f') k ->
  preserves (fun f f' => same_table f f' /\ cache_extends f f')
    (cached <- get namespaces ;; assign_namespaces (cached ++ [c]) ;;; k).
Proof.
  intros Hk f f' H.
  unfold bind at 1 in H. unfold get at 1 in H.
  unfold bind at 1 in H. unfold assign_namespaces at 1 in H.
  apply Hk in H.
  apply (table_and_cache_trans _ (set_namespaces (namespaces f ++ [c]) f));
    [|exact H].
  split; [repeat split; auto | now exists [c]].
Qed.

Lemma preserves_getNamespaces_loop (fuel : nat) :
  forall d,
    preserves (fun f f' => same_table f f' /\ cache_extends f f')
      (getNamespaces_loop fuel d).
Proof.
  induction fuel as [|fuel IH]; intros d; cbn [getNamespaces_loop];
    (apply preserves_bind;
     [ apply table_and_cache_trans
     | apply (preserves_weaken same_object);
       [apply same_object_table_and_cache
       | apply preserves_getNamespaceEndOffset]
     | intros idx ]);
    (apply preserves_bind;
     [ apply table_and_cache_trans
     | apply preserves_get; apply table_and_cache_refl
     | intros count ]);
    destruct (idx <? count);
    try (apply preserves_ret; apply table_and_cache_refl);
    [apply preserves_out_of_fuel|].
  apply preserves_bind;
    [ apply table_and_cache_trans
    | apply (preserves_weaken same_object);
      [apply same_object_table_and_cache | apply preserves_getDirent]
    | intros d' ].
  apply preserves_append_namespace. apply IH.
Qed.

Lemma preserves_getNamespaces :
  preserves (fun f f' => same_table f f' /\ cache_extends f f')
    getNamespaces.
Proof.
  intros f f' H. unfold getNamespaces in H.
  unfold bind at 1 in H. unfold bind at 1 in H. unfold get at 1 in H.
  destruct (namespaces f) as [|c cached] eqn:Hcache.
  - unfold bind at 1 in H.
    destruct (getDirent 0 f) as [d f1|e f1|] eqn:E; [| |discriminate H].
    + pose proof (preserves_getDirent 0 f f1) as H1. rewrite E in H1.
      specialize (H1 eq_refl).
      unfold bind at 1 in H. unfold assign_namespaces at 1 in H.
      unfold bind at 1 in H. unfold get at 1 in H.
      set (f2 := set_namespaces [getNamespace d] f1) in H.
      assert (H12 : same_table f f2 /\ cache_extends f f2).
      { split.
        - apply (same_table_trans _ f1); [exact (proj1 H1)|].
          repeat split; auto.
        - exists [getNamespace d]. now rewrite Hcache. }
      destruct (getNamespaces_loop _ d f2) as [[] f3|e f3|] eqn:E2;
        [| |discriminate H].
      * unfold get in H. injection H as <-.
        apply (table_and_cache_trans _ f2); [exact H12|].
        apply (preserves_getNamespaces_loop
                 (Z.to_nat (getCountArticles f2)) d f2). now rewrite E2.
      * injection H as <-.
        apply (table_and_cache_trans _ f2); [exact H12|].
        apply (preserves_getNamespaces_loop
                 (Z.to_nat (getCountArticles f2)) d f2). now rewrite E2.
    + injection H as <-. apply same_object_table_and_cache.
      apply (preserves_getDirent 0 f). now rewrite E.
  - unfold ret, get in H. injection H as <-. apply table_and_cache_refl.
Qed.

Lemma preserves_findArticle (ns : Z) (title : QUnicodeString)
  (collate : bool) :
  preserves (fun f f' => same_table f f' /\ cache_extends f f')
    (findArticle ns title collate).
Proof.
  unfold findArticle.
  apply preserves_bind;
    [apply table_and_cache_trans | apply preserves_getNamespaces | intros nss].
  apply (preserves_weaken same_object);
    [apply same_object_table_and_cache|].
  repeat first [ apply preserves_findArticle_loop
               | apply preserves_readDirentNolock
               | preserves_step ].
Qed.

Lemma preserves_getArticle_by_title (ns : Z) (url : QUnicodeString)
  (collate : bool) :
  preserves (fun f f' => same_table f f' /\ cache_extends f f')
    (getArticle_by_title ns url collate).
Proof.
  unfold getArticle_by_title.
  apply preserves_bind;
    [apply table_and_cache_trans | apply preserves_findArticle | intros s].
  apply (preserves_weaken same_object);
    [apply same_object_table_and_cache|].
  repeat first [apply preserves_readDirentNolock | preserves_step].
Qed.

End Unchanged.

(** ** Reading data *)

Section ReadData.
Context {decls : ZenoDecls}.

Lemma stream_of_good (f : FileImpl) :
  failbit (zenoFile f) = false ->
  zenoFile f = mkStream (content (zenoFile f)) (gpos (zenoFile f)) false
                 (gcount (zenoFile f)).
Proof. intros H. rewrite <- H. now destruct (zenoFile f). Qed.

(** A call of the loop that returns read [count] bytes. *)
Lemma readDataNolock_loop_length (fuel : nat) :
  forall (count : Z) (data r : list byte) (f f' : FileImpl),
    readDataNolock_loop fuel count data f = Ret r f' ->
    0 <= count < size_type_mod ->
    Z.of_nat (length r) = Z.of_nat (length data) + count.
Proof.
  induction fuel as [|fuel IH]; intros count data r f f' H Hc;
    cbn [readDataNolock_loop] in H;
    destruct (Z.gtb_spec count 0) as [Hgt|Hle];
    try (unfold ret in H; injection H as <- _; lia);
    [discriminate H|].
  unfold bind at 1 in H. unfold zenoFile_read in H.
  destruct (failbit (zenoFile f)) eqn:Hfail.
  - rewrite read_failed in H by exact Hfail.
    unfold bind, get, throw in H. cbn in H. discriminate H.
  - unfold read in H. rewrite Hfail in H.
    set (got := firstn (Z.to_nat (Z.min 256 count))
                  (skipn (Z.to_nat (gpos (zenoFile f)))
                     (content (zenoFile f)))) in H.
    unfold bind at 1 in H. unfold get at 1 in H.
    cbn [zenoFile set_zenoFile failbit] in H.
    destruct (Z.ltb_spec (Z.of_nat (length got)) (Z.min 256 count))
      as [Hshort|Hfull]; [unfold throw in H; discriminate H|].
    unfold bind at 1 in H. unfold get at 1 in H.
    cbn [zenoFile set_zenoFile gcount] in H.
    assert (Hlen : Z.of_nat (length got) = Z.min 256 count).
    { assert (Z.of_nat (length got) <= Z.min 256 count)
        by (unfold got; rewrite length_firstn; lia).
      lia. }
    rewrite Hlen in H. rewrite to_size_type_small in H by lia.
    apply IH in H; [|lia].
    rewrite length_app, length_firstn in H. lia.
Qed.

(** With fewer than [count] bytes left in the file, the loop throws and
    leaves the stream failed. *)
Lemma readDataNolock_loop_short (fuel : nat) :
  forall (count : Z) (data : list byte) (f : FileImpl),
    failbit (zenoFile f) = false ->
    0 <= gpos (zenoFile f) ->
    0 < count < size_type_mod ->
    Z.of_nat (length (content (zenoFile f))) < gpos (zenoFile f) + count ->
    (Z.to_nat count <= fuel)%nat ->
    exists f',
      readDataNolock_loop fuel count data f = Throw data_error f' /\
      failbit (zenoFile f') = true.
Proof.
  induction fuel as [|fuel IH]; intros count data f Hfail Hpos Hc Hlen Hfuel;
    [lia|].
  cbn [readDataNolock_loop].
  destruct (Z.gtb_spec count 0) as [Hgt|Hle]; [|lia].
  unfold bind at 1. unfold zenoFile_read, read. rewrite Hfail.
  set (got := firstn (Z.to_nat (Z.min 256 count))
                (skipn (Z.to_nat (gpos (zenoFile f)))
                   (content (zenoFile f)))).
  unfold bind at 1. unfold get at 1. cbn [zenoFile set_zenoFile failbit].
  destruct (Z.ltb_spec (Z.of_nat (length got)) (Z.min 256 count))
    as [Hshort|Hfull].
  - eexists. split; reflexivity.
  - unfold bind at 1. unfold get at 1. cbn [zenoFile set_zenoFile gcount].
    assert (Hgot : Z.of_nat (length got) = Z.min 256 count).
    { assert (Z.of_nat (length got) <= Z.min 256 count)
        by (unfold got; rewrite length_firstn; lia).
      lia. }
    assert (Havail : gpos (zenoFile f) + Z.min 256 count
                     <= Z.of_nat (length (content (zenoFile f)))).
    { pose proof Hgot as Hgot'. unfold got in Hgot'.
      rewrite length_firstn, length_skipn in Hgot'. lia. }
    rewrite Hgot. rewrite to_size_type_small by lia.
    apply IH; cbn [set_zenoFile zenoFile failbit gpos content];
      try reflexivity; lia.
Qed.

End ReadData.

Section ReadEntries.
Context {decls : ZenoDecls}.

Lemma dirent_at_Some (bytes : list byte) (off : Z) (d : Dirent) :
  dirent_at bytes off = Some d ->
  0 <= off < 2 ^ 63 /\
  off + entry_span bytes off <= Z.of_nat (length bytes) /\
  d = setExtra (file_slice bytes (off + 26) (extra_length bytes off))
               (Dirent_new (file_slice bytes off 26)).
Proof.
  unfold dirent_at, entry_span, extra_length, file_slice.
  change (Z.to_nat 26) with 26%nat.
  destruct ((0 <=? off) && (off <? 2 ^ 63) &&
            (off + 26 <=? Z.of_nat (length bytes))) eqn:Hchk;
    [|discriminate].
  apply andb_prop in Hchk as [Hchk H26]. apply andb_prop in Hchk as [H0 H63].
  apply Z.leb_le in H0, H26. apply Z.ltb_lt in H63.
  cbv zeta.
  destruct (_ <=? Z.of_nat (length bytes)) eqn:Hx; [|discriminate].
  apply Z.leb_le in Hx. intros [= <-]. repeat split; lia.
Qed.

Lemma dirent_at_None (bytes : list byte) (off : Z) :
  dirent_at bytes off = None ->
  ~ (0 <= off < 2 ^ 63 /\ off + 26 <= Z.of_nat (length bytes)) \/
  (0 <= off < 2 ^ 63 /\ off + 26 <= Z.of_nat (length bytes) /\
   Z.of_nat (length bytes) < off + entry_span bytes off).
Proof.
  unfold dirent_at, entry_span, extra_length, file_slice.
  change (Z.to_nat 26) with 26%nat.
  destruct ((0 <=? off) && (off <? 2 ^ 63) &&
            (off + 26 <=? Z.of_nat (length bytes))) eqn:Hchk.
  - apply andb_prop in Hchk as [Hchk H26].
    apply andb_prop in Hchk as [H0 H63].
    apply Z.leb_le in H0, H26. apply Z.ltb_lt in H63.
    cbv zeta.
    destruct (_ <=? Z.of_nat (length bytes)) eqn:Hx; [discriminate|].
    apply Z.leb_gt in Hx. intros _. right. lia.
  - intros _. left. intros (H0 & H26).
    apply andb_false_iff in Hchk as [Hchk|Hchk].
    + apply andb_false_iff in Hchk as [Hchk|Hchk].
      * apply Z.leb_gt in Hchk. lia.
      * apply Z.ltb_ge in Hchk. lia.
    + apply Z.leb_gt in Hchk. lia.
Qed.

(** Where the file holds an entry, the read returns it and leaves the
    cursor behind it. *)
Lemma readDirentNolock_ok_pos (f : FileImpl) (off : Z) (d : Dirent) :
  failbit (zenoFile f) = false ->
  dirent_at (content (zenoFile f)) off = Some d ->
  exists f',
    readDirentNolock off f = Ret d f' /\ same_archive f f' /\
    gpos (zenoFile f') = off + entry_span (content (zenoFile f)) off.
Proof.
  intros Hgood Hat.
  apply dirent_at_Some in Hat as (Hoff & Hspan & ->).
  unfold entry_span in *. unfold extra_length in *.
  remember (content (zenoFile f)) as bytes eqn:Hbytes.
  set (dirent := Dirent_new (file_slice bytes off 26)) in *.
  cbv zeta in *.
  set (len := if getExtraLen dirent >? 0
              then to_size_type (getExtraLen dirent) else 0) in *.
  assert (Hs : zenoFile f =
               mkStream bytes (gpos (zenoFile f)) false (gcount (zenoFile f))).
  { rewrite Hbytes. now apply stream_of_good. }
  assert (Hlen0 : 0 <= len < size_type_mod).
  { unfold len. destruct (getExtraLen dirent >? 0).
    - unfold to_size_type. apply Z.mod_pos_bound. reflexivity.
    - unfold size_type_mod. lia. }
  set (f1 := set_zenoFile (mkStream bytes off false (gcount (zenoFile f))) f).
  set (f2 := set_zenoFile (mkStream bytes (off + 26) false 26) f).
  assert (E1 : zenoFile_seekg off f = Ret tt f1)
    by (apply (zenoFile_seekg_good f bytes (gpos (zenoFile f)));
        [exact Hs | lia]).
  assert (E2 : zenoFile_read 26 f1 = Ret (file_slice bytes off 26) f2).
  { unfold f1. erewrite zenoFile_read_enough; [reflexivity|reflexivity|lia..]. }
  unfold readDirentNolock, readDirentNolock_here.
  rewrite (bind_Ret _ _ _ _ _ E1), (bind_Ret _ _ _ _ _ E2).
  unfold bind at 1. unfold get at 1. unfold bind at 1. unfold get at 1.
  unfold f2 at 1 2. cbn [zenoFile set_zenoFile failbit gcount orb].
  cbn [Z.eqb Pos.eqb negb]. fold f2. fold dirent.
  destruct (getExtraLen dirent >? 0) eqn:Hextra.
  - fold len. unfold readDataNolock.
    destruct (readDataNolock_loop_enough bytes (Z.to_nat len) len [] f2
                (off + 26) 26 eq_refl) as [g' E]; try lia.
    rewrite (bind_Ret _ _ _ _ _ E). unfold ret. cbn [app].
    eexists. split; [reflexivity|]. split.
    + unfold f2. unfold set_zenoFile at 1.
      cbn [filename indexOffsets namespaces set_zenoFile].
      repeat split. cbn. now rewrite Hbytes.
    + cbn [zenoFile set_zenoFile gpos]. ring.
  - unfold bind, ret. eexists. split; [reflexivity|]. split.
    + apply same_archive_set_zenoFile; cbn;
        [now rewrite Hbytes | reflexivity].
    + cbn [f2 zenoFile set_zenoFile gpos]. subst len. lia.
Qed.

(** A failed stream, or a file without the 26 bytes of the fixed part at
    the offset: the read throws the error of the index header. *)
Lemma readDirentNolock_no_header (f : FileImpl) (off : Z) :
  failbit (zenoFile f) = true \/
  ~ (0 <= off < 2 ^ 63 /\
     off + 26 <= Z.of_nat (length (content (zenoFile f)))) ->
  exists f',
    readDirentNolock off f =
    Throw (ZenoFileFormatError (index_header_msg (filename f))) f' /\
    failbit (zenoFile f') = true.
Proof.
  intros H.
  assert (Hfail : failbit (snd (read 26 (seekg off (zenoFile f)))) = true).
  { destruct (failbit (zenoFile f)) eqn:Hf.
    - rewrite seekg_failed, read_failed by exact Hf. reflexivity.
    - destruct H as [H|H]; [discriminate H|].
      unfold seekg. rewrite Hf.
      destruct ((0 <=? off) && (off <? 2 ^ 63)) eqn:Hoff.
      + apply andb_prop in Hoff as [H0 H63].
        apply Z.leb_le in H0. apply Z.ltb_lt in H63.
        rewrite read_good. cbv zeta. cbn [snd failbit].
        apply Z.ltb_lt. rewrite length_firstn, length_skipn. lia.
      + now rewrite read_failed. }
  unfold readDirentNolock, readDirentNolock_here.
  unfold bind at 1. unfold zenoFile_seekg.
  unfold bind at 1. unfold zenoFile_read. cbn [zenoFile set_zenoFile].
  destruct (read 26 (seekg off (zenoFile f))) as [header s].
  cbn [snd] in Hfail.
  unfold bind at 1. unfold get at 1. unfold bind at 1. unfold get at 1.
  cbn [zenoFile set_zenoFile]. rewrite Hfail. cbn [orb].
  unfold bind, get, throw. cbn [filename set_zenoFile].
  eexists. split; [reflexivity | exact Hfail].
Qed.

(** The fixed part is there but not all the extra bytes it announces: the
    read throws the error of reading data. *)
Lemma readDirentNolock_no_extra (f : FileImpl) (off : Z) :
  failbit (zenoFile f) = false ->
  0 <= off < 2 ^ 63 ->
  off + 26 <= Z.of_nat (length (content (zenoFile f))) ->
  Z.of_nat (length (content (zenoFile f))) <
  off + entry_span (content (zenoFile f)) off ->
  exists f',
    readDirentNolock off f = Throw data_error f' /\
    failbit (zenoFile f') = true.
Proof.
  intros Hgood Hoff H26 Hshort.
  unfold entry_span, extra_length in Hshort.
  remember (content (zenoFile f)) as bytes eqn:Hbytes.
  set (dirent := Dirent_new (file_slice bytes off 26)) in *.
  cbv zeta in Hshort.
  assert (Hs : zenoFile f =
               mkStream bytes (gpos (zenoFile f)) false (gcount (zenoFile f))).
  { rewrite Hbytes. now apply stream_of_good. }
  set (f1 := set_zenoFile (mkStream bytes off false (gcount (zenoFile f))) f).
  set (f2 := set_zenoFile (mkStream bytes (off + 26) false 26) f).
  assert (E1 : zenoFile_seekg off f = Ret tt f1)
    by (apply (zenoFile_seekg_good f bytes (gpos (zenoFile f)));
        [exact Hs | lia]).
  assert (E2 : zenoFile_read 26 f1 = Ret (file_slice bytes off 26) f2).
  { unfold f1. erewrite zenoFile_read_enough; [reflexivity|reflexivity|lia..]. }
  unfold readDirentNolock, readDirentNolock_here.
  rewrite (bind_Ret _ _ _ _ _ E1), (bind_Ret _ _ _ _ _ E2).
  unfold bind at 1. unfold get at 1. unfold bind at 1. unfold get at 1.
  unfold f2 at 1 2. cbn [zenoFile set_zenoFile failbit gcount orb].
  cbn [Z.eqb Pos.eqb negb]. fold f2. fold dirent.
  destruct (getExtraLen dirent >? 0) eqn:Hextra; [|lia].
  unfold readDataNolock.
  destruct (readDataNolock_loop_short
              (Z.to_nat (to_size_type (getExtraLen dirent)))
              (to_size_type (getExtraLen dirent)) [] f2)
    as (f' & E & Hfail); cbn [f2 set_zenoFile zenoFile failbit gpos content];
    try reflexivity; try lia.
  - pose proof (Z.mod_pos_bound (getExtraLen dirent) size_type_mod
                  ltac:(reflexivity)) as Hb.
    unfold to_size_type in *. lia.
  - rewrite (bind_Throw _ _ _ _ _ E). now exists f'.
Qed.

Lemma readDirentNolock_at_cursor (f : FileImpl) :
  failbit (zenoFile f) = false ->
  0 <= gpos (zenoFile f) < 2 ^ 63 ->
  readDirentNolock (gpos (zenoFile f)) f = readDirentNolock_here f.
Proof.
  intros Hgood Hpos. unfold readDirentNolock. unfold bind at 1.
  unfold zenoFile_seekg, seekg. rewrite Hgood.
  replace ((0 <=? gpos (zenoFile f)) && (gpos (zenoFile f) <? 2 ^ 63))
    with true
    by (symmetry; apply andb_true_intro;
        split; [apply Z.leb_le | apply Z.ltb_lt]; lia).
  destruct f as [[c p fb g] fname offs nss]. cbn in Hgood. subst fb.
  reflexivity.
Qed.

End ReadEntries.

(** ** Reading data *)

Section ReadDataCalls.
Context {decls : ZenoDecls}.

Lemma readDataNolock_loop_failed (fuel : nat) (count : Z) (data : list byte)
  (f : FileImpl) :
  failbit (zenoFile f) = true ->
  0 < count ->
  exists f',
    readDataNolock_loop (S fuel) count data f = Throw data_error f' /\
    failbit (zenoFile f') = true.
Proof.
  intros Hfail Hc. cbn [readDataNolock_loop].
  destruct (Z.gtb_spec count 0) as [_|Hle]; [|lia].
  unfold bind at 1. unfold zenoFile_read.
  rewrite read_failed by exact Hfail.
  unfold bind, get, throw.
  cbn [zenoFile set_zenoFile failbit].
  eexists. split; reflexivity.
Qed.

Lemma readData_enough (f : FileImpl) (off count : Z) :
  failbit (zenoFile f) = false ->
  0 <= off < 2 ^ 63 ->
  0 <= count < size_type_mod ->
  off + count <= Z.of_nat (length (content (zenoFile f))) ->
  exists f',
    readData off count f =
    Ret (file_slice (content (zenoFile f)) off count) f' /\
    same_archive f f' /\
    gpos (zenoFile f') = off + count.
Proof.
  intros Hgood Hoff Hc Hlen.
  pose proof (stream_of_good f Hgood) as Hs.
  unfold readData, readDataNolock_at.
  rewrite (bind_Ret _ _ _ _ _
             (zenoFile_seekg_good f _ _ _ off Hs Hoff)).
  unfold readDataNolock.
  destruct (readDataNolock_loop_enough (content (zenoFile f))
              (Z.to_nat count) count []
              (set_zenoFile
                 (mkStream (content (zenoFile f)) off false
                    (gcount (zenoFile f))) f)
              off (gcount (zenoFile f)) eq_refl)
    as [g' E]; try lia.
  rewrite E. cbn [app]. eexists. split; [reflexivity|]. split.
  - repeat split.
  - reflexivity.
Qed.

Lemma readData_short (f : FileImpl) (off count : Z) :
  0 < count < size_type_mod ->
  failbit (zenoFile f) = true \/
  ~ (0 <= off < 2 ^ 63 /\
     off + count <= Z.of_nat (length (content (zenoFile f)))) ->
  exists f',
    readData off count f = Throw data_error f' /\
    failbit (zenoFile f') = true.
Proof.
  intros Hc Hbad.
  unfold readData, readDataNolock_at. unfold bind at 1.
  unfold zenoFile_seekg, readDataNolock.
  assert (Hfuel : exists fuel, Z.to_nat count = S fuel).
  { exists (Nat.pred (Z.to_nat count)). lia. }
  destruct Hfuel as [fuel Hfuel].
  destruct (failbit (zenoFile f)) eqn:Hfail.
  - rewrite seekg_failed by exact Hfail. rewrite Hfuel.
    apply readDataNolock_loop_failed; [|lia].
    cbn [zenoFile set_zenoFile]. exact Hfail.
  - destruct Hbad as [Hbad|Hbad]; [discriminate Hbad|].
    unfold seekg. rewrite Hfail.
    destruct ((0 <=? off) && (off <? 2 ^ 63)) eqn:Hoff.
    + apply andb_prop in Hoff as [H0 H63].
      apply Z.leb_le in H0. apply Z.ltb_lt in H63.
      apply readDataNolock_loop_short;
        cbn [zenoFile set_zenoFile failbit gpos content];
        try reflexivity; lia.
    + rewrite Hfuel. apply readDataNolock_loop_failed; [reflexivity | lia].
Qed.

(** X1: on a good stream, [readData(off, count)] with all [count] bytes
    in the file from offset [off] on returns exactly these bytes; it
    leaves the stream good, positioned behind them, and the object
    otherwise as it was. *)
Theorem readData_returns_file_bytes (f : FileImpl) (off count : Z) :
  failbit (zenoFile f) = false ->
  0 <= off < 2 ^ 63 ->
  0 <= count < size_type_mod ->
  off + count <= Z.of_nat (length (content (zenoFile f))) ->
  exists f',
    readData off count f =
    Ret (file_slice (content (zenoFile f)) off count) f' /\
    same_archive f f' /\
    gpos (zenoFile f') = off + count.
Proof. exact (readData_enough f off count). Qed.

(** X2: [readData(off, count)] for a positive [count] throws the error of
    reading data, and leaves the stream failed, whenever the stream is
    already failed, the offset is no stream position, or the file holds
    fewer than [count] bytes from the offset on; no shorter string is ever
    returned. *)
Theorem readData_short_file_throws (f : FileImpl) (off count : Z) :
  0 < count < size_type_mod ->
  failbit (zenoFile f) = true \/
  ~ (0 <= off < 2 ^ 63 /\
     off + count <= Z.of_nat (length (content (zenoFile f)))) ->
  exists f',
    readData off count f = Throw data_error f' /\
    failbit (zenoFile f') = true.
Proof. exact (readData_short f off count). Qed.

(** X3: whatever the state of the object, a string that [readData(off,
    count)] returns has exactly [count] bytes and is the part of the file
    that starts at [off]. *)
Theorem readData_result_is_file_part (f f' : FileImpl) (off count : Z)
  (r : list byte) :
  0 <= count < size_type_mod ->
  readData off count f = Ret r f' ->
  r = file_slice (content (zenoFile f)) off count /\
  Z.of_nat (length r) = count.
Proof.
  intros Hc H. split.
  - destruct (Z.eq_dec count 0) as [->|Hpos].
    + unfold readData, readDataNolock_at, readDataNolock in H.
      unfold bind, zenoFile_seekg in H. cbn in H.
      now injection H as <- _.
    + destruct (failbit (zenoFile f)) eqn:Hfail.
      { destruct (readData_short f off count ltac:(lia) (or_introl Hfail))
          as (f1 & E & _).
        rewrite E in H. discriminate H. }
      destruct (Z_lt_dec off 0) as [Hneg|Hnn];
        [|destruct (Z_lt_dec off (2 ^ 63)) as [H63|H63];
          [destruct (Z_le_dec (off + count)
                       (Z.of_nat (length (content (zenoFile f)))))
             as [Hle|Hgt]|]].
      2:{ destruct (readData_enough f off count Hfail ltac:(lia) Hc Hle)
            as (f1 & E & _).
          rewrite E in H. now injection H as <- _. }
      all: destruct (readData_short f off count ltac:(lia)) as (f1 & E & _);
        [right; lia | rewrite E in H; discriminate H].
  - unfold readData, readDataNolock_at in H. unfold bind at 1 in H.
    unfold zenoFile_seekg, readDataNolock in H.
    apply readDataNolock_loop_length in H; [|exact Hc].
    cbn [length] in H. lia.
Qed.

End ReadDataCalls.

(** ** Reading directory entries *)

Section ReadDirentCalls.
Context {decls : ZenoDecls}.

(** A read of an entry that throws leaves the stream failed. *)
Lemma readDirentNolock_Throw_failed (off : Z) (f f' : FileImpl) (e : error) :
  readDirentNolock off f = Throw e f' ->
  failbit (zenoFile f') = true.
Proof.
  intros H.
  destruct (failbit (zenoFile f)) eqn:Hfail.
  - destruct (readDirentNolock_no_header f off (or_introl Hfail))
      as (f1 & E & Hf1).
    rewrite E in H. now injection H as _ <-.
  - destruct (dirent_at (content (zenoFile f)) off) as [d|] eqn:Hat.
    + destruct (readDirentNolock_ok_pos f off d Hfail Hat) as (f1 & E & _).
      rewrite E in H. discriminate H.
    + apply dirent_at_None in Hat as [Hno|(Hoff & H26 & Hshort)].
      * destruct (readDirentNolock_no_header f off (or_intror Hno))
          as (f1 & E & Hf1).
        rewrite E in H. now injection H as _ <-.
      * destruct (readDirentNolock_no_extra f off Hfail Hoff H26 Hshort)
          as (f1 & E & Hf1).
        rewrite E in H. now injection H as _ <-.
Qed.

(** X4: [readDirentNolock(off)] returns an entry exactly when the stream
    is good and the file holds a whole entry at [off], the 26 bytes of the
    fixed part and the extra bytes it announces; the entry returned is the
    one built from these bytes. *)
Theorem readDirentNolock_returns_iff (f : FileImpl) (off : Z) (d : Dirent) :
  (exists f', readDirentNolock off f = Ret d f') <->
  failbit (zenoFile f) = false /\
  dirent_at (content (zenoFile f)) off = Some d.
Proof.
  split.
  - intros [f' H]. split.
    + destruct (failbit (zenoFile f)) eqn:Hfail; [|reflexivity].
      destruct (readDirentNolock_no_header f off (or_introl Hfail))
        as (f1 & E & _).
      rewrite E in H. discriminate H.
    + now apply readDirentNolock_Ret_inv in H.
  - intros [Hgood Hat].
    destruct (readDirentNolock_ok_pos f off d Hgood Hat) as (f' & E & _).
    now exists f'.
Qed.

(** X5: on a good stream, [readDirentNolock(off)] at an offset where the
    file holds no whole entry throws and leaves the stream failed: the
    error of the index header when the 26 bytes of the fixed part are not
    all there, the error of reading data when they are and the extra bytes
    are not. *)
Theorem readDirentNolock_missing_entry (f : FileImpl) (off : Z) :
  failbit (zenoFile f) = false ->
  dirent_at (content (zenoFile f)) off = None ->
  exists f',
    failbit (zenoFile f') = true /\
    ((~ (0 <= off < 2 ^ 63 /\
         off + 26 <= Z.of_nat (length (content (zenoFile f)))) /\
      readDirentNolock off f =
      Throw (ZenoFileFormatError (index_header_msg (filename f))) f') \/
     ((0 <= off < 2 ^ 63 /\
       off + 26 <= Z.of_nat (length (content (zenoFile f)))) /\
      readDirentNolock off f = Throw data_error f')).
Proof.
  intros Hgood Hat.
  apply dirent_at_None in Hat as [Hno|(Hoff & H26 & Hshort)].
  - destruct (readDirentNolock_no_header f off (or_intror Hno))
      as (f' & E & Hf').
    exists f'. split; [exact Hf'|]. left. split; assumption.
  - destruct (readDirentNolock_no_extra f off Hgood Hoff H26 Hshort)
      as (f' & E & Hf').
    exists f'. split; [exact Hf'|]. right. split; [split|]; assumption.
Qed.

(** X6: a read of an entry leaves the stream behind the entry, so that
    [readDirentNolock()] without an offset then reads the entry that
    follows in the file: after [readDirentNolock(off)] it returns the
    entry at [off] plus the bytes the first entry takes. *)
Theorem readDirentNolock_here_reads_next (f : FileImpl) (off : Z)
  (d1 d2 : Dirent) :
  let bytes := content (zenoFile f) in
  let next := off + entry_span bytes off in
  failbit (zenoFile f) = false ->
  dirent_at bytes off = Some d1 ->
  dirent_at bytes next = Some d2 ->
  exists f1 f2,
    readDirentNolock off f = Ret d1 f1 /\
    readDirentNolock_here f1 = Ret d2 f2 /\
    same_archive f f2 /\
    gpos (zenoFile f2) = next + entry_span bytes next.
Proof.
  intros bytes next Hgood H1 H2.
  destruct (readDirentNolock_ok_pos f off d1 Hgood H1)
    as (f1 & E1 & Hsame1 & Hpos1).
  fold bytes in Hpos1. fold next in Hpos1.
  pose proof Hsame1 as (_ & _ & _ & Hc1 & Hgood1).
  pose proof (dirent_at_Some _ _ _ H2) as (Hnext & _).
  assert (H2' : dirent_at (content (zenoFile f1)) next = Some d2)
    by (rewrite Hc1; exact H2).
  destruct (readDirentNolock_ok_pos f1 next d2 Hgood1 H2')
    as (f2 & E2 & Hsame2 & Hpos2).
  exists f1, f2. split; [exact E1|]. split.
  - rewrite <- readDirentNolock_at_cursor by (rewrite ?Hpos1; assumption).
    rewrite Hpos1. exact E2.
  - split; [exact (same_archive_trans _ _ _ Hsame1 Hsame2)|].
    rewrite Hpos2, Hc1. reflexivity.
Qed.

(** On a failed stream the accessors by index throw the error of the
    index header for every index below the count, and leave the stream
    failed. *)
Lemma getDirent_failed (f : FileImpl) (idx : Z) :
  failbit (zenoFile f) = true ->
  idx < getCountArticles f ->
  exists f',
    getDirent idx f =
    Throw (ZenoFileFormatError (index_header_msg (filename f))) f' /\
    getArticle idx f =
    Throw (ZenoFileFormatError (index_header_msg (filename f))) f' /\
    failbit (zenoFile f') = true.
Proof.
  intros Hfail Hidx.
  destruct (readDirentNolock_no_header f (vector_at (indexOffsets f) idx)
              (or_introl Hfail)) as (f' & E & Hf').
  exists f'. split; [|split; [|exact Hf']].
  - unfold getDirent. unfold bind at 1. unfold get at 1.
    destruct (Z.geb_spec idx (getCountArticles f)) as [Hge|_]; [lia|].
    unfold bind at 1. unfold get at 1. exact E.
  - unfold getArticle. unfold bind at 1. unfold get at 1.
    destruct (Z.geb_spec idx (getCountArticles f)) as [Hge|_]; [lia|].
    unfold bind at 1. unfold get at 1.
    now rewrite (bind_Throw _ _ _ _ _ E).
Qed.

(** X7: a format error is permanent.  When [getDirent] throws for an
    index below the count, the stream is left failed, and from then on
    [getDirent] and [getArticle] throw the error of the index header for
    every index below the count, also for entries the file holds in
    full. *)
Theorem format_error_is_permanent (f f' : FileImpl) (idx : Z) (e : error) :
  idx < getCountArticles f ->
  getDirent idx f = Throw e f' ->
  failbit (zenoFile f') = true /\
  getCountArticles f' = getCountArticles f /\
  forall j, j < getCountArticles f ->
    exists f'',
      getDirent j f' =
      Throw (ZenoFileFormatError (index_header_msg (filename f))) f'' /\
      getArticle j f' =
      Throw (ZenoFileFormatError (index_header_msg (filename f))) f'' /\
      failbit (zenoFile f'') = true.
Proof.
  intros Hidx H.
  pose proof (preserves_getDirent idx f f') as Hkeep.
  rewrite H in Hkeep. specialize (Hkeep eq_refl).
  destruct Hkeep as ((Hoffs & Hname & _ & _) & _).
  unfold getDirent in H. unfold bind at 1 in H. unfold get at 1 in H.
  destruct (Z.geb_spec idx (getCountArticles f)) as [Hge|_]; [lia|].
  unfold bind at 1 in H. unfold get at 1 in H.
  apply readDirentNolock_Throw_failed in H.
  assert (Hcount : getCountArticles f' = getCountArticles f)
    by (unfold getCountArticles; now rewrite Hoffs).
  split; [exact H|]. split; [exact Hcount|].
  intros j Hj. rewrite <- Hname.
  apply getDirent_failed; [exact H | lia].
Qed.

End ReadDirentCalls.

(** ** The accessors by index *)

Section IndexAccessors.
Context {decls : ZenoDecls}.

(** C8: [getArticle(idx)] and [getDirent(idx)] throw the error of an index
    out of range exactly when [idx] is at least the article count.  For a
    smaller [idx], on a stream that is good, they return the entry that
    the file holds at [indexOffsets[idx]] whenever it holds a whole entry
    there, whatever the other entries are like; and whatever they return
    is that entry, read from a good stream: [getDirent] returns it as it
    is, [getArticle] with the index. *)
Theorem index_accessors_check_range (f : FileImpl) (idx : Z) :
  (thrown (getDirent idx f) = Some out_of_range <->
   getCountArticles f <= idx) /\
  (thrown (getArticle idx f) = Some out_of_range <->
   getCountArticles f <= idx) /\
  (forall d,
     0 <= idx < getCountArticles f ->
     failbit (zenoFile f) = false ->
     dirent_at (content (zenoFile f)) (vector_at (indexOffsets f) idx)
     = Some d ->
     exists f',
       getDirent idx f = Ret d f' /\
       getArticle idx f = Ret (Article_of idx d) f' /\
       same_archive f f') /\
  (forall d f',
     getDirent idx f = Ret d f' ->
     idx < getCountArticles f /\
     failbit (zenoFile f) = false /\
     dirent_at (content (zenoFile f)) (vector_at (indexOffsets f) idx)
     = Some d /\
     getArticle idx f = Ret (Article_of idx d) f') /\
  (forall a f',
     getArticle idx f = Ret a f' ->
     exists d, a = Article_of idx d /\ getDirent idx f = Ret d f').
Proof.
  assert (Hd : getDirent idx f =
               if idx >=? getCountArticles f then Throw out_of_range f
               else readDirentNolock (vector_at (indexOffsets f) idx) f).
  { unfold getDirent, bind, get. now destruct (idx >=? getCountArticles f). }
  assert (Ha : getArticle idx f =
               if idx >=? getCountArticles f then Throw out_of_range f
               else (d <- readDirentNolock (vector_at (indexOffsets f) idx) ;;
                     ret (Article_of idx d)) f).
  { unfold getArticle. unfold bind at 1. unfold get at 1.
    destruct (idx >=? getCountArticles f); [reflexivity|].
    unfold bind at 1. unfold get at 1. reflexivity. }
  pose proof (readDirentNolock_not_out_of_range
                (vector_at (indexOffsets f) idx) f) as Hnot.
  rewrite Hd, Ha, Z.geb_leb.
  destruct (Z.leb_spec (getCountArticles f) idx) as [Hge|Hlt].
  - split; [split; [intros _; exact Hge | reflexivity]|].
    split; [split; [intros _; exact Hge | reflexivity]|].
    split; [intros d Hi; lia|].
    split; intros ? ? H; discriminate H.
  - split; [split; [intros H; contradiction | lia]|].
    split.
    { split; [|lia]. intros H. exfalso. apply Hnot.
      unfold bind in H.
      destruct (readDirentNolock (vector_at (indexOffsets f) idx) f);
        cbn [thrown] in *; try discriminate H; exact H. }
    split.
    { intros d _ Hgood Hat.
      destruct (readDirentNolock_ok_pos f _ d Hgood Hat)
        as (f' & E & Hsame & _).
      exists f'. split; [exact E|]. split; [|exact Hsame].
      now rewrite (bind_Ret _ _ _ _ _ E). }
    split.
    { intros d f' H. split; [exact Hlt|].
      assert (Hgood : failbit (zenoFile f) = false).
      { destruct (failbit (zenoFile f)) eqn:Hfail; [|reflexivity].
        destruct (readDirentNolock_no_header f
                    (vector_at (indexOffsets f) idx) (or_introl Hfail))
          as (f1 & E & _).
        rewrite E in H. discriminate H. }
      split; [exact Hgood|]. split.
      - now apply readDirentNolock_Ret_inv in H.
      - now rewrite (bind_Ret _ _ _ _ _ H). }
    intros a f' H. unfold bind in H.
    destruct (readDirentNolock (vector_at (indexOffsets f) idx) f)
      as [d f1|e f1|]; try discriminate H.
    unfold ret in H. injection H as <- <-. now exists d.
Qed.

End IndexAccessors.

(** ** What the calls leave of the object *)

Section Frame.
Context {decls : ZenoDecls}.

(** X8: no call changes the offset table, the file name or the bytes of
    the file, and none makes a failed stream good again, whether it
    returns or throws.  [readData], the accessors by index and the two
    namespace offsets leave the namespace cache as it is as well;
    [getNamespaces] and the lookups by key, which call it, may only append
    to the cache. *)
Theorem calls_keep_the_table :
  (forall off count, preserves same_object (readData off count)) /\
  (forall idx, preserves same_object (getDirent idx)) /\
  (forall idx, preserves same_object (getArticle idx)) /\
  (forall ch, preserves same_object (getNamespaceBeginOffset ch)) /\
  (forall ch, preserves same_object (getNamespaceEndOffset ch)) /\
  preserves (fun f f' => same_table f f' /\ cache_extends f f')
    getNamespaces /\
  (forall ns title collate,
     preserves (fun f f' => same_table f f' /\ cache_extends f f')
       (findArticle ns title collate)) /\
  (forall ns url collate,
     preserves (fun f f' => same_table f f' /\ cache_extends f f')
       (getArticle_by_title ns url collate)).
Proof.
  split; [exact preserves_readData|].
  split; [exact preserves_getDirent|].
  split; [exact preserves_getArticle|].
  split; [exact preserves_getNamespaceBeginOffset|].
  split; [exact preserves_getNamespaceEndOffset|].
  split; [exact preserves_getNamespaces|].
  split; [exact preserves_findArticle|].
  exact preserves_getArticle_by_title.
Qed.

End Frame.

(** ** The object the constructor leaves *)

Lemma FileImpl_new_Ok_inv (fs : filesystem) (fname : string)
  (bytes : list byte) (f : FileImpl) :
  fs fname = Some bytes ->
  FileImpl_new fs fname = Ok f ->
  headerSize <= Z.of_nat (length bytes) /\
  f = mkFileImpl
        (snd (read (indexPtrLen_of bytes)
                (seekg (indexPtrPos_of bytes)
                   (mkStream bytes headerSize false headerSize))))
        fname
        (map (fun it => to_offset_type
                          (indexPos_of bytes + pointer_value bytes it))
             (seq 0 (Z.to_nat (count_of bytes))))
        [].
Proof.
  intros Hfs Hopen.
  assert (Hlen : headerSize <= Z.of_nat (length bytes)).
  { destruct (Z.le_gt_cases headerSize (Z.of_nat (length bytes))) as [H|H];
      [exact H|].
    rewrite (FileImpl_new_short fs fname bytes Hfs) in Hopen by lia.
    discriminate Hopen. }
  split; [exact Hlen|].
  rewrite (FileImpl_new_long fs fname bytes Hfs Hlen) in Hopen.
  destruct (negb (magic_of bytes =? expectedMagic)); [discriminate|].
  destruct (negb (version_of bytes =? expectedVersion)); [discriminate|].
  rewrite fold_left_push_back in Hopen. cbn [app] in Hopen.
  rewrite (read_enough headerSize bytes 0 0) in Hopen
    by (unfold headerSize in *; lia).
  cbn [snd] in Hopen. change (0 + headerSize) with headerSize in Hopen.
  symmetry. congruence.
Qed.

Lemma open_stream_state (bytes : list byte) :
  failbit (snd (read (indexPtrLen_of bytes)
                  (seekg (indexPtrPos_of bytes)
                     (mkStream bytes headerSize false headerSize)))) =
  negb (table_complete bytes).
Proof.
  pose proof (fromLittleEndian_range 8
    (skipn 0x20 (firstn (Z.to_nat headerSize) bytes))) as Hp.
  fold (header_field 8 0x20 bytes) in Hp. fold indexPtrPos_of in Hp.
  pose proof (header_field_size_type 0x28 bytes) as Hn.
  fold indexPtrLen_of in Hn.
  unfold table_complete, seekg. cbn [failbit content gcount gpos].
  replace (0 <=? indexPtrPos_of bytes) with true
    by (symmetry; apply Z.leb_le; lia).
  cbn [andb].
  destruct (Z.ltb_spec (indexPtrPos_of bytes) (2 ^ 63)) as [H63|H63].
  - rewrite read_good. cbv zeta. cbn [snd failbit andb].
    rewrite length_firstn, length_skipn.
    destruct (Z.eqb_spec (indexPtrLen_of bytes) 0) as [H0|H0];
      cbn [orb negb].
    + rewrite H0. reflexivity.
    + destruct (Z.leb_spec (indexPtrPos_of bytes + indexPtrLen_of bytes)
                  (Z.of_nat (length bytes))) as [Hle|Hgt]; cbn [negb].
      * apply Z.ltb_ge. lia.
      * apply Z.ltb_lt. lia.
  - rewrite read_failed by reflexivity. reflexivity.
Qed.

(** X9: the object a successful open leaves: the file name given, the
    bytes of the file behind the stream, an empty namespace cache, fewer
    than 2^32 offsets, each a 64-bit value.  The constructor does not
    check the read of the pointer table: the stream is left failed
    whenever that read did not get all the bytes the header announces,
    and left good when the position of the table is within the file and
    the read got them all. *)
Theorem open_leaves_object (fs : filesystem) (fname : string)
  (bytes : list byte) (f : FileImpl) :
  fs fname = Some bytes ->
  FileImpl_new fs fname = Ok f ->
  filename f = fname /\
  content (zenoFile f) = bytes /\
  namespaces f = [] /\
  getCountArticles f < size_type_mod /\
  (forall off, In off (indexOffsets f) -> 0 <= off < offset_type_mod) /\
  (table_complete bytes = false -> failbit (zenoFile f) = true) /\
  (indexPtrPos_of bytes <= Z.of_nat (length bytes) ->
   table_complete bytes = true ->
   failbit (zenoFile f) = false).
Proof.
  intros Hfs Hopen.
  pose proof (open_count_fits fs fname f Hopen) as Hcount.
  destruct (FileImpl_new_Ok_inv fs fname bytes f Hfs Hopen) as [Hlen ->].
  cbn [filename zenoFile namespaces indexOffsets].
  split; [reflexivity|]. split.
  { rewrite read_content. apply seekg_content. }
  split; [reflexivity|]. split; [exact Hcount|]. split.
  { intros off Hin. apply in_map_iff in Hin as (it & <- & _).
    unfold to_offset_type. apply Z.mod_pos_bound. reflexivity. }
  rewrite open_stream_state. split.
  - intros ->. reflexivity.
  - intros _ ->. reflexivity.
Qed.

Section OpenThenLookup.
Context {decls : ZenoDecls}.

(** X10: an open that succeeds although the file does not hold all of the
    pointer table leaves an object on which every access by a valid index
    throws the error of the index header, and with it, when the count is
    not zero, [getNamespaces] and every lookup by key. *)
Theorem open_incomplete_table_unusable (fs : filesystem) (fname : string)
  (bytes : list byte) (f : FileImpl) :
  fs fname = Some bytes ->
  FileImpl_new fs fname = Ok f ->
  table_complete bytes = false ->
  let e := ZenoFileFormatError (index_header_msg fname) in
  (forall idx, idx < getCountArticles f ->
     thrown (getDirent idx f) = Some e /\
     thrown (getArticle idx f) = Some e) /\
  (0 < getCountArticles f ->
   thrown (getNamespaces f) = Some e /\
   forall ns title collate,
     thrown (findArticle ns title collate f) = Some e /\
     thrown (getArticle_by_title ns title collate f) = Some e).
Proof.
  intros Hfs Hopen Htable e.
  assert (Hname : filename f = fname /\ namespaces f = [] /\
                  failbit (zenoFile f) = true).
  { destruct (FileImpl_new_Ok_inv fs fname bytes f Hfs Hopen) as [_ ->].
    cbn [filename zenoFile namespaces].
    rewrite open_stream_state, Htable. repeat split. }
  destruct Hname as (Hname & Hcache & Hfail).
  assert (Hidx : forall idx, idx < getCountArticles f ->
            exists f', getDirent idx f = Throw e f' /\
                       getArticle idx f = Throw e f').
  { intros idx Hidx.
    destruct (getDirent_failed f idx Hfail Hidx) as (f' & E1 & E2 & _).
    rewrite Hname in E1, E2. now exists f'. }
  split.
  - intros idx Hlt. destruct (Hidx idx Hlt) as (f' & -> & ->).
    split; reflexivity.
  - intros Hpos. destruct (Hidx 0 Hpos) as (f' & E & _).
    assert (Hns : getNamespaces f = Throw e f').
    { unfold getNamespaces. unfold bind at 1. unfold get at 1.
      rewrite Hcache. unfold bind at 1. unfold bind at 1.
      now rewrite E. }
    split; [now rewrite Hns|].
    intros ns title collate.
    assert (Hfind : findArticle ns title collate f = Throw e f').
    { unfold findArticle. now rewrite (bind_Throw _ _ _ _ _ Hns). }
    split; [now rewrite Hfind|].
    unfold getArticle_by_title. now rewrite (bind_Throw _ _ _ _ _ Hfind).
Qed.

End OpenThenLookup.

(** ** Namespace offsets at the edges *)

Section NamespaceEdges.
Context {decls : ZenoDecls}.

(** X11: the namespace offsets for a namespace [ch] that no entry of a
    sorted, non-empty archive has.  Above the first namespace both
    functions return the number of entries with a smaller namespace, an
    empty range; below the first namespace [getNamespaceBeginOffset]
    returns 0 but [getNamespaceEndOffset] returns 1, its upper bound never
    going below 1, so that the range holds the first entry. *)
Theorem namespace_offsets_of_absent_namespace (f : FileImpl)
  (es : list Dirent) (ch : Z) :
  entries f = Some es ->
  Z.of_nat (length es) < size_type_mod ->
  sorted es = true ->
  0 < Z.of_nat (length es) ->
  ~ In ch (map getNamespace es) ->
  exists b e f1 f2,
    getNamespaceBeginOffset ch f = Ret b f1 /\
    getNamespaceEndOffset ch f = Ret e f2 /\
    (namespace_at es 0 < ch ->
     b = e /\
     forall i, 0 <= i < Z.of_nat (length es) ->
               (i < b <-> namespace_at es i < ch)) /\
    (ch < namespace_at es 0 -> b = 0 /\ e = 1).
Proof.
  intros He Hfit Hsorted Hn Hnot.
  assert (Hne : forall i, 0 <= i < Z.of_nat (length es) ->
                          namespace_at es i <> ch).
  { intros i Hi E. apply Hnot. apply In_namespace_at. now exists i. }
  destruct (getNamespaceBeginOffset_ok es Hfit Hsorted ch f He Hn)
    as (b & f1 & Eb & _ & Hb & Pb).
  destruct (Z.lt_ge_cases ch (namespace_at es 0)) as [Hbelow|Habove].
  - assert (Hall : forall i, 0 <= i < Z.of_nat (length es) ->
                             ch < namespace_at es i).
    { intros i Hi.
      destruct (Z.eq_dec i 0) as [->|Hi0]; [exact Hbelow|].
      pose proof (sorted_namespace_mono es Hsorted 0 i
                    ltac:(lia) ltac:(lia) ltac:(lia)). lia. }
    destruct (getNamespaceEndOffset_loop_ok es Hfit ch
                (Z.to_nat (Z.of_nat (length es)))
                0 (Z.of_nat (length es)) f He ltac:(lia) ltac:(lia)
                ltac:(lia) ltac:(now left) ltac:(now left))
      as (l' & f2 & E & _ & Hl0 & Hl1 & Il & _).
    assert (Hl : l' = 0).
    { destruct Il as [Il|Il]; [exact Il|].
      specialize (Hall l' ltac:(lia)). lia. }
    subst l'.
    exists b, 1, f1, f2. split; [exact Eb|]. split.
    + unfold getNamespaceEndOffset. unfold bind at 1. unfold get at 1.
      rewrite (entries_count _ _ He).
      now rewrite (bind_Ret _ _ _ _ _ E).
    + split; [intros; lia|]. intros _. split; [|reflexivity].
      destruct (Z.eq_dec b 0) as [Hb0|Hb0]; [exact Hb0|].
      pose proof (proj1 (Pb 0 ltac:(lia)) ltac:(lia)).
      specialize (Hall 0 ltac:(lia)). lia.
  - destruct (getNamespaceEndOffset_ok es Hfit Hsorted ch f He Hn
                ltac:(lia))
      as (e & f2 & Ee & _ & Hee & Pe).
    exists b, e, f1, f2. split; [exact Eb|]. split; [exact Ee|].
    split; [|intros; lia]. intros _. split; [|exact Pb].
    destruct (Z.lt_trichotomy b e) as [Hlt|[Heq|Hgt]]; [|exact Heq|].
    + pose proof (proj1 (Pe b ltac:(lia)) Hlt).
      pose proof (Hne b ltac:(lia)).
      pose proof (proj2 (Pb b ltac:(lia)) ltac:(lia)). lia.
    + pose proof (proj1 (Pb e ltac:(lia)) Hgt).
      pose proof (proj2 (Pe e ltac:(lia)) ltac:(lia)). lia.
Qed.

(** X12: on an archive without entries [getNamespaceBeginOffset] throws
    the error of an index out of range, from its read of entry 0, while
    [getNamespaceEndOffset] returns 0 without reading; neither changes the
    object. *)
Theorem namespace_offsets_of_empty_archive (f : FileImpl) (ch : Z) :
  getCountArticles f = 0 ->
  getNamespaceBeginOffset ch f = Throw out_of_range f /\
  getNamespaceEndOffset ch f = Ret 0 f.
Proof.
  intros Hcount. split.
  - unfold getNamespaceBeginOffset. unfold bind at 1. unfold get at 1.
    unfold bind at 1. unfold getDirent. unfold bind at 1. unfold get at 1.
    rewrite Hcount. reflexivity.
  - unfold getNamespaceEndOffset. unfold bind at 1. unfold get at 1.
    rewrite Hcount. reflexivity.
Qed.

(** X13: a first call of [getNamespaces] that reads entry 0 and throws
    later leaves the namespaces found so far in the cache, the namespace
    of entry 0 first; every later call then returns this part of the
    namespaces without an error and without reading the file. *)
Theorem getNamespaces_keeps_partial_cache (f f1 f' : FileImpl) (d : Dirent)
  (e : error) :
  namespaces f = [] ->
  getDirent 0 f = Ret d f1 ->
  getNamespaces f = Throw e f' ->
  (exists more, namespaces f' = getNamespace d :: more) /\
  forall f'', namespaces f'' = namespaces f' ->
              getNamespaces f'' = Ret (namespaces f') f''.
Proof.
  intros Hcache Hd H.
  assert (Hpart : exists more, namespaces f' = getNamespace d :: more).
  { unfold getNamespaces in H. unfold bind at 1 in H. unfold get at 1 in H.
    rewrite Hcache in H. unfold bind at 1 in H.
    rewrite (bind_Ret _ _ _ _ _ Hd) in H.
    unfold bind at 1 in H. unfold assign_namespaces at 1 in H.
    unfold bind at 1 in H. unfold get at 1 in H.
    pose proof (preserves_getNamespaces_loop
                  (Z.to_nat (getCountArticles
                               (set_namespaces [getNamespace d] f1)))
                  d (set_namespaces [getNamespace d] f1)) as Hkeep.
    destruct (getNamespaces_loop _ d _) as [u f3|e' f3|];
      [discriminate H| |discriminate H].
    injection H as _ <-.
    destruct (Hkeep f3 eq_refl) as (_ & more & Hmore).
    exists more. exact Hmore. }
  split; [exact Hpart|].
  intros f'' Hsame. rewrite <- Hsame. apply getNamespaces_cached.
  rewrite Hsame. destruct Hpart as [more ->]. discriminate.
Qed.

End NamespaceEdges.

(** ** Lookups by key on a whole archive *)

Section LookupsByKey.
Context {decls : ZenoDecls}.
Variable es : list Dirent.
Hypothesis count_fits : Z.of_nat (length es) < size_type_mod.
Hypothesis es_sorted : sorted es = true.
Hypothesis es_not_empty : 0 < Z.of_nat (length es).

(** A lookup that returns leaves the namespaces of the table cached. *)
Lemma findArticle_caches (ns : Z) (title : QUnicodeString) (collate : bool)
  (f f' : FileImpl) (r : bool * Z) :
  entries f = Some es ->
  cache_valid es f ->
  findArticle ns title collate f = Ret r f' ->
  namespaces f' = first_occurrences (map getNamespace es).
Proof.
  intros He Hcache H.
  destruct (getNamespaces_any_call es count_fits es_sorted f He
              es_not_empty Hcache) as (f1 & E1 & _ & Hc1).
  unfold findArticle in H. rewrite (bind_Ret _ _ _ _ _ E1) in H.
  match type of H with
  | ?k f1 = _ => assert (Hk : preserves same_object k)
  end.
  { repeat first [ apply preserves_findArticle_loop
                 | apply preserves_readDirentNolock
                 | preserves_step ]. }
  pose proof (Hk f1 f') as Hkeep. rewrite H in Hkeep.
  destruct (Hkeep eq_refl) as [_ Hns]. now rewrite Hns.
Qed.

Lemma findArticle_total (ns : Z) (title : QUnicodeString) (collate : bool)
  (f : FileImpl) :
  entries f = Some es ->
  cache_valid es f ->
  exists found idx f',
    findArticle ns title collate f = Ret (found, idx) f' /\
    entries f' = Some es /\
    cache_valid es f' /\
    0 <= idx <= Z.of_nat (length es) /\
    (found = true ->
     idx < Z.of_nat (length es) /\
     compare_title collate title (entry_at es idx) = 0) /\
    (~ In ns (map getNamespace es) -> found = false /\ idx = 0).
Proof.
  intros He Hcache.
  destruct (in_dec Z.eq_dec ns (map getNamespace es)) as [Hin|Hnot].
  - destruct (findArticle_run es count_fits es_sorted ns title collate f
                He Hcache Hin) as (r & f' & E & He' & R).
    pose proof (findArticle_caches ns title collate f f' r He Hcache E)
      as Hc'.
    destruct R as [(p & -> & Hp & Hc)|(l & Hl & _ & _ & ->)].
    + exists true, p, f'. split; [exact E|]. split; [exact He'|].
      split; [now right|]. split; [lia|]. split; [|contradiction].
      intros _. split; [lia|].
      unfold probe_compare in Hc.
      destruct (ns <? getNamespace (entry_at es p)); [discriminate Hc|].
      destruct (ns >? getNamespace (entry_at es p)); [discriminate Hc|].
      exact Hc.
    + destruct (Z.eqb_spec (compare_title collate title (entry_at es l)) 0)
        as [Hc|Hc].
      * exists true, l, f'. split; [exact E|]. split; [exact He'|].
        split; [now right|]. split; [lia|]. split; [|contradiction].
        intros _. split; [lia | exact Hc].
      * exists false, (l + 1), f'. split; [exact E|]. split; [exact He'|].
        split; [now right|]. split; [lia|]. split; [discriminate|].
        contradiction.
  - destruct (getNamespaces_any_call es count_fits es_sorted f He
                es_not_empty Hcache) as (f1 & E1 & He1 & Hc1).
    exists false, 0, f1. split.
    { unfold findArticle. rewrite (bind_Ret _ _ _ _ _ E1).
      replace (string_find (first_occurrences (map getNamespace es)) ns)
        with (@None Z); [reflexivity|].
      symmetry. apply string_find_None. intros H. apply Hnot.
      now apply In_first_occurrences. }
    split; [exact He1|]. split; [now right|]. split; [lia|].
    split; [discriminate|]. intros _. now split.
Qed.

Lemma getArticle_by_title_total (ns : Z) (url : QUnicodeString)
  (collate : bool) (f : FileImpl) :
  entries f = Some es ->
  cache_valid es f ->
  exists found idx f1 a f',
    findArticle ns url collate f = Ret (found, idx) f1 /\
    getArticle_by_title ns url collate f = Ret a f' /\
    entries f' = Some es /\
    cache_valid es f' /\
    (found = false -> a = Article_empty /\ f' = f1) /\
    (found = true ->
     0 <= idx < Z.of_nat (length es) /\
     a = Article_of idx (entry_at es idx) /\
     compare_title collate url (entry_at es idx) = 0 /\
     same_archive f1 f') /\
    (~ In ns (map getNamespace es) -> a = Article_empty).
Proof.
  intros He Hcache.
  destruct (findArticle_total ns url collate f He Hcache)
    as (found & idx & f1 & E & He1 & Hc1 & Hidx & Hfound & Habsent).
  exists found, idx, f1.
  unfold getArticle_by_title. rewrite (bind_Ret _ _ _ _ _ E).
  cbn [fst snd]. destruct found; cbn [negb].
  - destruct (Hfound eq_refl) as [Hlt Hc].
    unfold bind at 1. unfold get at 1.
    destruct (readDirentNolock_entry f1 es idx He1 ltac:(lia))
      as (d & f2 & Hd & Hr & Hs).
    rewrite (bind_Ret _ _ _ _ _ Hr).
    apply (entry_at_nth_error es) in Hd. subst d.
    exists (Article_of idx (entry_at es idx)), f2.
    split; [exact E|]. split; [reflexivity|].
    split; [exact (entries_same_archive _ _ _ He1 Hs)|].
    split.
    { pose proof Hs as (_ & Hns & _). destruct Hc1 as [Hc1|Hc1];
        [left | right]; congruence. }
    split; [discriminate|]. split.
    + intros _. split; [lia|]. split; [reflexivity|]. now split.
    + intros Hnot. destruct (Habsent Hnot) as [Hf _]. discriminate Hf.
  - exists Article_empty, f1. split; [exact E|]. split; [reflexivity|].
    split; [exact He1|]. split; [exact Hc1|].
    split; [intros _; now split|]. split; [discriminate|]. reflexivity.
Qed.

End LookupsByKey.

Section LookupExtras.
Context {decls : ZenoDecls}.


(** X15: on such an archive [getArticle(ns, url, collate)] returns as
    well, and what it returns follows the result of [findArticle] for the
    key: when [findArticle] says not found it returns the empty article
    and reads nothing more, in particular for a namespace that no entry
    has; when [findArticle] says found at an index it returns the article
    made of that index and the entry at that index, whose title compares
    equal to [url]. *)
Theorem getArticle_by_title_returns (f : FileImpl) (es : list Dirent)
  (ns : Z) (url : QUnicodeString) (collate : bool) :
  entries f = Some es ->
  Z.of_nat (length es) < size_type_mod ->
  sorted es = true ->
  0 < Z.of_nat (length es) ->
  cache_valid es f ->
  exists found idx f1 a f',
    findArticle ns url collate f = Ret (found, idx) f1 /\
    getArticle_by_title ns url collate f = Ret a f' /\
    entries f' = Some es /\
    cache_valid es f' /\
    (found = false -> a = Article_empty /\ f' = f1) /\
    (found = true ->
     0 <= idx < Z.of_nat (length es) /\
     a = Article_of idx (entry_at es idx) /\
     compare_title collate url (entry_at es idx) = 0 /\
     same_archive f1 f') /\
    (~ In ns (map getNamespace es) -> a = Article_empty).
Proof.
  intros He Hfit Hsorted Hn Hcache.
  exact (getArticle_by_title_total es Hfit Hsorted Hn ns url collate f
           He Hcache).
Qed.

(** X16: with the exact comparison, a total order of the titles, a key
    that an entry of the sorted archive has is found:
    [getArticle(ns, url, false)] returns an article made of an index and
    the entry at that index, and this entry has the namespace and the
    title of the key. *)
Theorem getArticle_by_title_finds_present_key {laws : CompareLaws}
  (f : FileImpl) (es : list Dirent) (ns : Z) (url : QUnicodeString)
  (k : Z) :
  entries f = Some es ->
  Z.of_nat (length es) < size_type_mod ->
  sorted es = true ->
  cache_valid es f ->
  0 <= k < Z.of_nat (length es) ->
  has_key ns url (entry_at es k) = true ->
  exists j f',
    getArticle_by_title ns url false f =
    Ret (Article_of j (entry_at es j)) f' /\
    0 <= j < Z.of_nat (length es) /\
    has_key ns url (entry_at es j) = true.
Proof.
  intros He Hfit Hsorted Hcache Hk Hkey.
  destruct (findArticle_exact_present es Hfit Hsorted ns url f k
              He Hcache Hk Hkey) as (j & f1 & E & Hj & Hjkey).
  destruct (findArticle_total es Hfit Hsorted ltac:(lia) ns url false f
              He Hcache) as (found & idx & f1' & E' & He1 & _).
  rewrite E in E'. injection E' as <- <- <-.
  unfold getArticle_by_title. rewrite (bind_Ret _ _ _ _ _ E).
  cbn [fst snd negb]. unfold bind at 1. unfold get at 1.
  destruct (readDirentNolock_entry f1 es j He1 Hj)
    as (d & f2 & Hd & Hr & _).
  rewrite (bind_Ret _ _ _ _ _ Hr).
  apply (entry_at_nth_error es) in Hd. subst d.
  exists j, f2. split; [reflexivity|]. now split.
Qed.

(** X17: every call ends.  On an object with fewer than 2^32 offsets, as
    the constructor leaves it, the loops of the reads, of the namespace
    offsets, of [getNamespaces] and of the lookups by key come to an end
    on every file, damaged or not: each call returns or throws. *)
Theorem every_call_ends (f : FileImpl) :
  getCountArticles f < size_type_mod ->
  (forall off count, readData off count f <> NoFuel) /\
  (forall idx, getDirent idx f <> NoFuel) /\
  (forall idx, getArticle idx f <> NoFuel) /\
  (forall ch, getNamespaceBeginOffset ch f <> NoFuel) /\
  (forall ch, getNamespaceEndOffset ch f <> NoFuel) /\
  getNamespaces f <> NoFuel /\
  (forall ns title collate, findArticle ns title collate f <> NoFuel) /\
  (forall ns url collate, getArticle_by_title ns url collate f <> NoFuel).
Proof.
  intros Hfit.
  destruct (lookups_end f Hfit) as (Hd & Ha & Hb & He & Hns & Hfind).
  split.
  { intros off count. unfold readData, readDataNolock_at.
    unfold bind at 1. unfold zenoFile_seekg, readDataNolock.
    apply readDataNolock_loop_ends. lia. }
  repeat (split; [assumption|]).
  intros ns url collate. unfold getArticle_by_title. unfold bind at 1.
  specialize (Hfind ns url collate).
  destruct (findArticle ns url collate f) as [s f1|e f1|];
    [|discriminate|contradiction].
  destruct (negb (fst s)); [unfold ret; discriminate|].
  unfold bind at 1. unfold get at 1. unfold bind.
  destruct (readDirentNolock _ f1) as [d f2|e f2|] eqn:E; try discriminate.
  exfalso. exact (readDirentNolock_ends _ _ E).
Qed.

End LookupExtras.

(** ** Reads compose *)

Section ReadsCompose.
Context {decls : ZenoDecls}.

Lemma file_slice_app (bytes : list byte) (off c1 c2 : Z) :
  0 <= off -> 0 <= c1 -> 0 <= c2 ->
  file_slice bytes off (c1 + c2) =
  file_slice bytes off c1 ++ file_slice bytes (off + c1) c2.
Proof.
  intros Hoff H1 H2. unfold file_slice.
  rewrite !Z2Nat.inj_add by lia.
  rewrite <- (firstn_skipn (Z.to_nat c1)
                (firstn (Z.to_nat c1 + Z.to_nat c2)
                   (skipn (Z.to_nat off) bytes))).
  rewrite firstn_firstn, Nat.min_l by lia. f_equal.
  rewrite skipn_firstn_comm, skipn_skipn.
  f_equal; [lia|]. f_equal. lia.
Qed.

(** X18: reading a part of the file in two calls gives the bytes of one
    call: on a good stream, with the bytes in the file, [readData(off, c1)]
    followed by [readData(off + c1, c2)] returns the two halves of what
    [readData(off, c1 + c2)] returns. *)
Theorem readData_in_two_parts (f : FileImpl) (off c1 c2 : Z) :
  failbit (zenoFile f) = false ->
  0 <= off -> 0 <= c1 -> 0 <= c2 ->
  c1 + c2 < size_type_mod ->
  off + c1 < 2 ^ 63 ->
  off + c1 + c2 <= Z.of_nat (length (content (zenoFile f))) ->
  exists r1 r2 f1 f2 f3,
    readData off c1 f = Ret r1 f1 /\
    readData (off + c1) c2 f1 = Ret r2 f2 /\
    readData off (c1 + c2) f = Ret (r1 ++ r2) f3.
Proof.
  intros Hgood Hoff H1 H2 Hfit H63 Hlen.
  destruct (readData_enough f off c1 Hgood ltac:(lia) ltac:(lia) ltac:(lia))
    as (f1 & E1 & (_ & _ & _ & Hc1 & Hgood1) & _).
  destruct (readData_enough f1 (off + c1) c2 Hgood1 ltac:(lia) ltac:(lia)
              ltac:(rewrite Hc1; lia))
    as (f2 & E2 & _).
  destruct (readData_enough f off (c1 + c2) Hgood ltac:(lia) ltac:(lia)
              ltac:(lia))
    as (f3 & E3 & _).
  rewrite Hc1 in E2. rewrite file_slice_app in E3 by assumption.
  eexists _, _, f1, f2, f3. split; [exact E1|]. split; [exact E2 | exact E3].
Qed.

(** X19: what [getDirent] returns does not depend on the reads made
    before: after a call that returned, a call for any index returns the
    entry it would have returned before, the stream position the first
    call left making no difference. *)
Theorem getDirent_is_repeatable (f f1 f2 : FileImpl) (i j : Z)
  (d d' : Dirent) :
  getDirent i f = Ret d f1 ->
  getDirent j f = Ret d' f2 ->
  exists f3, getDirent j f1 = Ret d' f3 /\ same_archive f f3.
Proof.
  intros Hi Hj.
  apply getDirent_Ret_inv in Hi as [_ Hsame1].
  pose proof Hsame1 as (Hoffs & _ & _ & Hc & Hgood1).
  assert (Hlt : (j >=? getCountArticles f) = false).
  { unfold getDirent in Hj. unfold bind at 1 in Hj. unfold get at 1 in Hj.
    destruct (j >=? getCountArticles f); [discriminate Hj | reflexivity]. }
  apply getDirent_Ret_inv in Hj as [Hat _].
  rewrite <- Hc, <- Hoffs in Hat.
  destruct (readDirentNolock_ok_pos f1 _ d' Hgood1 Hat)
    as (f3 & E & Hsame3 & _).
  exists f3. split; [|exact (same_archive_trans _ _ _ Hsame1 Hsame3)].
  unfold getDirent. unfold bind at 1. unfold get at 1.
  replace (getCountArticles f1) with (getCountArticles f)
    by (unfold getCountArticles; now rewrite Hoffs).
  rewrite Hlt. unfold bind at 1. unfold get at 1. exact E.
Qed.

End ReadsCompose.

(** ** A key that no entry has, compared exactly *)

Section AbsentKey.
Context {decls : ZenoDecls} {laws : CompareLaws}.

(** X20: [findArticle] with the exact comparison for a key that no entry
    of the sorted archive has, in a namespace that some entry has.  For a
    key below the first entry it returns not found with the index 1, one
    past the smallest index with a greater key, which is 0.  For a key
    above the first entry it looks at the entry before the smallest index
    with a greater key and compares the titles only: it returns not found
    with that smallest index when the titles differ, and found at the
    entry before when they are equal, although no entry has the key. *)
Theorem findArticle_exact_absent_key (f : FileImpl) (es : list Dirent)
  (ns : Z) (title : QUnicodeString) :
  entries f = Some es ->
  Z.of_nat (length es) < size_type_mod ->
  sorted es = true ->
  cache_valid es f ->
  In ns (map getNamespace es) ->
  forallb (fun d => negb (has_key ns title d)) es = true ->
  exists r f',
    findArticle ns title false f = Ret r f' /\
    (key_compare ns title (entry_at es 0) < 0 ->
     first_greater ns title es = 0 /\ r = (false, 1)) /\
    (0 < key_compare ns title (entry_at es 0) ->
     0 < first_greater ns title es /\
     r = if compare title
              (getTitle (entry_at es (first_greater ns title es - 1))) =? 0
         then (true, first_greater ns title es - 1)
         else (false, first_greater ns title es)).
Proof.
  intros He Hfit Hsorted Hcache Hin Habsent.
  destruct (Z.lt_trichotomy (key_compare ns title (entry_at es 0)) 0)
    as [Hlt|[Heq|Hgt]].
  - destruct (findArticle_exact_absent_below es Hfit Hsorted ns title f
                He Hcache Hin Hlt) as (f' & E & Hfg).
    exists (false, 1), f'. split; [exact E|]. split; [now split | lia].
  - exfalso.
    assert (Hn : es <> []) by (intros ->; contradiction).
    destruct es as [|d0 rest]; [contradiction|].
    cbn [forallb] in Habsent. apply andb_prop in Habsent as [H0 _].
    unfold entry_at in Heq. cbn [Z.to_nat nth] in Heq.
    unfold has_key in H0. rewrite Heq in H0. discriminate H0.
  - destruct (findArticle_exact_absent_above es Hfit Hsorted ns title f
                He Hcache Hin Habsent Hgt) as (r & f' & E & Hfg & Hr).
    exists r, f'. split; [exact E|]. split; [lia | now split].
Qed.

End AbsentKey.

(** ** The further properties on sample archives *)

Lemma readData_returns_file_bytes_witness :
  let f := Sample.opened Sample.example_entries in
  failbit (zenoFile f) = false /\
  0 <= 8 < 2 ^ 63 /\
  0 <= 4 < size_type_mod /\
  8 + 4 <= Z.of_nat (length (content (zenoFile f))) /\
  exists f',
    readData 8 4 f = Ret (file_slice (content (zenoFile f)) 8 4) f' /\
    same_archive f f' /\
    gpos (zenoFile f') = 8 + 4.
Proof.
  intros f.
  assert (H1 : failbit (zenoFile f) = false) by (vm_compute; reflexivity).
  assert (H2 : 0 <= 8 < 2 ^ 63) by lia.
  assert (H3 : 0 <= 4 < size_type_mod) by (unfold size_type_mod; lia).
  assert (H4 : 8 + 4 <= Z.of_nat (length (content (zenoFile f))))
    by (vm_compute; discriminate).
  repeat (split; [assumption|]).
  exact (readData_returns_file_bytes f 8 4 H1 H2 H3 H4).
Defined.

Lemma readData_short_file_throws_witness :
  let f := Sample.opened Sample.example_entries in
  0 < 100000 < size_type_mod /\
  ~ (0 <= 0 < 2 ^ 63 /\
     0 + 100000 <= Z.of_nat (length (content (zenoFile f)))) /\
  exists f',
    readData 0 100000 f = Throw data_error f' /\
    failbit (zenoFile f') = true.
Proof.
  intros f.
  assert (H1 : 0 < 100000 < size_type_mod) by (unfold size_type_mod; lia).
  assert (H2 : ~ (0 <= 0 < 2 ^ 63 /\
                  0 + 100000 <= Z.of_nat (length (content (zenoFile f))))).
  { intros [_ H]. vm_compute in H. apply H. reflexivity. }
  repeat (split; [assumption|]).
  exact (readData_short_file_throws f 0 100000 H1 (or_intror H2)).
Defined.

Lemma readData_result_is_file_part_witness :
  let f := Sample.opened Sample.example_entries in
  0 <= 8 < size_type_mod /\
  exists r f',
    readData 60 8 f = Ret r f' /\
    r = file_slice (content (zenoFile f)) 60 8 /\
    Z.of_nat (length r) = 8.
Proof.
  intros f.
  assert (H1 : 0 <= 8 < size_type_mod) by (unfold size_type_mod; lia).
  split; [exact H1|].
  destruct (readData 60 8 f) as [r f'|e f'|] eqn:E.
  - exists r, f'. split; [reflexivity|].
    exact (readData_result_is_file_part f f' 60 8 r H1 E).
  - vm_compute in E. discriminate E.
  - vm_compute in E. discriminate E.
Defined.

Lemma readDirentNolock_missing_entry_witness :
  let f := sample_opened (cut_short
                            (Sample.archive_bytes Sample.two_namespaces)) in
  let off := vector_at (indexOffsets f) 1 in
  failbit (zenoFile f) = false /\
  dirent_at (content (zenoFile f)) off = None /\
  exists f',
    failbit (zenoFile f') = true /\
    ((~ (0 <= off < 2 ^ 63 /\
         off + 26 <= Z.of_nat (length (content (zenoFile f)))) /\
      readDirentNolock off f =
      Throw (ZenoFileFormatError (index_header_msg (filename f))) f') \/
     ((0 <= off < 2 ^ 63 /\
       off + 26 <= Z.of_nat (length (content (zenoFile f)))) /\
      readDirentNolock off f = Throw data_error f')).
Proof.
  intros f off.
  assert (H1 : failbit (zenoFile f) = false) by (vm_compute; reflexivity).
  assert (H2 : dirent_at (content (zenoFile f)) off = None)
    by (vm_compute; reflexivity).
  repeat (split; [assumption|]).
  exact (readDirentNolock_missing_entry f off H1 H2).
Defined.

Lemma readDirentNolock_here_reads_next_witness :
  let f := Sample.opened Sample.example_entries in
  let bytes := content (zenoFile f) in
  let off := vector_at (indexOffsets f) 0 in
  let next := off + entry_span bytes off in
  failbit (zenoFile f) = false /\
  exists d1 d2,
    dirent_at bytes off = Some d1 /\
    dirent_at bytes next = Some d2 /\
    exists f1 f2,
      readDirentNolock off f = Ret d1 f1 /\
      readDirentNolock_here f1 = Ret d2 f2 /\
      same_archive f f2 /\
      gpos (zenoFile f2) = next + entry_span bytes next.
Proof.
  intros f bytes off next.
  assert (H0 : failbit (zenoFile f) = false) by (vm_compute; reflexivity).
  split; [exact H0|].
  destruct (dirent_at bytes off) as [d1|] eqn:H1;
    [|vm_compute in H1; discriminate H1].
  destruct (dirent_at bytes next) as [d2|] eqn:H2;
    [|vm_compute in H2; discriminate H2].
  exists d1, d2. split; [reflexivity|]. split; [reflexivity|].
  exact (readDirentNolock_here_reads_next f off d1 d2 H0 H1 H2).
Defined.

Lemma format_error_is_permanent_witness :
  let f := sample_opened (cut_short
                            (Sample.archive_bytes Sample.two_namespaces)) in
  1 < getCountArticles f /\
  exists e f',
    getDirent 1 f = Throw e f' /\
    failbit (zenoFile f') = true /\
    getCountArticles f' = getCountArticles f /\
    forall j, j < getCountArticles f ->
      exists f'',
        getDirent j f' =
        Throw (ZenoFileFormatError (index_header_msg (filename f))) f'' /\
        getArticle j f' =
        Throw (ZenoFileFormatError (index_header_msg (filename f))) f'' /\
        failbit (zenoFile f'') = true.
Proof.
  intros f.
  assert (H1 : 1 < getCountArticles f) by (vm_compute; reflexivity).
  split; [exact H1|].
  destruct (getDirent 1 f) as [d f'|e f'|] eqn:E.
  - vm_compute in E. discriminate E.
  - exists e, f'. split; [reflexivity|].
    exact (format_error_is_permanent f f' 1 e H1 E).
  - vm_compute in E. discriminate E.
Defined.

Lemma open_leaves_object_witness :
  let bytes := Sample.archive_bytes Sample.example_entries in
  let fs := Sample.one_file "sample.zeno" bytes in
  let f := Sample.opened Sample.example_entries in
  fs "sample.zeno"%string = Some bytes /\
  FileImpl_new fs "sample.zeno" = Ok f /\
  indexPtrPos_of bytes <= Z.of_nat (length bytes) /\
  table_complete bytes = true /\
  filename f = "sample.zeno"%string /\
  content (zenoFile f) = bytes /\
  namespaces f = [] /\
  getCountArticles f < size_type_mod /\
  (forall off, In off (indexOffsets f) -> 0 <= off < offset_type_mod) /\
  failbit (zenoFile f) = false.
Proof.
  intros bytes fs f.
  assert (Hfs : fs "sample.zeno"%string = Some bytes) by reflexivity.
  assert (Hopen : FileImpl_new fs "sample.zeno" = Ok f)
    by (vm_compute; reflexivity).
  assert (Hpos : indexPtrPos_of bytes <= Z.of_nat (length bytes))
    by (vm_compute; discriminate).
  assert (Htable : table_complete bytes = true) by (vm_compute; reflexivity).
  split; [exact Hfs|]. split; [exact Hopen|]. split; [exact Hpos|].
  split; [exact Htable|].
  destruct (open_leaves_object fs "sample.zeno" bytes f Hfs Hopen)
    as (H1 & H2 & H3 & H4 & H5 & _ & H7).
  repeat (split; [assumption|]).
  exact (H7 Hpos Htable).
Defined.

Lemma open_incomplete_table_unusable_witness :
  let bytes := Sample.truncated_table in
  let fs := Sample.one_file "sample.zeno" bytes in
  let f := sample_opened bytes in
  let e := ZenoFileFormatError (index_header_msg "sample.zeno") in
  fs "sample.zeno"%string = Some bytes /\
  FileImpl_new fs "sample.zeno" = Ok f /\
  table_complete bytes = false /\
  (forall idx, idx < getCountArticles f ->
     thrown (getDirent idx f) = Some e /\
     thrown (getArticle idx f) = Some e) /\
  (0 < getCountArticles f ->
   thrown (getNamespaces f) = Some e /\
   forall ns title collate,
     thrown (findArticle ns title collate f) = Some e /\
     thrown (getArticle_by_title ns title collate f) = Some e).
Proof.
  intros bytes fs f e.
  assert (Hfs : fs "sample.zeno"%string = Some bytes) by reflexivity.
  assert (Hopen : FileImpl_new fs "sample.zeno" = Ok f)
    by (vm_compute; reflexivity).
  assert (Htable : table_complete bytes = false) by (vm_compute; reflexivity).
  split; [exact Hfs|]. split; [exact Hopen|]. split; [exact Htable|].
  exact (open_incomplete_table_unusable fs "sample.zeno" bytes f
           Hfs Hopen Htable).
Defined.

Lemma namespace_offsets_of_absent_namespace_witness :
  let f := Sample.opened Sample.two_namespaces in
  let es := Sample.dirents Sample.two_namespaces in
  let ch := Sample.char "B" in
  entries f = Some es /\
  Z.of_nat (length es) < size_type_mod /\
  sorted es = true /\
  0 < Z.of_nat (length es) /\
  ~ In ch (map getNamespace es) /\
  exists b e f1 f2,
    getNamespaceBeginOffset ch f = Ret b f1 /\
    getNamespaceEndOffset ch f = Ret e f2 /\
    (namespace_at es 0 < ch ->
     b = e /\
     forall i, 0 <= i < Z.of_nat (length es) ->
               (i < b <-> namespace_at es i < ch)) /\
    (ch < namespace_at es 0 -> b = 0 /\ e = 1).
Proof.
  intros f es ch.
  assert (H1 : entries f = Some es) by (vm_compute; reflexivity).
  assert (H2 : Z.of_nat (length es) < size_type_mod)
    by (vm_compute; reflexivity).
  assert (H3 : sorted es = true) by (vm_compute; reflexivity).
  assert (H4 : 0 < Z.of_nat (length es)) by (vm_compute; reflexivity).
  assert (H5 : ~ In ch (map getNamespace es)).
  { vm_compute. intros [H|[H|[]]]; discriminate H. }
  repeat (split; [assumption|]).
  exact (namespace_offsets_of_absent_namespace f es ch H1 H2 H3 H4 H5).
Defined.

Lemma namespace_offsets_of_empty_archive_witness :
  let f := Sample.opened [] in
  let ch := Sample.char "A" in
  getCountArticles f = 0 /\
  getNamespaceBeginOffset ch f = Throw out_of_range f /\
  getNamespaceEndOffset ch f = Ret 0 f.
Proof.
  intros f ch.
  assert (H1 : getCountArticles f = 0) by (vm_compute; reflexivity).
  split; [exact H1|].
  exact (namespace_offsets_of_empty_archive f ch H1).
Defined.

Lemma getNamespaces_keeps_partial_cache_witness :
  let f := sample_opened (cut_short
                            (Sample.archive_bytes Sample.two_namespaces)) in
  namespaces f = [] /\
  exists d f1 e f',
    getDirent 0 f = Ret d f1 /\
    getNamespaces f = Throw e f' /\
    (exists more, namespaces f' = getNamespace d :: more) /\
    forall f'', namespaces f'' = namespaces f' ->
                getNamespaces f'' = Ret (namespaces f') f''.
Proof.
  intros f.
  assert (H1 : namespaces f = []) by (vm_compute; reflexivity).
  split; [exact H1|].
  destruct (getDirent 0 f) as [d f1|e f1|] eqn:Ed;
    [|vm_compute in Ed; discriminate Ed..].
  destruct (getNamespaces f) as [s f'|e f'|] eqn:En;
    [vm_compute in En; discriminate En| |vm_compute in En; discriminate En].
  exists d, f1, e, f'. split; [reflexivity|]. split; [reflexivity|].
  exact (getNamespaces_keeps_partial_cache f f1 f' d e H1 Ed En).
Defined.


Lemma getArticle_by_title_returns_witness :
  let f := Sample.opened Sample.example_entries in
  let es := Sample.dirents Sample.example_entries in
  let ns := Sample.char "B" in
  let url := Sample.text "eel" in
  entries f = Some es /\
  Z.of_nat (length es) < size_type_mod /\
  sorted es = true /\
  0 < Z.of_nat (length es) /\
  cache_valid es f /\
  exists found idx f1 a f',
    findArticle ns url false f = Ret (found, idx) f1 /\
    getArticle_by_title ns url false f = Ret a f' /\
    entries f' = Some es /\
    cache_valid es f' /\
    (found = false -> a = Article_empty /\ f' = f1) /\
    (found = true ->
     0 <= idx < Z.of_nat (length es) /\
     a = Article_of idx (entry_at es idx) /\
     compare_title false url (entry_at es idx) = 0 /\
     same_archive f1 f') /\
    (~ In ns (map getNamespace es) -> a = Article_empty).
Proof.
  intros f es ns url.
  assert (H1 : entries f = Some es) by (vm_compute; reflexivity).
  assert (H2 : Z.of_nat (length es) < size_type_mod)
    by (vm_compute; reflexivity).
  assert (H3 : sorted es = true) by (vm_compute; reflexivity).
  assert (H4 : 0 < Z.of_nat (length es)) by (vm_compute; reflexivity).
  assert (H5 : cache_valid es f) by (left; vm_compute; reflexivity).
  repeat (split; [assumption|]).
  exact (getArticle_by_title_returns f es ns url false H1 H2 H3 H4 H5).
Defined.

(** On the archive of the example the key (B, eel) gives the article of
    entry 3, and the key (A, ant), which no entry has, the empty
    article. *)
Example getArticle_by_title_examples :
  let f := Sample.opened Sample.example_entries in
  let es := Sample.dirents Sample.example_entries in
  returned (findArticle (Sample.char "B") (Sample.text "eel") false f)
  = Some (true, 3) /\
  returned (getArticle_by_title (Sample.char "B") (Sample.text "eel") false f)
  = Some (Article_of 3 (entry_at es 3)) /\
  returned (findArticle (Sample.char "A") (Sample.text "ant") false f)
  = Some (false, 1) /\
  returned (getArticle_by_title (Sample.char "A") (Sample.text "ant") false f)
  = Some Article_empty.
Proof. vm_compute. repeat split. Qed.

Lemma getArticle_by_title_finds_present_key_witness :
  let f := Sample.opened Sample.example_entries in
  let es := Sample.dirents Sample.example_entries in
  let ns := Sample.char "A" in
  let url := Sample.text "cat" in
  entries f = Some es /\
  Z.of_nat (length es) < size_type_mod /\
  sorted es = true /\
  cache_valid es f /\
  0 <= 1 < Z.of_nat (length es) /\
  has_key ns url (entry_at es 1) = true /\
  exists j f',
    getArticle_by_title ns url false f =
    Ret (Article_of j (entry_at es j)) f' /\
    0 <= j < Z.of_nat (length es) /\
    has_key ns url (entry_at es j) = true.
Proof.
  intros f es ns url.
  assert (H1 : entries f = Some es) by (vm_compute; reflexivity).
  assert (H2 : Z.of_nat (length es) < size_type_mod)
    by (vm_compute; reflexivity).
  assert (H3 : sorted es = true) by (vm_compute; reflexivity).
  assert (H4 : cache_valid es f) by (left; vm_compute; reflexivity).
  assert (H5 : 0 <= 1 < Z.of_nat (length es))
    by (split; [discriminate | vm_compute; reflexivity]).
  assert (H6 : has_key ns url (entry_at es 1) = true)
    by (vm_compute; reflexivity).
  repeat (split; [assumption|]).
  exact (@getArticle_by_title_finds_present_key Sample.decls
           sample_compare_laws f es ns url 1 H1 H2 H3 H4 H5 H6).
Defined.

Lemma every_call_ends_witness :
  let f := sample_opened (cut_short
                            (Sample.archive_bytes Sample.two_namespaces)) in
  getCountArticles f < size_type_mod /\
  (forall off count, readData off count f <> NoFuel) /\
  (forall idx, getDirent idx f <> NoFuel) /\
  (forall idx, getArticle idx f <> NoFuel) /\
  (forall ch, getNamespaceBeginOffset ch f <> NoFuel) /\
  (forall ch, getNamespaceEndOffset ch f <> NoFuel) /\
  getNamespaces f <> NoFuel /\
  (forall ns title collate, findArticle ns title collate f <> NoFuel) /\
  (forall ns url collate, getArticle_by_title ns url collate f <> NoFuel).
Proof.
  intros f.
  assert (H1 : getCountArticles f < size_type_mod)
    by (vm_compute; reflexivity).
  split; [exact H1|].
  exact (every_call_ends f H1).
Defined.

Lemma readData_in_two_parts_witness :
  let f := Sample.opened Sample.example_entries in
  failbit (zenoFile f) = false /\
  0 <= 0 /\ 0 <= 4 /\ 0 <= 4 /\
  4 + 4 < size_type_mod /\
  0 + 4 < 2 ^ 63 /\
  0 + 4 + 4 <= Z.of_nat (length (content (zenoFile f))) /\
  exists r1 r2 f1 f2 f3,
    readData 0 4 f = Ret r1 f1 /\
    readData (0 + 4) 4 f1 = Ret r2 f2 /\
    readData 0 (4 + 4) f = Ret (r1 ++ r2) f3.
Proof.
  intros f.
  assert (H1 : failbit (zenoFile f) = false) by (vm_compute; reflexivity).
  assert (H2 : 0 <= 0) by lia.
  assert (H3 : 0 <= 4) by lia.
  assert (H4 : 4 + 4 < size_type_mod) by (unfold size_type_mod; lia).
  assert (H5 : 0 + 4 < 2 ^ 63) by lia.
  assert (H6 : 0 + 4 + 4 <= Z.of_nat (length (content (zenoFile f))))
    by (vm_compute; discriminate).
  split; [exact H1|]. split; [exact H2|]. split; [exact H3|].
  split; [exact H3|]. split; [exact H4|]. split; [exact H5|].
  split; [exact H6|].
  exact (readData_in_two_parts f 0 4 4 H1 H2 H3 H3 H4 H5 H6).
Defined.

Lemma getDirent_is_repeatable_witness :
  let f := Sample.opened Sample.example_entries in
  exists d d' f1 f2,
    getDirent 3 f = Ret d f1 /\
    getDirent 1 f = Ret d' f2 /\
    exists f3, getDirent 1 f1 = Ret d' f3 /\ same_archive f f3.
Proof.
  intros f.
  destruct (getDirent 3 f) as [d f1|e f1|] eqn:E1;
    [|vm_compute in E1; discriminate E1..].
  destruct (getDirent 1 f) as [d' f2|e f2|] eqn:E2;
    [|vm_compute in E2; discriminate E2..].
  exists d, d', f1, f2. split; [reflexivity|]. split; [reflexivity|].
  exact (getDirent_is_repeatable f f1 f2 3 1 d d' E1 E2).
Defined.

Lemma findArticle_exact_absent_key_witness :
  let f := Sample.opened Sample.example_entries in
  let es := Sample.dirents Sample.example_entries in
  let ns := Sample.char "A" in
  let title := Sample.text "cow" in
  entries f = Some es /\
  Z.of_nat (length es) < size_type_mod /\
  sorted es = true /\
  cache_valid es f /\
  In ns (map getNamespace es) /\
  forallb (fun d => negb (has_key ns title d)) es = true /\
  exists r f',
    findArticle ns title false f = Ret r f' /\
    (key_compare ns title (entry_at es 0) < 0 ->
     first_greater ns title es = 0 /\ r = (false, 1)) /\
    (0 < key_compare ns title (entry_at es 0) ->
     0 < first_greater ns title es /\
     r = if compare title
              (getTitle (entry_at es (first_greater ns title es - 1))) =? 0
         then (true, first_greater ns title es - 1)
         else (false, first_greater ns title es)).
Proof.
  intros f es ns title.
  assert (H1 : entries f = Some es) by (vm_compute; reflexivity).
  assert (H2 : Z.of_nat (length es) < size_type_mod)
    by (vm_compute; reflexivity).
  assert (H3 : sorted es = true) by (vm_compute; reflexivity).
  assert (H4 : cache_valid es f) by (left; vm_compute; reflexivity).
  assert (H5 : In ns (map getNamespace es))
    by (vm_compute; left; reflexivity).
  assert (H6 : forallb (fun d => negb (has_key ns title d)) es = true)
    by (vm_compute; reflexivity).
  repeat (split; [assumption|]).
  exact (@findArticle_exact_absent_key Sample.decls sample_compare_laws
           f es ns title H1 H2 H3 H4 H5 H6).
Defined.

Lemma index_accessors_check_range_witness :
  let f := sample_opened (cut_short
                            (Sample.archive_bytes Sample.two_namespaces)) in
  entries f = None /\
  0 <= 0 < getCountArticles f /\
  failbit (zenoFile f) = false /\
  exists d,
    dirent_at (content (zenoFile f)) (vector_at (indexOffsets f) 0)
    = Some d /\
    exists f',
      getDirent 0 f = Ret d f' /\
      getArticle 0 f = Ret (Article_of 0 d) f' /\
      same_archive f f'.
Proof.
  intros f.
  assert (H0 : entries f = None) by (vm_compute; reflexivity).
  assert (H1 : 0 <= 0 < getCountArticles f)
    by (split; [discriminate | vm_compute; reflexivity]).
  assert (H2 : failbit (zenoFile f) = false) by (vm_compute; reflexivity).
  repeat (split; [assumption|]).
  destruct (dirent_at (content (zenoFile f)) (vector_at (indexOffsets f) 0))
    as [d|] eqn:H3; [|vm_compute in H3; discriminate H3].
  exists d. split; [reflexivity|].
  exact (proj1 (proj2 (proj2 (index_accessors_check_range f 0))) d H1 H2 H3).
Defined.
